(** * VAMprinting: the print/projection orchestration of [App.tsx]

    A shallow embedding of the [App] component of the controller: its React
    state cells and refs, the browser's timer table, and the handlers that
    drive a print, a simulated print, test playback, calibration, and the
    export and import of a job archive; and, beside it, of the preview of
    the slices ([SlicePreview.tsx]), of the receiving side of the projection
    window ([ProjectionView]) and of the device service ([bleService.ts]).

    Conventions of the embedding.
    - A JavaScript [number] is a rational ([Q]), and a 32-bit float array the
      list of its elements; NaN and the infinities are outside the model.  The
      arithmetic of the handlers is exact.  Where a property turns on the
      rounding of IEEE-754 (the delay that the command stores, the steps of
      the arrow keys, the period of the preview), the operation is followed by
      the rounding of its format, [binary64] or [float32].  Where the source
      divides, the theorems assume the divisor positive, as the data model
      does.
    - A handler created by [useCallback] reads the state cells of the render
      [r] that created it and reads and writes the refs of the live component;
      so every handler takes [r] and runs in the monad [M] over the live
      [World].
    - What leaves the component (a write to the BLE characteristic, a message
      on the presentation connection, a toast) is appended to a trace.
    - An array index that only counts (the loop of the export) is a binary
      natural number ([N]); an index that looks up an image is a [nat]. *)

From Stdlib Require Import List String Ascii Bool Arith PeanoNat NArith Lia QArith.
From Stdlib Require Import Qround Qpower Lqa.
From Stdlib Require Import DecimalString RelationClasses Permutation.
Import ListNotations.

Local Open Scope string_scope.
Local Open Scope list_scope.
Local Open Scope nat_scope.

(** ** Data model ([types.ts]) *)

Inductive Tab := Slicing | Projecting | Advanced.

Inductive PrintMode := velocity | hops | time_per_frame.

Inductive SlicingStatus := idle | slicing | complete | failed.

Record SlicingStats := { time : option Q; count : option nat }.

Record SlicingParams := {
  voxelSize : Q;
  numProjections : Q;
  rotX : Q;
  rotY : Q;
  rotZ : Q }.

Record ProjectionParams := {
  totalRotation : Q;
  rotationSpeed : Q;
  pauseAfterRotation : Q;
  verticalSteps : Q;
  verticalDelay : Q;
  verticalDirection : Q }.

Record AlignmentParams := {
  scale : Q;
  translateX : Q;
  translateY : Q;
  contrast : Q }.

(** A GATT characteristic is an object of the browser; only its identity
    matters here. *)
Definition BluetoothRemoteGATTCharacteristic := nat.

Inductive ConnectionState := connecting | connected | closed | terminated.

(** A presentation connection: an object with an identity and a [state] that
    the browser changes. *)
Record PresentationConnection := {
  connectionId : nat;
  state : ConnectionState }.

Inductive WindowStatus :=
| Disconnected
| Connecting
| Connected
| WindowError (message : string).

(** [printProcessRef.current] *)
Record PrintProcess := {
  currentFrame : nat;
  intervalId : option nat;
  timeoutId : option nat }.

(** ** The component: [useState] cells and [useRef] cells of [App] *)

Record App := {
  activeTab : Tab;
  slicingParams : SlicingParams;
  projectionParams : ProjectionParams;
  alignmentParams : AlignmentParams;
  fileName : option string;
  stlFile : option string;
  projectionImages : list string;
  slicingStatus : SlicingStatus;
  slicingStats : SlicingStats;
  isPrinting : bool;
  isWaitingForHopTrigger : bool;
  printMode : PrintMode;
  timePerFrame : Q;
  isTestPrinting : bool;
  isCalibrating : bool;
  isSimulationMode : bool;
  isConnected : bool;
  writeCharacteristic : option BluetoothRemoteGATTCharacteristic;
  presentationConnectionRef : option PresentationConnection;
  projectionWindowStatus : WindowStatus;
  printProcessRef : PrintProcess;
  testPrintIntervalRef : option nat }.

(** The initial values given to [useState] and [useRef]. *)
Definition initialApp : App := {|
  activeTab := Slicing;
  slicingParams :=
    {| voxelSize := 1; numProjections := 120; rotX := 0; rotY := 0; rotZ := 0 |};
  projectionParams :=
    {| totalRotation := 360; rotationSpeed := 30; pauseAfterRotation := 0;
       verticalSteps := 0; verticalDelay := 1000; verticalDirection := 1 |};
  alignmentParams :=
    {| scale := 100; translateX := 0; translateY := 0; contrast := 100 |};
  fileName := None;
  stlFile := None;
  projectionImages := [];
  slicingStatus := idle;
  slicingStats := {| time := None; count := None |};
  isPrinting := false;
  isWaitingForHopTrigger := false;
  printMode := velocity;
  timePerFrame := 100;
  isTestPrinting := false;
  isCalibrating := false;
  isSimulationMode := false;
  isConnected := false;
  writeCharacteristic := None;
  presentationConnectionRef := None;
  projectionWindowStatus := Disconnected;
  printProcessRef := {| currentFrame := 0; intervalId := None; timeoutId := None |};
  testPrintIntervalRef := None |}.

(** Field updates. *)
Definition with_activeTab v (s : App) : App :=
  Build_App v (slicingParams s) (projectionParams s) (alignmentParams s) (fileName s)
    (stlFile s) (projectionImages s) (slicingStatus s) (slicingStats s) (isPrinting s)
    (isWaitingForHopTrigger s) (printMode s) (timePerFrame s) (isTestPrinting s)
    (isCalibrating s) (isSimulationMode s) (isConnected s) (writeCharacteristic s)
    (presentationConnectionRef s) (projectionWindowStatus s) (printProcessRef s)
    (testPrintIntervalRef s).
Definition with_slicingParams v (s : App) : App :=
  Build_App (activeTab s) v (projectionParams s) (alignmentParams s) (fileName s)
    (stlFile s) (projectionImages s) (slicingStatus s) (slicingStats s) (isPrinting s)
    (isWaitingForHopTrigger s) (printMode s) (timePerFrame s) (isTestPrinting s)
    (isCalibrating s) (isSimulationMode s) (isConnected s) (writeCharacteristic s)
    (presentationConnectionRef s) (projectionWindowStatus s) (printProcessRef s)
    (testPrintIntervalRef s).
Definition with_projectionParams v (s : App) : App :=
  Build_App (activeTab s) (slicingParams s) v (alignmentParams s) (fileName s) (stlFile s)
    (projectionImages s) (slicingStatus s) (slicingStats s) (isPrinting s)
    (isWaitingForHopTrigger s) (printMode s) (timePerFrame s) (isTestPrinting s)
    (isCalibrating s) (isSimulationMode s) (isConnected s) (writeCharacteristic s)
    (presentationConnectionRef s) (projectionWindowStatus s) (printProcessRef s)
    (testPrintIntervalRef s).
Definition with_alignmentParams v (s : App) : App :=
  Build_App (activeTab s) (slicingParams s) (projectionParams s) v (fileName s)
    (stlFile s) (projectionImages s) (slicingStatus s) (slicingStats s) (isPrinting s)
    (isWaitingForHopTrigger s) (printMode s) (timePerFrame s) (isTestPrinting s)
    (isCalibrating s) (isSimulationMode s) (isConnected s) (writeCharacteristic s)
    (presentationConnectionRef s) (projectionWindowStatus s) (printProcessRef s)
    (testPrintIntervalRef s).
Definition with_fileName v (s : App) : App :=
  Build_App (activeTab s) (slicingParams s) (projectionParams s) (alignmentParams s) v
    (stlFile s) (projectionImages s) (slicingStatus s) (slicingStats s) (isPrinting s)
    (isWaitingForHopTrigger s) (printMode s) (timePerFrame s) (isTestPrinting s)
    (isCalibrating s) (isSimulationMode s) (isConnected s) (writeCharacteristic s)
    (presentationConnectionRef s) (projectionWindowStatus s) (printProcessRef s)
    (testPrintIntervalRef s).
Definition with_stlFile v (s : App) : App :=
  Build_App (activeTab s) (slicingParams s) (projectionParams s) (alignmentParams s)
    (fileName s) v (projectionImages s) (slicingStatus s) (slicingStats s) (isPrinting s)
    (isWaitingForHopTrigger s) (printMode s) (timePerFrame s) (isTestPrinting s)
    (isCalibrating s) (isSimulationMode s) (isConnected s) (writeCharacteristic s)
    (presentationConnectionRef s) (projectionWindowStatus s) (printProcessRef s)
    (testPrintIntervalRef s).
Definition with_projectionImages v (s : App) : App :=
  Build_App (activeTab s) (slicingParams s) (projectionParams s) (alignmentParams s)
    (fileName s) (stlFile s) v (slicingStatus s) (slicingStats s) (isPrinting s)
    (isWaitingForHopTrigger s) (printMode s) (timePerFrame s) (isTestPrinting s)
    (isCalibrating s) (isSimulationMode s) (isConnected s) (writeCharacteristic s)
    (presentationConnectionRef s) (projectionWindowStatus s) (printProcessRef s)
    (testPrintIntervalRef s).
Definition with_slicingStatus v (s : App) : App :=
  Build_App (activeTab s) (slicingParams s) (projectionParams s) (alignmentParams s)
    (fileName s) (stlFile s) (projectionImages s) v (slicingStats s) (isPrinting s)
    (isWaitingForHopTrigger s) (printMode s) (timePerFrame s) (isTestPrinting s)
    (isCalibrating s) (isSimulationMode s) (isConnected s) (writeCharacteristic s)
    (presentationConnectionRef s) (projectionWindowStatus s) (printProcessRef s)
    (testPrintIntervalRef s).
Definition with_slicingStats v (s : App) : App :=
  Build_App (activeTab s) (slicingParams s) (projectionParams s) (alignmentParams s)
    (fileName s) (stlFile s) (projectionImages s) (slicingStatus s) v (isPrinting s)
    (isWaitingForHopTrigger s) (printMode s) (timePerFrame s) (isTestPrinting s)
    (isCalibrating s) (isSimulationMode s) (isConnected s) (writeCharacteristic s)
    (presentationConnectionRef s) (projectionWindowStatus s) (printProcessRef s)
    (testPrintIntervalRef s).
Definition with_isPrinting v (s : App) : App :=
  Build_App (activeTab s) (slicingParams s) (projectionParams s) (alignmentParams s)
    (fileName s) (stlFile s) (projectionImages s) (slicingStatus s) (slicingStats s) v
    (isWaitingForHopTrigger s) (printMode s) (timePerFrame s) (isTestPrinting s)
    (isCalibrating s) (isSimulationMode s) (isConnected s) (writeCharacteristic s)
    (presentationConnectionRef s) (projectionWindowStatus s) (printProcessRef s)
    (testPrintIntervalRef s).
Definition with_isWaitingForHopTrigger v (s : App) : App :=
  Build_App (activeTab s) (slicingParams s) (projectionParams s) (alignmentParams s)
    (fileName s) (stlFile s) (projectionImages s) (slicingStatus s) (slicingStats s)
    (isPrinting s) v (printMode s) (timePerFrame s) (isTestPrinting s) (isCalibrating s)
    (isSimulationMode s) (isConnected s) (writeCharacteristic s)
    (presentationConnectionRef s) (projectionWindowStatus s) (printProcessRef s)
    (testPrintIntervalRef s).
Definition with_printMode v (s : App) : App :=
  Build_App (activeTab s) (slicingParams s) (projectionParams s) (alignmentParams s)
    (fileName s) (stlFile s) (projectionImages s) (slicingStatus s) (slicingStats s)
    (isPrinting s) (isWaitingForHopTrigger s) v (timePerFrame s) (isTestPrinting s)
    (isCalibrating s) (isSimulationMode s) (isConnected s) (writeCharacteristic s)
    (presentationConnectionRef s) (projectionWindowStatus s) (printProcessRef s)
    (testPrintIntervalRef s).
Definition with_timePerFrame v (s : App) : App :=
  Build_App (activeTab s) (slicingParams s) (projectionParams s) (alignmentParams s)
    (fileName s) (stlFile s) (projectionImages s) (slicingStatus s) (slicingStats s)
    (isPrinting s) (isWaitingForHopTrigger s) (printMode s) v (isTestPrinting s)
    (isCalibrating s) (isSimulationMode s) (isConnected s) (writeCharacteristic s)
    (presentationConnectionRef s) (projectionWindowStatus s) (printProcessRef s)
    (testPrintIntervalRef s).
Definition with_isTestPrinting v (s : App) : App :=
  Build_App (activeTab s) (slicingParams s) (projectionParams s) (alignmentParams s)
    (fileName s) (stlFile s) (projectionImages s) (slicingStatus s) (slicingStats s)
    (isPrinting s) (isWaitingForHopTrigger s) (printMode s) (timePerFrame s) v
    (isCalibrating s) (isSimulationMode s) (isConnected s) (writeCharacteristic s)
    (presentationConnectionRef s) (projectionWindowStatus s) (printProcessRef s)
    (testPrintIntervalRef s).
Definition with_isCalibrating v (s : App) : App :=
  Build_App (activeTab s) (slicingParams s) (projectionParams s) (alignmentParams s)
    (fileName s) (stlFile s) (projectionImages s) (slicingStatus s) (slicingStats s)
    (isPrinting s) (isWaitingForHopTrigger s) (printMode s) (timePerFrame s)
    (isTestPrinting s) v (isSimulationMode s) (isConnected s) (writeCharacteristic s)
    (presentationConnectionRef s) (projectionWindowStatus s) (printProcessRef s)
    (testPrintIntervalRef s).
Definition with_isSimulationMode v (s : App) : App :=
  Build_App (activeTab s) (slicingParams s) (projectionParams s) (alignmentParams s)
    (fileName s) (stlFile s) (projectionImages s) (slicingStatus s) (slicingStats s)
    (isPrinting s) (isWaitingForHopTrigger s) (printMode s) (timePerFrame s)
    (isTestPrinting s) (isCalibrating s) v (isConnected s) (writeCharacteristic s)
    (presentationConnectionRef s) (projectionWindowStatus s) (printProcessRef s)
    (testPrintIntervalRef s).
Definition with_isConnected v (s : App) : App :=
  Build_App (activeTab s) (slicingParams s) (projectionParams s) (alignmentParams s)
    (fileName s) (stlFile s) (projectionImages s) (slicingStatus s) (slicingStats s)
    (isPrinting s) (isWaitingForHopTrigger s) (printMode s) (timePerFrame s)
    (isTestPrinting s) (isCalibrating s) (isSimulationMode s) v (writeCharacteristic s)
    (presentationConnectionRef s) (projectionWindowStatus s) (printProcessRef s)
    (testPrintIntervalRef s).
Definition with_writeCharacteristic v (s : App) : App :=
  Build_App (activeTab s) (slicingParams s) (projectionParams s) (alignmentParams s)
    (fileName s) (stlFile s) (projectionImages s) (slicingStatus s) (slicingStats s)
    (isPrinting s) (isWaitingForHopTrigger s) (printMode s) (timePerFrame s)
    (isTestPrinting s) (isCalibrating s) (isSimulationMode s) (isConnected s) v
    (presentationConnectionRef s) (projectionWindowStatus s) (printProcessRef s)
    (testPrintIntervalRef s).
Definition with_presentationConnectionRef v (s : App) : App :=
  Build_App (activeTab s) (slicingParams s) (projectionParams s) (alignmentParams s)
    (fileName s) (stlFile s) (projectionImages s) (slicingStatus s) (slicingStats s)
    (isPrinting s) (isWaitingForHopTrigger s) (printMode s) (timePerFrame s)
    (isTestPrinting s) (isCalibrating s) (isSimulationMode s) (isConnected s)
    (writeCharacteristic s) v (projectionWindowStatus s) (printProcessRef s)
    (testPrintIntervalRef s).
Definition with_projectionWindowStatus v (s : App) : App :=
  Build_App (activeTab s) (slicingParams s) (projectionParams s) (alignmentParams s)
    (fileName s) (stlFile s) (projectionImages s) (slicingStatus s) (slicingStats s)
    (isPrinting s) (isWaitingForHopTrigger s) (printMode s) (timePerFrame s)
    (isTestPrinting s) (isCalibrating s) (isSimulationMode s) (isConnected s)
    (writeCharacteristic s) (presentationConnectionRef s) v (printProcessRef s)
    (testPrintIntervalRef s).
Definition with_printProcessRef v (s : App) : App :=
  Build_App (activeTab s) (slicingParams s) (projectionParams s) (alignmentParams s)
    (fileName s) (stlFile s) (projectionImages s) (slicingStatus s) (slicingStats s)
    (isPrinting s) (isWaitingForHopTrigger s) (printMode s) (timePerFrame s)
    (isTestPrinting s) (isCalibrating s) (isSimulationMode s) (isConnected s)
    (writeCharacteristic s) (presentationConnectionRef s) (projectionWindowStatus s) v
    (testPrintIntervalRef s).
Definition with_testPrintIntervalRef v (s : App) : App :=
  Build_App (activeTab s) (slicingParams s) (projectionParams s) (alignmentParams s)
    (fileName s) (stlFile s) (projectionImages s) (slicingStatus s) (slicingStats s)
    (isPrinting s) (isWaitingForHopTrigger s) (printMode s) (timePerFrame s)
    (isTestPrinting s) (isCalibrating s) (isSimulationMode s) (isConnected s)
    (writeCharacteristic s) (presentationConnectionRef s) (projectionWindowStatus s)
    (printProcessRef s) v.

Definition with_currentFrame v (p : PrintProcess) : PrintProcess :=
  {| currentFrame := v; intervalId := intervalId p; timeoutId := timeoutId p |}.
Definition with_intervalId v (p : PrintProcess) : PrintProcess :=
  {| currentFrame := currentFrame p; intervalId := v; timeoutId := timeoutId p |}.
Definition with_timeoutId v (p : PrintProcess) : PrintProcess :=
  {| currentFrame := currentFrame p; intervalId := intervalId p; timeoutId := v |}.
Definition with_translate (x y : Q) (a : AlignmentParams) : AlignmentParams :=
  {| scale := scale a; translateX := x; translateY := y; contrast := contrast a |}.

(** ** The job archive

    A zip archive is seen through the calls that the handlers make on it.
    The text of [settings.json] stands for what [JSON.parse] makes of it, an
    image entry's bytes for the base64 text that [async("base64")] reads
    from them. *)

Module Settings.
Record t := {
  slicingParams : SlicingParams;
  projectionParams : ProjectionParams;
  alignmentParams : AlignmentParams }.
End Settings.

(** The text of [settings.json]: not JSON at all, or a JSON object with the
    three records, each of the shape that the component keeps.  A text that
    parses and lacks a record hands [undefined] to a setter; the cells of
    [App] hold no such value, and such archives are outside the model. *)
Inductive SettingsText :=
| NotJson
| Json (settings : Settings.t).

(** An entry under a folder; [base64] is [None] when the entry's data cannot
    be read. *)
Record ZipEntry := {
  relativePath : string;
  dir : bool;
  base64 : option string }.

(** [settings_json] is the result of [zip.file("settings.json")];
    [projections] are the entries that [forEach] visits under
    [zip.folder("projections")], in its order.  [folder] never gives [null]:
    for an archive without that folder it makes one, and no entry is
    visited. *)
Record JSZip := {
  settings_json : option SettingsText;
  projections : list ZipEntry }.

(** A file picked by the user; [zip] is [None] when [JSZip.loadAsync]
    rejects it. *)
Record File := {
  name : string;
  zip : option JSZip }.

(** ** The browser around the component *)

(** Messages of the projection channel, as passed to [JSON.stringify].  The
    image of [UPDATE_IMAGE] is the result of an array lookup, which is
    [undefined] ([None]) out of range. *)
Inductive ChannelMessage :=
| UPDATE_IMAGE (imageUrl : option string)
| CLEAR_IMAGE
| TOGGLE_CALIBRATION (show : bool)
| UPDATE_ALIGNMENT (params : AlignmentParams).

Inductive Effect :=
| WriteValue (c : BluetoothRemoteGATTCharacteristic) (buffer : list Q)
| Send (connection : nat) (message : ChannelMessage)
| Terminate (connection : nat)
| SaveAs (zipBlob : JSZip) (zipFileName : string)
| ToastError (message : string)
| ToastSuccess (message : string)
| ToastInfo (message : string).

(** What a pending timer runs.  Each callback is a closure: it keeps the
    render [r] in which it was created, and the variables local to it
    ([totalFrames] of the simulated print, [currentFrame] of the test
    playback). *)
Inductive Callback :=
| RunSimulationStep (r : App) (totalFrames : nat)
| TestPrintFrame (r : App) (currentFrame : nat).

Record Timer := {
  timerId : nat;
  repeats : bool;
  delay : Q;
  callback : Callback }.

Record World := {
  app : App;
  timers : list Timer;
  nextTimerId : nat }.

Definition initialWorld : World :=
  {| app := initialApp; timers := []; nextTimerId := 1 |}.

(** ** The handler monad: live state, an exception or a value, and a trace *)

Inductive Result (A : Type) :=
| Ok (a : A)
| Throw (message : string).
Arguments Ok {A} a.
Arguments Throw {A} message.

Definition M (A : Type) : Type := World -> Result A * World * list Effect.

Definition ret {A} (a : A) : M A := fun w => (Ok a, w, []).

Definition bind {A B} (m : M A) (k : A -> M B) : M B :=
  fun w =>
    match m w with
    | (Ok a, w1, t1) =>
        match k a w1 with
        | (res, w2, t2) => (res, w2, t1 ++ t2)
        end
    | (Throw e, w1, t1) => (Throw e, w1, t1)
    end.

Declare Scope js_scope.
Delimit Scope js_scope with js.
Notation "x <- m ;; k" := (bind m (fun x => k))
  (at level 61, m at next level, right associativity) : js_scope.
Notation "m ;; k" := (bind m (fun _ => k))
  (at level 61, right associativity) : js_scope.
Local Open Scope js_scope.

Definition throw {A} (e : string) : M A := fun w => (Throw e, w, []).

(** [try { body } catch (error) { handler error }]: what [body] did before
    it threw is kept. *)
Definition try_catch {A} (body : M A) (handler : string -> M A) : M A :=
  fun w =>
    match body w with
    | (Ok a, w1, t1) => (Ok a, w1, t1)
    | (Throw e, w1, t1) =>
        match handler e w1 with
        | (res, w2, t2) => (res, w2, t1 ++ t2)
        end
    end.

Definition emit (e : Effect) : M unit := fun w => (Ok tt, w, [e]).

Definition getApp : M App := fun w => (Ok (app w), w, []).

Definition modifyApp (f : App -> App) : M unit :=
  fun w => (Ok tt, {| app := f (app w); timers := timers w;
                      nextTimerId := nextTimerId w |}, []).

Definition when (b : bool) (m : M unit) : M unit := if b then m else ret tt.

(** *** State setters and ref assignments *)

Definition setSlicingParams v := modifyApp (with_slicingParams v).
Definition setProjectionParams v := modifyApp (with_projectionParams v).
Definition setAlignmentParams (f : AlignmentParams -> AlignmentParams) :=
  modifyApp (fun s => with_alignmentParams (f (alignmentParams s)) s).
Definition setProjectionImages v := modifyApp (with_projectionImages v).
Definition setFileName v := modifyApp (with_fileName v).
Definition setStlFile v := modifyApp (with_stlFile v).
Definition setSlicingStatus v := modifyApp (with_slicingStatus v).
Definition setSlicingStats v := modifyApp (with_slicingStats v).
Definition setActiveTab v := modifyApp (with_activeTab v).
Definition setIsPrinting v := modifyApp (with_isPrinting v).
Definition setIsWaitingForHopTrigger v := modifyApp (with_isWaitingForHopTrigger v).
Definition setIsTestPrinting v := modifyApp (with_isTestPrinting v).
Definition setIsCalibrating v := modifyApp (with_isCalibrating v).
Definition setIsConnected v := modifyApp (with_isConnected v).
Definition setWriteCharacteristic v := modifyApp (with_writeCharacteristic v).
Definition setProjectionWindowStatus v := modifyApp (with_projectionWindowStatus v).

Definition assignPresentationConnection v :=
  modifyApp (with_presentationConnectionRef v).
Definition assignTestPrintInterval v := modifyApp (with_testPrintIntervalRef v).
Definition assignCurrentFrame v :=
  modifyApp (fun s => with_printProcessRef (with_currentFrame v (printProcessRef s)) s).
Definition assignIntervalId v :=
  modifyApp (fun s => with_printProcessRef (with_intervalId v (printProcessRef s)) s).
Definition assignTimeoutId v :=
  modifyApp (fun s => with_printProcessRef (with_timeoutId v (printProcessRef s)) s).

(** *** Timers of [window] *)

(** [clearTimeout(id)] and [clearInterval(id)] share one table of ids. *)
Definition clearTimer (id : nat) : M unit :=
  fun w => (Ok tt,
            {| app := app w;
               timers := filter (fun t => negb (timerId t =? id)) (timers w);
               nextTimerId := nextTimerId w |}, []).

Definition addTimer (rep : bool) (cb : Callback) (ms : Q) : M nat :=
  fun w =>
    let id := nextTimerId w in
    (Ok id,
     {| app := app w;
        timers := timers w ++
          [{| timerId := id; repeats := rep; delay := ms; callback := cb |}];
        nextTimerId := S id |}, []).

Definition setTimeout := addTimer false.
Definition setInterval := addTimer true.

(** A timer id is a number; in a condition, [null] and [0] are false. *)
Definition truthy (id : option nat) : bool :=
  match id with
  | Some (S _) => true
  | _ => false
  end.

Definition idOf (id : option nat) : nat :=
  match id with Some n => n | None => 0 end.

(** [presentationConnectionRef.current?.state === 'connected'] *)
Definition isConnectedState (c : option PresentationConnection) : bool :=
  match c with
  | Some {| state := connected |} => true
  | _ => false
  end.

(** [connection.send(JSON.stringify(m))]: the browser takes a message only
    on a connection in the state [connected], and throws on any other. *)
Definition send (c : PresentationConnection) (m : ChannelMessage) : M unit :=
  match state c with
  | connected => emit (Send (connectionId c) m)
  | _ => throw "InvalidStateError"
  end.


(** ** Test playback and calibration *)

Definition stopTestPrint : M unit :=
  a <- getApp ;;
  when (truthy (testPrintIntervalRef a))
    (clearTimer (idOf (testPrintIntervalRef a)) ;;
     assignTestPrintInterval None) ;;
  a <- getApp ;;
  match presentationConnectionRef a with
  | Some c =>
      match state c with
      | connected => send c CLEAR_IMAGE
      | _ => ret tt
      end
  | None => ret tt
  end ;;
  setIsTestPrinting false.

(** The callback given to [setInterval] by [handleTestPrint]; [currentFrame]
    is its local counter, and the result is the counter's new value. *)
Definition testPrintFrame (r : App) (currentFrame : nat) : M nat :=
  a <- getApp ;;
  if isConnectedState (presentationConnectionRef a) then
    let imageUrl := nth_error (projectionImages r) currentFrame in
    match presentationConnectionRef a with
    | Some c => send c (UPDATE_IMAGE imageUrl)
    | None => ret tt
    end ;;
    ret ((currentFrame + 1) mod List.length (projectionImages r))
  else
    stopTestPrint ;;
    ret currentFrame.

Definition handleTestPrint (r : App) : M unit :=
  if isTestPrinting r then stopTestPrint
  else if List.length (projectionImages r) =? 0 then
    emit (ToastError "Please slice a model first to generate images.")
  else
    a <- getApp ;;
    if negb (isConnectedState (presentationConnectionRef a)) then
      emit (ToastError
        "Please connect to the second monitor from the 'Advanced' tab first.")
    else
      when (isCalibrating r) (setIsCalibrating false) ;;
      setIsTestPrinting true ;;
      let currentFrame := 0 in
      let frameDuration :=
        match printMode r with
        | time_per_frame => timePerFrame r
        | _ => 33%Q
        end in
      id <- setInterval (TestPrintFrame r currentFrame) frameDuration ;;
      assignTestPrintInterval (Some id).

Definition handleCalibration (r : App) : M unit :=
  a <- getApp ;;
  if negb (isConnectedState (presentationConnectionRef a)) then
    emit (ToastError "Please connect to the second monitor first.")
  else
    when (isTestPrinting r) stopTestPrint ;;
    let newCalibrationState := negb (isCalibrating r) in
    setIsCalibrating newCalibrationState ;;
    a <- getApp ;;
    match presentationConnectionRef a with
    | Some c => send c (TOGGLE_CALIBRATION newCalibrationState)
    | None => throw "TypeError: presentationConnectionRef.current is null"
    end.

(** ** The device command *)

Definition degreesPerStep : Q := 0.1125.

Definition Qgtb (x y : Q) : bool := negb (Qle_bool x y).

Definition tomographicDelayMs (p : ProjectionParams) : Q :=
  if Qgtb (rotationSpeed p) 0
  then (degreesPerStep / rotationSpeed p) * 1000
  else 0.

(** [x || 0] on a number *)
Definition orZero (x : Q) : Q := if Qeq_bool x 0 then 0%Q else x.

Definition pauseInSeconds (p : ProjectionParams) : Q :=
  orZero (pauseAfterRotation p) / 1000.

(** The [Float32Array(6)] filled by [handlePrint]. *)
Definition printCommand (p : ProjectionParams) : list Q :=
  [ totalRotation p;
    tomographicDelayMs p;
    pauseInSeconds p;
    verticalSteps p;
    verticalDelay p;
    verticalDirection p ].

(** [new Float32Array(6).fill(0)] *)
Definition stopCommand : list Q := repeat 0%Q 6.

(** The size in bytes of the [ArrayBuffer] under a 32-bit float array. *)
Definition byteLength (buffer : list Q) : nat := 4 * List.length buffer.

(** ** The numbers of the machine

    A [number] is a binary64 float and an element of a [Float32Array] a
    32-bit float: the result of an operation is the exact result rounded to
    the nearest number of the format, to the one with an even significand
    when two are as near.  The numbers below the normal range are spaced as
    the least normal ones; a result beyond the greatest finite number is not
    modelled. *)

(** The integer [e] with [2^e <= x < 2^(e+1)], for a positive [x]. *)
Definition ilog2 (x : Q) : Z :=
  let e := (Z.log2 (Qnum x) - Z.log2 (Zpos (Qden x)))%Z in
  if Qle_bool (2 ^ e) x then e else (e - 1)%Z.

(** The integer nearest to [m], the even one of two that are as near. *)
Definition rne (m : Q) : Z :=
  let k := Qfloor m in
  match (m - inject_Z k ?= 1 # 2)%Q with
  | Lt => k
  | Gt => (k + 1)%Z
  | Eq => if Z.even k then k else (k + 1)%Z
  end.

(** A positive [x] in a format with [prec] bits of significand and the least
    normal exponent [emin]. *)
Definition roundPositive (prec emin : Z) (x : Q) : Q :=
  let ulp := (2 ^ (Z.max (ilog2 x) emin - prec + 1))%Q in
  Qred (inject_Z (rne (x / ulp)) * ulp).

Definition roundTo (prec emin : Z) (x : Q) : Q :=
  match (Qnum x ?= 0)%Z with
  | Eq => 0%Q
  | Gt => roundPositive prec emin x
  | Lt => (- roundPositive prec emin (- x))%Q
  end.

Definition binary64 : Q -> Q := roundTo 53 (-1022).

Definition float32 : Q -> Q := roundTo 24 (-126).

(** The command of [handlePrint] with the rounding of each operation and of
    the store into the [Float32Array]. *)
Module IEEE.

Definition degreesPerStep : Q := binary64 0.1125.

Definition tomographicDelayMs (p : ProjectionParams) : Q :=
  if Qgtb (rotationSpeed p) 0
  then binary64 (binary64 (degreesPerStep / rotationSpeed p) * 1000)
  else 0.

Definition pauseInSeconds (p : ProjectionParams) : Q :=
  binary64 (orZero (pauseAfterRotation p) / 1000).

Definition printCommand (p : ProjectionParams) : list Q :=
  map float32
    [ totalRotation p;
      tomographicDelayMs p;
      pauseInSeconds p;
      verticalSteps p;
      verticalDelay p;
      verticalDirection p ].

End IEEE.

(** ** Stopping a print *)

Definition stopPrint (r : App) : M unit :=
  a <- getApp ;;
  when (truthy (intervalId (printProcessRef a)))
    (clearTimer (idOf (intervalId (printProcessRef a))) ;;
     assignIntervalId None) ;;
  a <- getApp ;;
  when (truthy (timeoutId (printProcessRef a)))
    (clearTimer (idOf (timeoutId (printProcessRef a))) ;;
     assignTimeoutId None) ;;
  setIsPrinting false ;;
  setIsWaitingForHopTrigger false ;;
  match writeCharacteristic r with
  | Some c => when (negb (isSimulationMode r)) (emit (WriteValue c stopCommand))
  | None => ret tt
  end ;;
  a <- getApp ;;
  match presentationConnectionRef a with
  | Some c => send c CLEAR_IMAGE
  | None => ret tt
  end.

(** The [.catch] of the stop command's write, run when the write is
    rejected. *)
Definition stopWriteRejected : M unit :=
  emit (ToastError "Failed to send stop command.").

Definition handleESP32Notification (r : App) : M unit :=
  match printMode r with
  | hops => when (isPrinting r && isWaitingForHopTrigger r)
                 (setIsWaitingForHopTrigger false)
  | _ => ret tt
  end.

(** ** The device link *)

(** The listener that [handlePair], called in render [r], adds for
    [gattserverdisconnected]. *)
Definition gattserverdisconnected (r : App) : M unit :=
  setIsConnected false ;;
  setWriteCharacteristic None ;;
  emit (ToastInfo "Bluetooth device disconnected.") ;;
  stopPrint r.

(** [handlePair] awaits the browser several times; [answer] is what the
    browser gave in the end: the write characteristic, or the error that was
    thrown on the way. *)
Definition handlePair (r : App)
    (answer : BluetoothRemoteGATTCharacteristic + string) : M unit :=
  try_catch
    (match answer with
     | inl writeChar =>
         setWriteCharacteristic (Some writeChar) ;;
         setIsConnected true ;;
         emit (ToastSuccess "Bluetooth device connected!")
     | inr e => throw e
     end)
    (fun e => emit (ToastError e)).

(** ** The projection window *)

(** [closeHandler] of [setupConnection connection], created under
    [openProjectionWindow] in render [r]. *)
Definition closeHandler (r : App) (connection : nat) : M unit :=
  setProjectionWindowStatus Disconnected ;;
  a <- getApp ;;
  match presentationConnectionRef a with
  | Some c => when (connectionId c =? connection)
                   (assignPresentationConnection None)
  | None => ret tt
  end ;;
  stopPrint r ;;
  stopTestPrint ;;
  setIsCalibrating false.

Definition setupConnection (connection : PresentationConnection) : M unit :=
  assignPresentationConnection (Some connection) ;;
  setProjectionWindowStatus Connected ;;
  emit (ToastSuccess "Projection window connected.").

(** [openProjectionWindow] up to [request.start()]; the connection arrives
    later through [setupConnection], a failure through [startRejected]. *)
Definition openProjectionWindow : M unit :=
  a <- getApp ;;
  match presentationConnectionRef a with
  | Some {| connectionId := c; state := connected |} => emit (Terminate c)
  | _ => setProjectionWindowStatus Connecting
  end.

Definition startRejected (notAllowed : bool) (message : string) : M unit :=
  if negb notAllowed then
    setProjectionWindowStatus (WindowError message) ;;
    emit (ToastError "Failed to open projection window.")
  else
    setProjectionWindowStatus Disconnected.

(** The effect on [alignmentParams]: every change is sent to the window. *)
Definition alignmentEffect (r : App) : M unit :=
  a <- getApp ;;
  match presentationConnectionRef a with
  | Some c =>
      match state c with
      | connected => send c (UPDATE_ALIGNMENT (alignmentParams r))
      | _ => ret tt
      end
  | None => ret tt
  end.

(** ** Printing *)

(** The delay that [runSimulationStep] gives to [setTimeout]. *)
Definition simulationDelay (r : App) (totalFrames : nat) : Q :=
  let delay := 100%Q in
  match printMode r with
  | time_per_frame => timePerFrame r
  | velocity =>
      let degreesPerFrame :=
        (totalRotation (projectionParams r) / inject_Z (Z.of_nat totalFrames))%Q in
      ((degreesPerFrame / rotationSpeed (projectionParams r)) * 1000)%Q
  | hops =>
      let degreesPerFrame :=
        (totalRotation (projectionParams r) / inject_Z (Z.of_nat totalFrames))%Q in
      ((degreesPerFrame / rotationSpeed (projectionParams r)) * 1000)%Q
  end.

Definition runSimulationStep (r : App) (totalFrames : nat) : M unit :=
  a <- getApp ;;
  if totalFrames <=? currentFrame (printProcessRef a) then stopPrint r
  else
    let imageUrl :=
      nth_error (projectionImages r) (currentFrame (printProcessRef a)) in
    match presentationConnectionRef a with
    | Some c => send c (UPDATE_IMAGE imageUrl)
    | None => ret tt
    end ;;
    assignCurrentFrame (S (currentFrame (printProcessRef a))) ;;
    id <- setTimeout (RunSimulationStep r totalFrames)
                     (simulationDelay r totalFrames) ;;
    assignTimeoutId (Some id).

(** [await writeCharacteristic.writeValue(buffer)]: [rejected] is the error
    of a rejected write. *)
Definition writeValue (c : BluetoothRemoteGATTCharacteristic)
    (buffer : list Q) (rejected : option string) : M unit :=
  emit (WriteValue c buffer) ;;
  match rejected with
  | None => ret tt
  | Some e => throw e
  end.

Definition handlePrint (r : App) (rejected : option string) : M unit :=
  if isPrinting r then stopPrint r
  else if isSimulationMode r then
    a <- getApp ;;
    if negb (isConnectedState (presentationConnectionRef a)) then
      emit (ToastError "Connect to second monitor for simulation.")
    else
      setIsPrinting true ;;
      assignCurrentFrame 0 ;;
      let totalFrames := List.length (projectionImages r) in
      runSimulationStep r totalFrames
  else
    match writeCharacteristic r with
    | None => emit (ToastError "BLE device is not connected.")
    | Some c =>
        setIsPrinting true ;;
        let command := printCommand (projectionParams r) in
        try_catch
          (writeValue c command rejected)
          (fun e =>
             emit (ToastError ("Failed to send command: " ++ e)%string) ;;
             setIsPrinting false)
    end.

(** The [catch] of [handlePrint] when the device rejects the command after
    the turn of the click is over.  No record is kept of the writes under
    way: the rejection can come in any turn. *)
Definition printWriteRejected (message : string) : M unit :=
  emit (ToastError ("Failed to send command: " ++ message)%string) ;;
  setIsPrinting false.

Definition isSome {A} (o : option A) : bool :=
  match o with Some _ => true | None => false end.

(** ** Strings of the archive *)

(** [c.toLowerCase()] on the letters of ASCII *)
Definition lowerAscii (c : ascii) : ascii :=
  let n := nat_of_ascii c in
  if (65 <=? n) && (n <=? 90) then ascii_of_nat (n + 32) else c.

Fixpoint toLowerCase (s : string) : string :=
  match s with
  | EmptyString => EmptyString
  | String c s' => String (lowerAscii c) (toLowerCase s')
  end.

(** [s.endsWith(suffix)] *)
Definition endsWith (s suffix : string) : bool :=
  let n := String.length s in
  let k := String.length suffix in
  (k <=? n) && String.eqb (substring (n - k) k s) suffix.

(** The part of [s] before its first comma, and what follows that comma. *)
Fixpoint cutAtComma (s : string) : string * option string :=
  match s with
  | EmptyString => (EmptyString, None)
  | String c s' =>
      if Ascii.eqb c ","%char then (EmptyString, Some s')
      else let (h, t) := cutAtComma s' in (String c h, t)
  end.

(** [s.split(',')[1]]: the second piece, [undefined] ([None]) when [s] has no
    comma. *)
Definition splitComma1 (s : string) : option string :=
  match snd (cutAtComma s) with
  | Some rest => Some (fst (cutAtComma rest))
  | None => None
  end.

(** [String(i)] for an array index *)
Definition String_of_index (i : N) : string :=
  NilZero.string_of_uint (N.to_uint i).

Fixpoint repeatChar (c : ascii) (n : nat) : string :=
  match n with
  | O => EmptyString
  | S n' => String c (repeatChar c n')
  end.

(** [s.padStart(targetLength, c)]: [s] itself when it is long enough. *)
Definition padStart (targetLength : nat) (c : ascii) (s : string) : string :=
  (repeatChar c (targetLength - String.length s) ++ s)%string.

(** [s.replace(/<suffix>$/i, replacement)] for a literal [suffix] *)
Definition replaceSuffix (suffix replacement s : string) : string :=
  if endsWith (toLowerCase s) suffix
  then (substring 0 (String.length s - String.length suffix) s ++ replacement)%string
  else s.

(** ** Base64, as the zip library reads and writes it ([base64.js]) *)

Definition keyStr : string :=
  "ABCDEFGHIJKLMNOPQRSTUVWXYZabcdefghijklmnopqrstuvwxyz0123456789+/=".

Fixpoint indexOfFrom (c : ascii) (s : string) (i : N) : option N :=
  match s with
  | EmptyString => None
  | String c' s' => if Ascii.eqb c c' then Some i else indexOfFrom c s' (i + 1)%N
  end.

(** [keyStr.indexOf(c)], [None] for [-1] *)
Definition keyIndex (c : ascii) : option N := indexOfFrom c keyStr 0%N.

(** [keyStr.charAt(e)] *)
Definition keyChar (e : N) : string :=
  match String.get (N.to_nat e) keyStr with
  | Some c => String c EmptyString
  | None => EmptyString
  end.

(** [input.replace(/[^A-Za-z0-9+\/=]/g, '')], as the indices in [keyStr] of
    the characters that are left: the pattern keeps the characters of
    [keyStr] and no other. *)
Fixpoint stripped (input : string) : list N :=
  match input with
  | EmptyString => []
  | String c input' =>
      match keyIndex c with
      | Some enc => enc :: stripped input'
      | None => stripped input'
      end
  end.

(** The bytes that the loop of [decode] writes, in the order of
    [resultIndex]. *)
Fixpoint decodedGroups (encs : list N) : list N :=
  match encs with
  | enc1 :: enc2 :: enc3 :: enc4 :: rest =>
      let chr1 := N.lor (N.shiftl enc1 2) (N.shiftr enc2 4) in
      let chr2 := N.lor (N.shiftl (N.land enc2 15) 4) (N.shiftr enc3 2) in
      let chr3 := N.lor (N.shiftl (N.land enc3 3) 6) enc4 in
      (chr1
       :: (if (enc3 =? 64)%N then [] else [chr2])
       ++ (if (enc4 =? 64)%N then [] else [chr3]))
      ++ decodedGroups rest
  | _ => []
  end.

Definition isPad (enc : option N) : bool :=
  match enc with
  | Some 64%N => true
  | _ => false
  end.

(** [decode(input)]: [None] when it throws.  The output is a [Uint8Array] of
    [totalLength] elements: an element holds a value modulo 256, is zero
    until it is written, and a write past the end is dropped. *)
Definition decode (input : string) : option (list N) :=
  if String.prefix "data:" input then None
  else
    let encs := stripped input in
    let length := N.of_nat (List.length encs) in
    if negb (length mod 4 =? 0)%N then None
    else
      let totalLength :=
        (length * 3 / 4
         - (if isPad (nth_error (rev encs) 0) then 1 else 0)
         - (if isPad (nth_error (rev encs) 1) then 1 else 0))%N in
      Some (firstn (N.to_nat totalLength)
              (map (fun chr => (chr mod 256)%N) (decodedGroups encs)
               ++ repeat 0%N (N.to_nat totalLength))).

Definition encodeGroup (chr1 chr2 chr3 : N) (remainingBytes : nat) : string :=
  let enc1 := N.shiftr chr1 2 in
  let enc2 := N.lor (N.shiftl (N.land chr1 3) 4) (N.shiftr chr2 4) in
  let enc3 := if 1 <? remainingBytes
              then N.lor (N.shiftl (N.land chr2 15) 2) (N.shiftr chr3 6)
              else 64%N in
  let enc4 := if 2 <? remainingBytes then N.land chr3 63 else 64%N in
  (keyChar enc1 ++ keyChar enc2 ++ keyChar enc3 ++ keyChar enc4)%string.

(** [encode(input)] on the bytes of an entry *)
Fixpoint encode (input : list N) : string :=
  match input with
  | [] => EmptyString
  | [chr1] => encodeGroup chr1 0 0 1
  | [chr1; chr2] => encodeGroup chr1 chr2 0 2
  | chr1 :: chr2 :: chr3 :: rest =>
      (encodeGroup chr1 chr2 chr3 3 ++ encode rest)%string
  end.

(** What [async("base64")] reads from an entry that was written by
    [file(name, data, { base64: true })]: an entry written without data, or
    with the empty text, is empty; other data are decoded when the archive is
    generated, and the entry cannot be read ([None]) when they cannot be
    decoded. *)
Definition storedBase64 (data : option string) : option string :=
  match data with
  | None => Some EmptyString
  | Some EmptyString => Some EmptyString
  | Some data => option_map encode (decode data)
  end.

(** ** Export and import of a job *)

Definition sliceName (i : N) : string :=
  ("slice_" ++ padStart 4 "0"%char (String_of_index i) ++ ".png")%string.
Arguments sliceName : simpl never.

(** The entries that the loop of [handleExportJob] writes for the images from
    index [i] on. *)
Fixpoint exportEntries (i : N) (images : list string) : list ZipEntry :=
  match images with
  | [] => []
  | image :: rest =>
      let base64Data := splitComma1 image in
      let fileName := sliceName i in
      {| relativePath := fileName;
         dir := false;
         base64 := storedBase64 base64Data |}
      :: exportEntries (i + 1)%N rest
  end.

Definition exportZip (r : App) : JSZip :=
  let settings :=
    {| Settings.slicingParams := slicingParams r;
       Settings.projectionParams := projectionParams r;
       Settings.alignmentParams := alignmentParams r |} in
  {| settings_json := Some (Json settings);
     projections := exportEntries 0%N (projectionImages r) |}.

(** [(fileName || 'model').replace(/\.stl$/i, '') + '.zip']: the empty name
    counts as none. *)
Definition exportFileName (r : App) : string :=
  (replaceSuffix ".stl" ""
     (match fileName r with
      | Some EmptyString | None => "model"
      | Some n => n
      end) ++ ".zip")%string.

(** [zip.generateAsync({ type: "blob" })]: rejected when the data of an entry
    could not be decoded. *)
Definition generateAsync (z : JSZip) : M JSZip :=
  if forallb (fun e => isSome (base64 e)) (projections z)
  then ret z
  else throw "Invalid base64 input".

Definition isComplete (s : SlicingStatus) : bool :=
  match s with complete => true | _ => false end.

Definition handleExportJob (r : App) : M unit :=
  if negb (isComplete (slicingStatus r)) || (List.length (projectionImages r) =? 0)
  then emit (ToastError "Please slice a model successfully before exporting.")
  else
    try_catch
      (zipBlob <- generateAsync (exportZip r) ;;
       emit (SaveAs zipBlob (exportFileName r)) ;;
       emit (ToastSuccess "Job exported successfully!"))
      (fun _ => emit (ToastError "Failed to export job.")).

(** An image as loaded from the archive: [{ name, data }]. *)
Record LoadedImage := {
  image_name : string;
  image_data : string }.

(** [a.name.localeCompare(b.name) <= 0], by code units: on the names that
    export writes the two orders agree.  On other names the order of the
    locale can be another, as for letters of both cases; of the order of
    such names nothing is stated. *)
Definition nameLe (a b : LoadedImage) : bool :=
  match String.compare (image_name a) (image_name b) with
  | Gt => false
  | _ => true
  end.

(** [loadedImages.sort(...)]: a stable sort. *)
Fixpoint insertImage (x : LoadedImage) (l : list LoadedImage) : list LoadedImage :=
  match l with
  | [] => [x]
  | y :: l' => if nameLe x y then x :: l else y :: insertImage x l'
  end.

Definition sortImages (l : list LoadedImage) : list LoadedImage :=
  fold_right insertImage [] l.

Definition isPngEntry (e : ZipEntry) : bool :=
  negb (dir e) && endsWith (toLowerCase (relativePath e)) ".png".

(** [await Promise.all(imagePromises)]: rejected when one entry cannot be
    read. *)
Fixpoint promiseAll (entries : list ZipEntry) : M (list LoadedImage) :=
  match entries with
  | [] => ret []
  | e :: rest =>
      match base64 e with
      | Some data =>
          images <- promiseAll rest ;;
          ret ({| image_name := relativePath e;
                  image_data := ("data:image/png;base64," ++ data)%string |} :: images)
      | None => throw ("Corrupted zip entry: " ++ relativePath e)%string
      end
  end.

Definition importBody (file : File) : M unit :=
  zip <- match zip file with
         | Some z => ret z
         | None => throw "Can't find end of central directory"
         end ;;
  settingsFile <- match settings_json zip with
                  | Some f => ret f
                  | None => throw "settings.json not found in zip file."
                  end ;;
  settings <- match settingsFile with
              | Json s => ret s
              | NotJson => throw "SyntaxError: JSON.parse"
              end ;;
  setSlicingParams (Settings.slicingParams settings) ;;
  setProjectionParams (Settings.projectionParams settings) ;;
  setAlignmentParams (fun _ => Settings.alignmentParams settings) ;;
  let projectionsFolder := projections zip in
  loadedImages <- promiseAll (filter isPngEntry projectionsFolder) ;;
  let loadedImages := sortImages loadedImages in
  setProjectionImages (map image_data loadedImages) ;;
  setFileName (Some (replaceSuffix ".zip" ".stl" (name file))) ;;
  setStlFile None ;;
  setSlicingStatus complete ;;
  setSlicingStats {| count := Some (List.length loadedImages); time := Some 0%Q |} ;;
  setActiveTab Projecting ;;
  emit (ToastSuccess "Job imported successfully!").

(** [handleImportJob]; [file] is [event.target.files?.[0]].  The result tells
    whether the import failed: [Some] of the error that was caught. *)
Definition handleImportJob (file : option File) : M (option string) :=
  match file with
  | None => ret None
  | Some file =>
      try_catch
        (importBody file ;; ret None)
        (fun e =>
           emit (ToastError ("Import failed: " ++ e)%string) ;;
           ret (Some e))
  end.

(** The render that follows the three setters of the import runs the effect
    on [alignmentParams]: it comes once the settings were read, whether the
    import then succeeds or fails. *)
Definition importEffect (file : option File) : M unit :=
  match file with
  | Some {| zip := Some {| settings_json := Some (Json _) |} |} =>
      a <- getApp ;;
      alignmentEffect a
  | _ => ret tt
  end.

(** ** The calibration offset kept in [localStorage] *)

#[local] Unset Elimination Schemes.
Inductive JsonValue :=
| JNull
| JBool (b : bool)
| JNumber (n : Q)
| JString (s : string)
| JArray (items : list JsonValue)
| JObject (properties : list (string * JsonValue)).
#[local] Set Elimination Schemes.

(** [value[key]]: reading a property of [null] throws; a value that is not an
    object with that property gives [undefined] ([None]).  An object holds
    each key once, as [JSON.parse] leaves it. *)
Fixpoint lookupProperty (key : string) (properties : list (string * JsonValue))
  : option JsonValue :=
  match properties with
  | [] => None
  | (k, v) :: rest => if String.eqb k key then Some v else lookupProperty key rest
  end.

Definition getProperty (value : JsonValue) (key : string) : M (option JsonValue) :=
  match value with
  | JNull => throw "TypeError: Cannot read properties of null"
  | JObject properties => ret (lookupProperty key properties)
  | _ => ret None
  end.

(** [typeof v === 'number'] *)
Definition isNumber (v : option JsonValue) : bool :=
  match v with
  | Some (JNumber _) => true
  | _ => false
  end.

Definition numberOf (v : option JsonValue) : Q :=
  match v with
  | Some (JNumber n) => n
  | _ => 0%Q
  end.

(** What [localStorage.getItem] does: it throws when the storage cannot be
    used, else it gives the stored text or [null]. *)
Inductive StorageRead :=
| StorageThrows (message : string)
| StorageItem (value : option string).

Section CalibrationOffset.

(** [JSON.parse], [None] when it throws. *)
Variable JSON_parse : string -> option JsonValue.

(** The effect that [App] runs once after its first render. *)
Definition loadCalibrationOffset (getItem : StorageRead) : M unit :=
  try_catch
    (savedOffsetJSON <- match getItem with
                        | StorageThrows e => throw e
                        | StorageItem v => ret v
                        end ;;
     match savedOffsetJSON with
     | Some (String c s) =>
         savedOffset <- match JSON_parse (String c s) with
                        | Some v => ret v
                        | None => throw "SyntaxError: JSON.parse"
                        end ;;
         x <- getProperty savedOffset "x" ;;
         if isNumber x then
           y <- getProperty savedOffset "y" ;;
           if isNumber y then
             setAlignmentParams (with_translate (numberOf x) (numberOf y))
           else ret tt
         else ret tt
     | _ => ret tt
     end)
    (fun _ => ret tt).

End CalibrationOffset.

(** ** Slicing, as far as it produces the image set *)

Definition processFile (fileName : string) : M unit :=
  if endsWith (toLowerCase fileName) ".stl" then
    setFileName (Some fileName) ;;
    setStlFile (Some fileName)
  else
    emit (ToastError "Please select a valid .stl file.") ;;
    setFileName None ;;
    setStlFile None.

(** [handleSlice] up to the request. *)
Definition handleSlice (r : App) : M unit :=
  match stlFile r with
  | None => emit (ToastError "Please upload an STL file first.")
  | Some _ =>
      setSlicingStatus slicing ;;
      setSlicingStats {| time := None; count := None |} ;;
      setProjectionImages []
  end.

(** The progress message with [status === 'complete']. *)
Definition sliceComplete (images : list string) (duration : Q) : M unit :=
  let imagesWithPrefix :=
    map (fun base64 => ("data:image/png;base64," ++ base64)%string) images in
  setProjectionImages imagesWithPrefix ;;
  setSlicingStatus complete ;;
  setSlicingStats {| time := Some duration;
                     count := Some (List.length imagesWithPrefix) |} ;;
  emit (ToastSuccess "Slicing completed successfully!").

Definition sliceFailed (message : string) : M unit :=
  setSlicingStatus failed ;;
  emit (ToastError ("Slicing failed: " ++ message)%string).

(** ** The event loop *)

(** What can happen to the component: the user's actions on the controls that
    [App] renders, and the callbacks that the browser runs.  A callback that
    was registered in an earlier render carries that render.
    [ChangeAlignmentParams] stands for every change of the alignment but that
    of an import (the sliders, the arrow keys during calibration, the drag of
    the image in the preview, the reset and the load of the stored offset),
    together with the effect that follows the change.  The [rejected] of
    [ClickPrint] is the error of a write that the device rejects before
    another event comes; a rejection that comes later is
    [PrintWriteRejected].  Actions that only change cells left out of [App]
    (the admin flag, the hop settings, the progress display) have no
    event. *)
Inductive Event :=
| SelectFile (fileName : string)
| ClickSlice
| SliceCompleted (images : list string) (duration : Q)
| SliceFailed (message : string)
| ClickExportJob
| ChooseImportFile (file : option File)
| ClickPair (answer : BluetoothRemoteGATTCharacteristic + string)
| ClickTestPrint
| ClickPrint (rejected : option string)
| ChangePrintMode (mode : PrintMode)
| ChangeTimePerFrame (ms : Q)
| ChangeProjectionParams (p : ProjectionParams)
| ChangeSimulationMode (checked : bool)
| ChangeSlicingParams (p : SlicingParams)
| ChangeAlignmentParams (a : AlignmentParams)
| ClickOpenProjectionWindow
| ClickCalibration
| ConnectionAvailable (connection : PresentationConnection)
| ConnectionStateChange (newState : ConnectionState)
| ConnectionClosed (r : App) (connection : nat)
| StartRejected (notAllowed : bool) (message : string)
| GattServerDisconnected (r : App)
| CharacteristicValueChanged (r : App)
| StopWriteRejected
| PrintWriteRejected (message : string)
| TimerFired (n : nat).

Definition isConnectedStatus (s : WindowStatus) : bool :=
  match s with Connected => true | _ => false end.

Definition isConnectingStatus (s : WindowStatus) : bool :=
  match s with Connecting => true | _ => false end.

Definition isSlicing (s : SlicingStatus) : bool :=
  match s with slicing => true | _ => false end.

Definition hasSlices (a : App) : bool :=
  negb (List.length (projectionImages a) =? 0).

(** A control can be used when its [disabled] attribute is false. *)
Definition enabled (a : App) (e : Event) : bool :=
  match e with
  | ClickSlice => negb (negb (isSome (fileName a)) || isSlicing (slicingStatus a))
  | ClickExportJob => isComplete (slicingStatus a)
  | ClickPair _ => negb (isSimulationMode a)
  | ClickTestPrint =>
      negb (negb (isConnectedStatus (projectionWindowStatus a))
            || negb (hasSlices a) || isPrinting a)
  | ClickPrint _ =>
      negb ((negb (isConnected a) && negb (isSimulationMode a))
            || isTestPrinting a || negb (hasSlices a))
  | ClickOpenProjectionWindow => negb (isConnectingStatus (projectionWindowStatus a))
  | ClickCalibration => isConnectedStatus (projectionWindowStatus a)
  | _ => true
  end.

Definition removeTimer (id : nat) : M unit := clearTimer id.

(** After an interval's callback has run, its closure holds the new value of
    its local counter, if the interval is still there. *)
Definition updateCallback (id : nat) (cb : Callback) : M unit :=
  fun w =>
    (Ok tt,
     {| app := app w;
        timers := map (fun t => if timerId t =? id
                                then {| timerId := timerId t; repeats := repeats t;
                                        delay := delay t; callback := cb |}
                                else t) (timers w);
        nextTimerId := nextTimerId w |}, []).

Definition runTimer (t : Timer) : M unit :=
  when (negb (repeats t)) (removeTimer (timerId t)) ;;
  match callback t with
  | RunSimulationStep r totalFrames => runSimulationStep r totalFrames
  | TestPrintFrame r currentFrame =>
      currentFrame' <- testPrintFrame r currentFrame ;;
      updateCallback (timerId t) (TestPrintFrame r currentFrame')
  end.

(** The [n]-th pending timer (from the oldest) fires. *)
Definition fireTimer (n : nat) : M unit :=
  fun w =>
    match nth_error (timers w) n with
    | Some t => runTimer t w
    | None => (Ok tt, w, [])
    end.

(** The browser changes the [state] of the connection that the ref holds. *)
Definition connectionStateChange (s : ConnectionState) : M unit :=
  a <- getApp ;;
  match presentationConnectionRef a with
  | Some c =>
      assignPresentationConnection
        (Some {| connectionId := connectionId c; state := s |})
  | None => ret tt
  end.

(** The handler of an event, in the render [r] that is on screen. *)
Definition handle (r : App) (e : Event) : M unit :=
  match e with
  | SelectFile f => processFile f
  | ClickSlice => handleSlice r
  | SliceCompleted images duration => sliceComplete images duration
  | SliceFailed message => sliceFailed message
  | ClickExportJob => handleExportJob r
  | ChooseImportFile file => handleImportJob file ;; importEffect file
  | ClickPair answer => handlePair r answer
  | ClickTestPrint => handleTestPrint r
  | ClickPrint rejected => if isPrinting r then stopPrint r else handlePrint r rejected
  | ChangePrintMode mode => modifyApp (with_printMode mode)
  | ChangeTimePerFrame ms => modifyApp (with_timePerFrame ms)
  | ChangeProjectionParams p => setProjectionParams p
  | ChangeSimulationMode checked => modifyApp (with_isSimulationMode checked)
  | ChangeSlicingParams p => setSlicingParams p
  | ChangeAlignmentParams a =>
      setAlignmentParams (fun _ => a) ;;
      alignmentEffect (with_alignmentParams a r)
  | ClickOpenProjectionWindow => openProjectionWindow
  | ClickCalibration => handleCalibration r
  | ConnectionAvailable connection => setupConnection connection
  | ConnectionStateChange s => connectionStateChange s
  | ConnectionClosed r' connection => closeHandler r' connection
  | StartRejected notAllowed message => startRejected notAllowed message
  | GattServerDisconnected r' => gattserverdisconnected r'
  | CharacteristicValueChanged r' => handleESP32Notification r'
  | StopWriteRejected => stopWriteRejected
  | PrintWriteRejected message => printWriteRejected message
  | TimerFired n => fireTimer n
  end.

(** One turn of the event loop.  An exception that no handler catches ends
    the turn; what was done before it stays. *)
Definition step (w : World) (e : Event) : option (World * list Effect) :=
  if enabled (app w) e
  then match handle (app w) e w with
       | (_, w', trace) => Some (w', trace)
       end
  else None.

Inductive reachable : World -> Prop :=
| reachable_initial : reachable initialWorld
| reachable_step w e w' trace :
    reachable w -> step w e = Some (w', trace) -> reachable w'.

(** The world and the trace after a list of events, [None] when one of them
    was not enabled. *)
Fixpoint run (w : World) (events : list Event) : option (World * list Effect) :=
  match events with
  | [] => Some (w, [])
  | e :: rest =>
      match step w e with
      | Some (w1, t1) =>
          match run w1 rest with
          | Some (w2, t2) => Some (w2, t1 ++ t2)
          | None => None
          end
      | None => None
      end
  end.


(** ** The arrow keys during calibration *)

Record KeyboardEvent := {
  key : string;
  shiftKey : bool;
  ctrlKey : bool;
  metaKey : bool }.

(** [e.shiftKey ? 10 : (e.ctrlKey || e.metaKey ? 0.1 : 1)] *)
Definition keyStep (e : KeyboardEvent) : Q :=
  if shiftKey e then 10%Q
  else if ctrlKey e || metaKey e then binary64 0.1
  else 1%Q.

(** The update that [handleKeyDown] gives to [setAlignmentParams]. *)
Definition nudge (e : KeyboardEvent) (prev : AlignmentParams) : AlignmentParams :=
  let step := keyStep e in
  if String.eqb (key e) "ArrowUp" then
    with_translate (translateX prev) (binary64 (translateY prev - step)) prev
  else if String.eqb (key e) "ArrowDown" then
    with_translate (translateX prev) (binary64 (translateY prev + step)) prev
  else if String.eqb (key e) "ArrowLeft" then
    with_translate (binary64 (translateX prev - step)) (translateY prev) prev
  else if String.eqb (key e) "ArrowRight" then
    with_translate (binary64 (translateX prev + step)) (translateY prev) prev
  else prev.

(** The [keydown] listener of the render [r]; what [e.preventDefault()] does
    to the page is left out. *)
Definition handleKeyDown (r : App) (e : KeyboardEvent) : M unit :=
  if negb (isCalibrating r) then ret tt
  else setAlignmentParams (nudge e).

(** ** Saving and resetting the calibration offset

    The item of [localStorage] under the key of the offset is passed in and
    returned: [None] when there is none. *)

Section OffsetStorage.

(** [JSON.stringify], and the text of a number in a template. *)
Variable JSON_stringify : JsonValue -> string.
Variable String_of_number : Q -> string.

(** [setItem] is the error that [localStorage.setItem] throws, if it does. *)
Definition handleSaveOffset (r : App) (setItem : option string)
    (item : option string) : M (option string) :=
  try_catch
    (let x := translateX (alignmentParams r) in
     let y := translateY (alignmentParams r) in
     let offset := JObject [("x", JNumber x); ("y", JNumber y)] in
     item' <- match setItem with
              | None => ret (Some (JSON_stringify offset))
              | Some e => throw e
              end ;;
     emit (ToastSuccess ("Offset saved: X=" ++ String_of_number x
                         ++ ", Y=" ++ String_of_number y)%string) ;;
     ret item')
    (fun _ =>
       emit (ToastError "Could not save the offset.") ;;
       ret item).

(** [removeItem] is the error that [localStorage.removeItem] throws, if it
    does. *)
Definition handleResetOffset (removeItem : option string)
    (item : option string) : M (option string) :=
  try_catch
    (item' <- match removeItem with
              | None => ret None
              | Some e => throw e
              end ;;
     setAlignmentParams (with_translate 0 0) ;;
     emit (ToastSuccess "Offset has been reset.") ;;
     ret item')
    (fun _ =>
       emit (ToastError "Could not reset the offset.") ;;
       ret item).

End OffsetStorage.

(** ** The preview of the slices ([SlicePreview]) *)

Module SlicePreview.

(** The state cells and refs of the component.  An index is a JavaScript
    number that holds an integer; [%] is the remainder that takes the sign of
    the dividend ([Z.rem]).  The component renders its buttons and its image
    only when there are images: the remainder by the length and the division
    by the scale factor stand for the code when these are not zero. *)
Record State := {
  previewIndex : Z;
  isPlaying : bool;
  isDragging : bool;
  dragStartPos : Q * Q;
  initialTranslate : Q * Q }.

Definition initial : State :=
  {| previewIndex := 0; isPlaying := true; isDragging := false;
     dragStartPos := (0, 0)%Q; initialTranslate := (0, 0)%Q |}.

Definition with_previewIndex (v : Z) (s : State) : State :=
  {| previewIndex := v; isPlaying := isPlaying s; isDragging := isDragging s;
     dragStartPos := dragStartPos s; initialTranslate := initialTranslate s |}.

Definition with_isPlaying (v : bool) (s : State) : State :=
  {| previewIndex := previewIndex s; isPlaying := v; isDragging := isDragging s;
     dragStartPos := dragStartPos s; initialTranslate := initialTranslate s |}.

Definition with_isDragging (v : bool) (s : State) : State :=
  {| previewIndex := previewIndex s; isPlaying := isPlaying s; isDragging := v;
     dragStartPos := dragStartPos s; initialTranslate := initialTranslate s |}.

Definition lengthOf (images : list string) : Z := Z.of_nat (List.length images).

(** [Math.max(a, b)] *)
Definition max (a b : Q) : Q := if Qle_bool a b then b else a.

(** The period of the interval of the animation. *)
Definition frameIntervalMs (images : list string) (p : ProjectionParams) : Q :=
  let totalRotationTimeMs := binary64 (binary64 (360 / rotationSpeed p) * 1000) in
  max 16 (binary64 (totalRotationTimeMs / inject_Z (lengthOf images))).

(** The effect runs an interval when there are images and the animation
    plays. *)
Definition animates (images : list string) (s : State) : bool :=
  negb (lengthOf images =? 0)%Z && isPlaying s.

(** The callback of the interval. *)
Definition tick (images : list string) (s : State) : State :=
  with_previewIndex (Z.rem (previewIndex s + 1) (lengthOf images)) s.

Definition handlePrev (images : list string) (s : State) : State :=
  with_previewIndex
    (Z.rem (previewIndex s - 1 + lengthOf images) (lengthOf images))
    (with_isPlaying false s).

Definition handleNext (images : list string) (s : State) : State :=
  with_previewIndex (Z.rem (previewIndex s + 1) (lengthOf images))
    (with_isPlaying false s).

(** [alignment] is the [alignmentParams] prop of the render. *)
Definition handleDragStart (alignment : AlignmentParams) (clientX clientY : Q)
    (s : State) : State :=
  {| previewIndex := previewIndex s; isPlaying := isPlaying s; isDragging := true;
     dragStartPos := (clientX, clientY);
     initialTranslate := (translateX alignment, translateY alignment) |}.

Definition handleDragMove (alignment : AlignmentParams) (clientX clientY : Q)
    (s : State) : M unit :=
  if negb (isDragging s) then ret tt
  else
    let dx := (clientX - fst (dragStartPos s))%Q in
    let dy := (clientY - snd (dragStartPos s))%Q in
    let scaleFactor := (scale alignment / 100)%Q in
    setAlignmentParams
      (fun prev =>
         with_translate (fst (initialTranslate s) + dx / scaleFactor)%Q
                        (snd (initialTranslate s) + dy / scaleFactor)%Q prev).

Definition handleDragEnd (s : State) : State := with_isDragging false s.

(** [images[previewIndex]], the source of the image shown. *)
Definition shown (images : list string) (s : State) : option string :=
  if (previewIndex s <? 0)%Z then None
  else nth_error images (Z.to_nat (previewIndex s)).

(** The style of the image: the numbers of
    [scale(s) translateX(x px) translateY(y px)] and of [brightness(b%)]. *)
Record Style := {
  scaleBy : Q;
  translateXpx : Q;
  translateYpx : Q;
  brightness : Q }.

Definition style (alignment : AlignmentParams) : Style :=
  {| scaleBy := scale alignment / 100;
     translateXpx := translateX alignment;
     translateYpx := translateY alignment;
     brightness := contrast alignment |}.

End SlicePreview.

(** ** The projection window ([ProjectionView])

    The text of a message stands for what [JSON.parse] and the reads of
    [data.type] make of it. *)

Module ProjectionView.

(** The CSS text [scale(s) translateX(x px) translateY(y px)], by its three
    numbers. *)
Record Transform := {
  scaleBy : Q;
  translateXpx : Q;
  translateYpx : Q }.

(** The state cells; [filter] is the percentage of [contrast(...)]. *)
Record State := {
  imageUrl : option string;
  transform : Transform;
  filter : Q;
  showCalibration : bool }.

Definition initial : State :=
  {| imageUrl := None;
     transform := {| scaleBy := 1; translateXpx := 0; translateYpx := 0 |};
     filter := 100;
     showCalibration := false |}.

Inductive Data :=
| NotJson
| OtherType
| Message (m : ChannelMessage).

(** [connection.onmessage]; an exception is caught and logged. *)
Definition onmessage (data : Data) (s : State) : State :=
  match data with
  | Message (UPDATE_IMAGE url) =>
      {| imageUrl := url; transform := transform s; filter := filter s;
         showCalibration := false |}
  | Message CLEAR_IMAGE =>
      {| imageUrl := None; transform := transform s; filter := filter s;
         showCalibration := false |}
  | Message (TOGGLE_CALIBRATION show) =>
      {| imageUrl := imageUrl s; transform := transform s; filter := filter s;
         showCalibration := show |}
  | Message (UPDATE_ALIGNMENT params) =>
      {| imageUrl := imageUrl s;
         transform := {| scaleBy := scale params / 100;
                         translateXpx := translateX params;
                         translateYpx := translateY params |};
         filter := contrast params;
         showCalibration := showCalibration s |}
  | NotJson | OtherType => s
  end.

(** [connection.onclose] *)
Definition onclose (s : State) : State :=
  {| imageUrl := None; transform := transform s; filter := filter s;
     showCalibration := false |}.

(** What the window shows. *)
Inductive Display :=
| Crosshair
| Image (src : string)
| Waiting.

Definition display (s : State) : Display :=
  if showCalibration s then Crosshair
  else match imageUrl s with
       | Some (String c url) => Image (String c url)
       | _ => Waiting
       end.

End ProjectionView.

(** ** The device service ([bleService.ts]) *)

Module BLEService.

(** The fields of the service; a device, a server and a characteristic are
    objects of the browser, known by their identity. *)
Record t := {
  device : option nat;
  server : option nat;
  characteristic : option nat }.

Definition empty : t :=
  {| device := None; server := None; characteristic := None |}.

(** What the browser answers to the calls of [connect], up to the first that
    fails. *)
Inductive Answer :=
| NoBluetooth
| RequestDeviceRejected (e : string)
| NoDevice
| NoGatt (d : nat)
| GattConnectRejected (d : nat) (e : string)
| GetServiceRejected (d s : nat) (e : string)
| GetCharacteristicRejected (d s : nat) (e : string)
| NoCharacteristic (d s : nat)
| Connected (d s c : nat).

Definition connect (answer : Answer) (b : t) : Result nat * t :=
  match answer with
  | NoBluetooth =>
      (Throw "Web Bluetooth API is not available in this browser.", b)
  | RequestDeviceRejected e => (Throw e, b)
  | NoDevice =>
      (Throw "No device selected.",
       {| device := None; server := server b; characteristic := characteristic b |})
  | NoGatt d =>
      (Throw "Failed to connect to GATT server.",
       {| device := Some d; server := None; characteristic := characteristic b |})
  | GattConnectRejected d e =>
      (Throw e,
       {| device := Some d; server := server b; characteristic := characteristic b |})
  | GetServiceRejected d s e =>
      (Throw e,
       {| device := Some d; server := Some s; characteristic := characteristic b |})
  | GetCharacteristicRejected d s e =>
      (Throw e,
       {| device := Some d; server := Some s; characteristic := characteristic b |})
  | NoCharacteristic d s =>
      (Throw "Characteristic not found.",
       {| device := Some d; server := Some s; characteristic := None |})
  | Connected d s c =>
      (Ok c, {| device := Some d; server := Some s; characteristic := Some c |})
  end.

(** [writeData]; [rejected] is the error of a rejected write.  The result
    comes with the writes that reached a characteristic. *)
Definition writeData (data : list Q) (rejected : option string) (b : t)
  : Result unit * list (nat * list Q) :=
  match characteristic b with
  | None => (Throw "Not connected to any characteristic.", [])
  | Some c =>
      match rejected with
      | None => (Ok tt, [(c, data)])
      | Some e => (Throw e, [(c, data)])
      end
  end.

(** [disconnect]: the server that is told to disconnect, if there is one,
    and the service after it. *)
Definition disconnect (b : t) : option nat * t := (server b, empty).

End BLEService.

(** * The vocabulary of the properties *)

(** ** Outcomes and traces *)

Definition resultOf {A} (x : Result A * World * list Effect) : Result A :=
  fst (fst x).
Definition worldAfter {A} (x : Result A * World * list Effect) : World :=
  snd (fst x).
Definition traceOf {A} (x : Result A * World * list Effect) : list Effect :=
  snd x.

(** The buffers written to the device in a trace. *)
Fixpoint writes (t : list Effect) : list (list Q) :=
  match t with
  | [] => []
  | WriteValue _ buffer :: rest => buffer :: writes rest
  | _ :: rest => writes rest
  end.

(** The messages sent on the projection channel in a trace. *)
Fixpoint messages (t : list Effect) : list ChannelMessage :=
  match t with
  | [] => []
  | Send _ m :: rest => m :: messages rest
  | _ :: rest => messages rest
  end.



(** The world that a run of events ends in. *)
Definition worldOf (x : option (World * list Effect)) : World :=
  match x with
  | Some (w, _) => w
  | None => initialWorld
  end.

(** ** The device command and the stop path *)

(** The second element of the print command, as the array holds it. *)
Definition encodedDelay (p : ProjectionParams) : Q :=
  nth 1 (IEEE.printCommand p) 0%Q.


(** The message that [stopPrint] sends without a look at the state of the
    connection is taken: the ref holds no connection, or one that is
    [connected]. *)
Definition sendable (a : App) : bool :=
  match presentationConnectionRef a with
  | Some c => isConnectedState (Some c)
  | None => true
  end.

(** The result of a call whose one failure is that send. *)
Definition sendResult (a : App) : Result unit :=
  if sendable a then Ok tt else Throw "InvalidStateError".


(** The world once the disconnect listener has dropped the link, before it
    stops the print. *)
Definition linkDropped (w : World) : World :=
  {| app := with_writeCharacteristic None (with_isConnected false (app w));
     timers := timers w;
     nextTimerId := nextTimerId w |}.

(** ** Handlers that respect a relation between worlds *)

(** [respects R G m]: from any world, [m] leads to a world related to it by
    [R], whether it returns or throws, and every effect of its trace
    satisfies [G]. *)
Definition respects (R : World -> World -> Prop) (G : Effect -> Prop)
    {A} (m : M A) : Prop :=
  forall w, R w (worldAfter (m w)) /\ Forall G (traceOf (m w)).

Definition anyEffect (e : Effect) : Prop := True.

(** ** The frame loops *)

(** What the closure of a pending timer must satisfy: a step of the
    simulated print holds the length of the images it shows, the counter of
    the test playback is an index of the images it shows. *)
Definition timerOk (t : Timer) : Prop :=
  match callback t with
  | RunSimulationStep r totalFrames =>
      totalFrames = List.length (projectionImages r)
  | TestPrintFrame r currentFrame =>
      currentFrame < List.length (projectionImages r)
  end.

(** An [UPDATE_IMAGE] carries the image found by an array lookup; the lookup
    was in range when it found one. *)
Definition imageInRange (e : Effect) : Prop :=
  match e with
  | Send _ (UPDATE_IMAGE imageUrl) => imageUrl <> None
  | _ => True
  end.

(** If the pending timers were well formed, they still are. *)
Definition keepsTimers (w w' : World) : Prop :=
  Forall timerOk (timers w) -> Forall timerOk (timers w').

(** A computation is [safe] when it keeps every pending timer well formed
    and looks up images only in range. *)
Abbreviation safe := (respects keepsTimers imageInRange).

(** ** Sessions *)

(** Test playback and calibration are not both active, and neither are a
    print and test playback. *)
Definition exclusive (a : App) : Prop :=
  isTestPrinting a && isCalibrating a = false /\
  isPrinting a && isTestPrinting a = false.

(** No session is active after that was not active before. *)
Definition lowers (w w' : World) : Prop :=
  (isPrinting (app w') = true -> isPrinting (app w) = true) /\
  (isTestPrinting (app w') = true -> isTestPrinting (app w) = true) /\
  (isCalibrating (app w') = true -> isCalibrating (app w) = true).

(** Test playback and calibration are as they were. *)
Definition keepsTestAndCalibration (w w' : World) : Prop :=
  isTestPrinting (app w') = isTestPrinting (app w) /\
  isCalibrating (app w') = isCalibrating (app w).

Abbreviation calm := (respects lowers anyEffect).
Abbreviation besidePrint := (respects keepsTestAndCalibration anyEffect).

(** The events that can start a session. *)
Definition startsSession (e : Event) : bool :=
  match e with
  | ClickPrint _ | ClickTestPrint | ClickCalibration => true
  | _ => false
  end.

(** ** The calibration offset *)

(** The value is a record that holds a number under [key]. *)
Definition holdsNumber (key : string) (v : JsonValue) : Prop :=
  exists properties n, v = JObject properties /\ In (key, JNumber n) properties.

(** Nothing is stored that could be loaded: the storage cannot be read, or
    holds no item or the empty text, or holds a text that does not parse or
    whose value lacks a number under [x] or under [y]. *)
Definition nothingToLoad (JSON_parse : string -> option JsonValue)
    (getItem : StorageRead) : Prop :=
  match getItem with
  | StorageThrows _ => True
  | StorageItem None => True
  | StorageItem (Some text) =>
      text = EmptyString \/
      match JSON_parse text with
      | None => True
      | Some v => ~ holdsNumber "x" v \/ ~ holdsNumber "y" v
      end
  end.

(** A parser that gives [v] for every text. *)
Definition parsesTo (v : JsonValue) : string -> option JsonValue :=
  fun _ => Some v.

(** A record with the offset (5, -3) and a field that is none of the
    offset's. *)
Definition storedRecord : JsonValue :=
  JObject [("x"%string, JNumber 5); ("scale"%string, JNumber 2);
           ("y"%string, JNumber (-3))].

(** ** The job archive *)

(** The settings of an archive that the import can read. *)
Definition readableSettings (file : File) : option Settings.t :=
  match zip file with
  | Some z =>
      match settings_json z with
      | Some (Json settings) => Some settings
      | _ => None
      end
  | None => None
  end.

(** The component with the three parameter records of [settings]. *)
Definition withSettings (settings : Settings.t) (a : App) : App :=
  with_alignmentParams (Settings.alignmentParams settings)
    (with_projectionParams (Settings.projectionParams settings)
       (with_slicingParams (Settings.slicingParams settings) a)).

(** The file that [handleExportJob] saves in render [r]. *)
Definition exportedFile (r : App) : File :=
  {| name := exportFileName r; zip := Some (exportZip r) |}.

(** *** Bytes and their base64 text *)

Definition byteRange : list N := map N.of_nat (seq 0 256).

Definition isByte (b : N) : Prop := (b < 256)%N.

(** The four indices that [encodeGroup] makes of three bytes. *)
Definition enc1 (chr1 : N) : N := N.shiftr chr1 2.

Definition enc2 (chr1 chr2 : N) : N :=
  N.lor (N.shiftl (N.land chr1 3) 4) (N.shiftr chr2 4).

Definition enc3 (chr2 chr3 : N) : N :=
  N.lor (N.shiftl (N.land chr2 15) 2) (N.shiftr chr3 6).

Definition enc4 (chr3 : N) : N := N.land chr3 63.

(** A character of [keyStr] stands at one index, and none is a colon or a
    comma. *)
Definition keyOk (e : N) : bool :=
  match keyChar e with
  | String c EmptyString =>
      match keyIndex c with
      | Some e' => (e' =? e)%N
      | None => false
      end
      && negb (Ascii.eqb c ":") && negb (Ascii.eqb c ",")
  | _ => false
  end.

(** What the bit operations of the two loops do to bytes, checked on every
    byte. *)
Definition groupOk (a b : N) : bool :=
  (N.lor (N.shiftl (enc1 a) 2) (N.shiftr (enc2 a b) 4) =? a)%N
  && (N.land (enc2 a b) 15 =? N.shiftr b 4)%N
  && (N.shiftr (enc3 a b) 2 =? N.land a 15)%N
  && (N.lor (N.shiftl (N.shiftr a 4) 4) (N.land a 15) =? a)%N
  && (N.land (enc3 a b) 3 =? N.shiftr b 6)%N
  && (N.lor (N.shiftl (N.shiftr a 6) 6) (enc4 a) =? a)%N
  && (enc1 a <? 64)%N && (enc2 a b <? 64)%N && (enc3 a b <? 64)%N
  && (enc4 a <? 64)%N.

(** The indices of the text that [encode] makes. *)
Fixpoint sextets (input : list N) : list N :=
  match input with
  | [] => []
  | [a] => [enc1 a; enc2 a 0; 64; 64]%N
  | [a; b] => [enc1 a; enc2 a b; enc3 b 0; 64]%N
  | a :: b :: c :: rest => [enc1 a; enc2 a b; enc3 b c; enc4 c] ++ sextets rest
  end.

(** The length that [decode] gives to its output. *)
Definition totalLength (encs : list N) : N :=
  (N.of_nat (List.length encs) * 3 / 4
   - (if isPad (nth_error (rev encs) 0) then 1 else 0)
   - (if isPad (nth_error (rev encs) 1) then 1 else 0))%N.

Fixpoint noComma (s : string) : bool :=
  match s with
  | EmptyString => true
  | String c s' => negb (Ascii.eqb c ",") && noComma s'
  end.

(** An image as slicing and import make it: the data URL of a PNG file, that
    is the prefix and the base64 text of the bytes of the file. *)
Definition isPngDataUrl (image : string) : Prop :=
  exists bytes,
    Forall isByte bytes /\
    image = ("data:image/png;base64," ++ encode bytes)%string.

(** The data of the image can be decoded when the archive is generated. *)
Definition decodable (image : string) : bool :=
  isSome (storedBase64 (splitComma1 image)).

(** The indices that four digits can write: 0 to 9999. *)
Definition fourDigitNames : N := 10000.

(** The name with index [i] does not come after the next name. *)
Definition nameBeforeNext (i : N) : bool :=
  match String.compare (sliceName i) (sliceName (i + 1)) with
  | Gt => false
  | _ => true
  end.

(** The [count] names from index [i] on end in [.png] and ascend. *)
Fixpoint namesInOrder (i : N) (count : nat) : bool :=
  match count with
  | O => true
  | S count' =>
      endsWith (toLowerCase (sliceName i)) ".png" &&
      (match count' with O => true | S _ => nameBeforeNext i end) &&
      namesInOrder (i + 1) count'
  end.

(** The images that import loads from the entries of export. *)
Fixpoint loadedFrom (i : N) (images : list string) : list LoadedImage :=
  match images with
  | [] => []
  | image :: rest =>
      {| image_name := sliceName i; image_data := image |}
      :: loadedFrom (i + 1) rest
  end.

(** ** Worlds and inputs of the examples *)

(** The component with a paired device. *)
Definition pairedApp : App :=
  with_writeCharacteristic (Some 7) (with_isConnected true initialApp).

Definition pairedWorld : World :=
  {| app := pairedApp; timers := []; nextTimerId := 1 |}.



(** A print is active on the paired device. *)
Definition printingWorld : World :=
  {| app := with_isPrinting true pairedApp; timers := []; nextTimerId := 1 |}.

Definition withSpeed (s : Q) : ProjectionParams :=
  {| totalRotation := 360; rotationSpeed := s; pauseAfterRotation := 0;
     verticalSteps := 0; verticalDelay := 1000; verticalDirection := 1 |}.

(** 120 images, with the initial parameters: velocity mode, 30 degrees per
    second, 360 degrees. *)
Definition scenarioApp : App :=
  with_projectionImages (repeat "data:image/png;base64,AAAA"%string 120) initialApp.

Definition twoImages : list string := ["AAAA"; "BBBB"]%string.

(** A model is sliced into two images, the projection window is opened, and
    a simulated print is started. *)
Definition simulatedPrintEvents : list Event :=
  [ SelectFile "part.stl"; ClickSlice; SliceCompleted twoImages 1;
    ClickOpenProjectionWindow;
    ConnectionAvailable {| connectionId := 1; state := connecting |};
    ConnectionStateChange connected;
    ChangeSimulationMode true;
    ClickPrint None ].

Definition simulatedPrintWorld : World :=
  worldOf (run initialWorld simulatedPrintEvents).

Definition otherSettings : Settings.t :=
  {| Settings.slicingParams :=
       {| voxelSize := 0.5; numProjections := 90; rotX := 0; rotY := 90; rotZ := 0 |};
     Settings.projectionParams :=
       {| totalRotation := 180; rotationSpeed := 60; pauseAfterRotation := 500;
          verticalSteps := 10; verticalDelay := 2000; verticalDirection := 0 |};
     Settings.alignmentParams :=
       {| scale := 150; translateX := 5; translateY := -3; contrast := 120 |} |}.


(** An archive with its settings and an image that cannot be read. *)
Definition archiveWithUnreadableImage : File :=
  {| name := "job.zip";
     zip := Some {| settings_json := Some (Json otherSettings);
                    projections :=
                           [ {| relativePath := "slice_0000.png";
                                dir := false;
                                base64 := None |} ] |} |}.

(** Base64 text for the image with index [i]. *)
Definition payload (i : N) : string := padStart 8 "A"%char (String_of_index i).

Definition imageData (i : N) : string :=
  ("data:image/png;base64," ++ payload i)%string.

(** [count] images, with the indices from [i] on. *)
Fixpoint imagesFrom (i : N) (count : nat) : list string :=
  match count with
  | O => []
  | S count' => imageData i :: imagesFrom (i + 1)%N count'
  end.

(** The component after a model has been sliced into [n] images. *)
Definition slicedApp (n : nat) : App :=
  with_slicingStatus complete
    (with_projectionImages (imagesFrom 0%N n) initialApp).

Definition tenThousandAndOne : nat := N.to_nat (fourDigitNames + 1).

(** ** The course of a simulated print and of a test playback *)

(** The timer that a step of the simulated print started in render [r]
    leaves behind. *)
Definition simulationTimer (r : App) (id : nat) : Timer :=
  {| timerId := id;
     repeats := false;
     delay := simulationDelay r (List.length (projectionImages r));
     callback := RunSimulationStep r (List.length (projectionImages r)) |}.

(** The world when the simulated print that was started in [w] has shown
    the frames up to index [j] and waits for the next step. *)
Definition simulating (w : World) (j : nat) : World :=
  {| app :=
       with_printProcessRef
         {| currentFrame := S j;
            intervalId := intervalId (printProcessRef (app w));
            timeoutId := Some (nextTimerId w + j) |}
         (with_isPrinting true (app w));
     timers := [simulationTimer (app w) (nextTimerId w + j)];
     nextTimerId := S (nextTimerId w + j) |}.

(** The world when that print has shown all its frames and stopped. *)
Definition simulationDone (w : World) : World :=
  {| app :=
       with_printProcessRef
         {| currentFrame := List.length (projectionImages (app w));
            intervalId :=
              if truthy (intervalId (printProcessRef (app w))) then None
              else intervalId (printProcessRef (app w));
            timeoutId := None |}
         (with_isWaitingForHopTrigger false (with_isPrinting false (app w)));
     timers := [];
     nextTimerId := nextTimerId w + List.length (projectionImages (app w)) |}.

(** [33] ms, or [timePerFrame] in time-per-frame mode. *)
Definition frameDuration (r : App) : Q :=
  match printMode r with
  | time_per_frame => timePerFrame r
  | _ => 33%Q
  end.

(** The world when the test playback that was started in [w] is about to
    show the frame with index [f]. *)
Definition playing (w : World) (f : nat) : World :=
  {| app :=
       with_testPrintIntervalRef (Some (nextTimerId w))
         (with_isTestPrinting true (with_isCalibrating false (app w)));
     timers := [ {| timerId := nextTimerId w;
                    repeats := true;
                    delay := frameDuration (app w);
                    callback := TestPrintFrame (app w) f |} ];
     nextTimerId := S (nextTimerId w) |}.

(** The component can start a session on the projection window: the window
    is connected on connection [c], there are images, and no timer is
    pending. *)
Definition readyToProject (w : World) (c : nat) : Prop :=
  presentationConnectionRef (app w)
  = Some {| connectionId := c; state := connected |} /\
  projectionWindowStatus (app w) = Connected /\
  projectionImages (app w) <> [] /\
  isPrinting (app w) = false /\
  isTestPrinting (app w) = false /\
  timers w = [] /\
  1 <= nextTimerId w.

(** The frames of [images], as messages. *)
Definition frames (images : list string) : list ChannelMessage :=
  map (fun image => UPDATE_IMAGE (Some image)) images.

(** The component in simulation mode, with two images and the projection
    window connected. *)
Definition projectingWorld : World :=
  worldOf (run initialWorld
             [ SelectFile "part.stl"; ClickSlice; SliceCompleted twoImages 1;
               ClickOpenProjectionWindow;
               ConnectionAvailable {| connectionId := 1; state := connecting |};
               ConnectionStateChange connected;
               ChangeSimulationMode true ]).

(** The world when the test playback that was started in [w] has been
    stopped by a second click. *)
Definition playbackStopped (w : World) : World :=
  {| app :=
       with_testPrintIntervalRef None
         (with_isTestPrinting false (with_isCalibrating false (app w)));
     timers := [];
     nextTimerId := S (nextTimerId w) |}.

(** Why a click on Print cannot start a print: in simulation mode the
    projection window is not connected; outside it there is no
    characteristic, or the write of the command is rejected. *)
Definition cannotStart (a : App) (rejected : option string) : Prop :=
  if isSimulationMode a
  then isConnectedState (presentationConnectionRef a) = false
  else writeCharacteristic a = None \/ rejected <> None.

(** The zero command that [stopPrint] writes in render [r]. *)
Definition stopWrites (r : App) : list (list Q) :=
  match writeCharacteristic r with
  | Some _ => if isSimulationMode r then [] else [stopCommand]
  | None => []
  end.

(** A toast of an error is in the trace. *)
Definition toastsError (t : list Effect) : Prop :=
  exists message, In (ToastError message) t.

(** A print is running on the paired device, with the projection window
    connected on connection 1. *)
Definition devicePrintWorld : World :=
  worldOf (run initialWorld
             [ SelectFile "part.stl"; ClickSlice; SliceCompleted twoImages 1;
               ClickOpenProjectionWindow;
               ConnectionAvailable {| connectionId := 1; state := connecting |};
               ConnectionStateChange connected;
               ClickPair (inl 7);
               ClickPrint None ]).

(** The rejection of a print command that comes after the turn of its
    click. *)
Definition isLateRejection (e : Event) : bool :=
  match e with
  | PrintWriteRejected _ => true
  | _ => false
  end.

(** A print on the device is started and stopped, then a simulated print is
    started, and then the device rejects the command of the first print. *)
Definition lateRejectionWorld : World :=
  worldOf (run initialWorld
             [ SelectFile "part.stl"; ClickSlice; SliceCompleted twoImages 1;
               ClickOpenProjectionWindow;
               ConnectionAvailable {| connectionId := 1; state := connecting |};
               ConnectionStateChange connected;
               ClickPair (inl 7);
               ClickPrint None;
               ClickPrint None;
               ChangeSimulationMode true;
               ClickPrint None;
               PrintWriteRejected "GATT operation failed." ]).

(** ** The calibration offset, once more *)

(** The record that [handleSaveOffset] stores in render [r]. *)
Definition offsetOf (r : App) : JsonValue :=
  JObject [("x"%string, JNumber (translateX (alignmentParams r)));
           ("y"%string, JNumber (translateY (alignmentParams r)))].

(** The four arrow keys, and the pairs of them that point in opposite
    directions. *)
Definition isArrow (k : string) : bool :=
  String.eqb k "ArrowUp" || String.eqb k "ArrowDown"
  || String.eqb k "ArrowLeft" || String.eqb k "ArrowRight".

Definition opposite (k1 k2 : string) : bool :=
  (String.eqb k1 "ArrowUp" && String.eqb k2 "ArrowDown")
  || (String.eqb k1 "ArrowDown" && String.eqb k2 "ArrowUp")
  || (String.eqb k1 "ArrowLeft" && String.eqb k2 "ArrowRight")
  || (String.eqb k1 "ArrowRight" && String.eqb k2 "ArrowLeft").

(** The alignment differs at most in the two offsets. *)
Definition sameButOffset (p q : AlignmentParams) : Prop :=
  scale p = scale q /\ contrast p = contrast q.

(** The world differs at most in the alignment. *)
Definition sameButAlignment (w w' : World) : Prop :=
  exists p,
    w' = {| app := with_alignmentParams p (app w);
            timers := timers w;
            nextTimerId := nextTimerId w |}.

(** The component in calibration, as a render. *)
Definition calibratingApp : App := with_isCalibrating true initialApp.

Definition shiftArrow (k : string) : KeyboardEvent :=
  {| key := k; shiftKey := true; ctrlKey := false; metaKey := false |}.

Definition ctrlArrow (k : string) : KeyboardEvent :=
  {| key := k; shiftKey := false; ctrlKey := true; metaKey := false |}.

(** ** The projection window *)

(** The state of the window after the messages of a trace have arrived. *)
Definition receive (ms : list ChannelMessage) (s : ProjectionView.State)
  : ProjectionView.State :=
  fold_left (fun s m => ProjectionView.onmessage (ProjectionView.Message m) s)
            ms s.

(** What the window shows for an image: the text shown while there is none
    also stands for an image whose source is the empty text. *)
Definition displayOf (image : string) : ProjectionView.Display :=
  match image with
  | EmptyString => ProjectionView.Waiting
  | _ => ProjectionView.Image image
  end.

(** The window shows the calibration crosshair. *)
Definition crosshairShown : ProjectionView.State :=
  ProjectionView.onmessage
    (ProjectionView.Message (TOGGLE_CALIBRATION true)) ProjectionView.initial.

(** ** The device service *)

(** A service that holds characteristic 5 of an earlier connection. *)
Definition connectedService : BLEService.t :=
  snd (BLEService.connect (BLEService.Connected 1 2 5) BLEService.empty).

(** ** Import of an archive *)

(** The PNG entries of the [projections] folder of an archive. *)
Definition pngEntries (file : File) : option (list ZipEntry) :=
  match zip file with
  | Some z =>
      Some (filter isPngEntry (projections z))
  | None => None
  end.

Definition readable (e : ZipEntry) : Prop := base64 e <> None.

(** The image that import makes of an entry: its name, and its bytes as a
    data URL. *)
Definition loaded (e : ZipEntry) : LoadedImage :=
  {| image_name := relativePath e;
     image_data :=
       ("data:image/png;base64,"
        ++ match base64 e with Some data => data | None => "" end)%string |}.

(** An archive with two images, the second before the first, a text file
    and a directory in its folder. *)
Definition unorderedArchive : File :=
  {| name := "Job.ZIP";
     zip := Some {| settings_json := Some (Json otherSettings);
                    projections :=
                           [ {| relativePath := "b.png"; dir := false;
                                base64 := Some "BBBB" |};
                             {| relativePath := "notes.txt"; dir := false;
                                base64 := Some "CCCC" |};
                             {| relativePath := "old.png"; dir := true;
                                base64 := None |};
                             {| relativePath := "a.PNG"; dir := false;
                                base64 := Some "AAAA" |} ] |} |}.

(** The files that a trace saves. *)
Fixpoint saved (t : list Effect) : list File :=
  match t with
  | [] => []
  | SaveAs z n :: rest => {| name := n; zip := Some z |} :: saved rest
  | _ :: rest => saved rest
  end.

(** There is something to export: slicing is complete and gave images. *)
Definition exportable (r : App) : bool :=
  isComplete (slicingStatus r) && negb (List.length (projectionImages r) =? 0).

(** The name of the model of render [r], without its [.stl]. *)
Definition modelBase (r : App) : string :=
  replaceSuffix ".stl" ""
    (match fileName r with
     | Some EmptyString | None => "model"
     | Some n => n
     end).

(** A sliced job with an image whose data is three characters of base64,
    which are not whole bytes. *)
Definition undecodableApp : App :=
  with_slicingStatus complete
    (with_projectionImages ["data:image/png;base64,QUI"] initialApp).

(** ** Timers and the sessions that own them *)

(** A pending timer belongs to the session that started it: a step of the
    simulated print is a timeout whose id is in the ref of the print while
    the print is active, a frame of the test playback has the id that is in
    the ref of the playback while the playback is active.  An id is never
    zero, which a condition would take for no id. *)
Definition ownedBy (a : App) (t : Timer) : Prop :=
  1 <= timerId t /\
  match callback t with
  | RunSimulationStep _ _ =>
      repeats t = false /\
      isPrinting a = true /\
      timeoutId (printProcessRef a) = Some (timerId t)
  | TestPrintFrame _ _ =>
      isTestPrinting a = true /\
      testPrintIntervalRef a = Some (timerId t)
  end.

Definition timersOwned (w : World) : Prop :=
  1 <= nextTimerId w /\ Forall (ownedBy (app w)) (timers w).

(** If every timer had its owner before, every timer has it after. *)
Definition keepsOwned (w w' : World) : Prop :=
  timersOwned w -> timersOwned w'.

Abbreviation tidy := (respects keepsOwned anyEffect).

Definition isSimulationTimer (t : Timer) : bool :=
  match callback t with
  | RunSimulationStep _ _ => true
  | TestPrintFrame _ _ => false
  end.

(** No step of a simulated print is pending. *)
Definition noSimulationTimer (w : World) : Prop :=
  Forall (fun t => isSimulationTimer t = false) (timers w).

(** No frame of a test playback is pending. *)
Definition noPlaybackTimer (w : World) : Prop :=
  Forall (fun t => isSimulationTimer t = true) (timers w).

(** What [clearTimeout(id)] under [if (id)] leaves of the timers and of the
    ref. *)
Definition clearedOf (id : option nat) (ts : list Timer) : list Timer :=
  if truthy id then filter (fun t => negb (timerId t =? idOf id)) ts else ts.

Definition droppedId (id : option nat) : option nat :=
  if truthy id then None else id.

(** The world that [stopPrint] leaves. *)
Definition printStopped (w : World) : World :=
  let p := printProcessRef (app w) in
  {| app :=
       with_isWaitingForHopTrigger false
         (with_isPrinting false
            (with_printProcessRef
               {| currentFrame := currentFrame p;
                  intervalId := droppedId (intervalId p);
                  timeoutId := droppedId (timeoutId p) |}
               (app w)));
     timers := clearedOf (timeoutId p) (clearedOf (intervalId p) (timers w));
     nextTimerId := nextTimerId w |}.

(** The world that [stopTestPrint] leaves. *)
Definition testStopped (w : World) : World :=
  {| app :=
       with_isTestPrinting false
         (with_testPrintIntervalRef (droppedId (testPrintIntervalRef (app w)))
            (app w));
     timers := clearedOf (testPrintIntervalRef (app w)) (timers w);
     nextTimerId := nextTimerId w |}.

(** ** The link to the device *)

(** The component shows the device as connected exactly when it holds a
    characteristic to write to. *)
Definition linked (a : App) : Prop :=
  isConnected a = isSome (writeCharacteristic a).

(** The link is as it was. *)
Definition keepsLink (w w' : World) : Prop :=
  isConnected (app w') = isConnected (app w) /\
  writeCharacteristic (app w') = writeCharacteristic (app w).

Abbreviation offLink := (respects keepsLink anyEffect).

(** The one command that a click on Print writes outside simulation mode:
    the print command to start, the zero command to stop. *)
Definition commandOfClick (a : App) : list Q :=
  if isPrinting a then stopCommand else printCommand (projectionParams a).

(** ** The job that the component holds *)

(** A PNG data URL, as slicing and import make the images. *)
Definition pngUrl (image : string) : Prop :=
  exists data, image = ("data:image/png;base64," ++ data)%string.

(** Every image is a PNG data URL, and a model file that is held gives the
    file name. *)
Definition jobOk (a : App) : Prop :=
  Forall pngUrl (projectionImages a) /\
  forall f, stlFile a = Some f -> fileName a = Some f.

(** The images, the model file and its name are as they were. *)
Definition keepsJob (w w' : World) : Prop :=
  projectionImages (app w') = projectionImages (app w) /\
  stlFile (app w') = stlFile (app w) /\
  fileName (app w') = fileName (app w).

Abbreviation offJob := (respects keepsJob anyEffect).

(** ** The projection window and the controls *)

(** The component holds connection [c] to the projection window, in the
    state [connected]. *)
Definition windowConnected (w : World) (c : nat) : Prop :=
  presentationConnectionRef (app w)
  = Some {| connectionId := c; state := connected |} /\
  projectionWindowStatus (app w) = Connected.

(** The alignment is as it was. *)
Definition keepsAlignment (w w' : World) : Prop :=
  alignmentParams (app w') = alignmentParams (app w).

Abbreviation offAlignment := (respects keepsAlignment anyEffect).

(** The trace of a turn, empty when the event was not enabled. *)
Definition traceOf_step (turn : option (World * list Effect)) : list Effect :=
  match turn with
  | Some (_, trace) => trace
  | None => []
  end.

(** The transform that the window applies for an alignment. *)
Definition transformOf (alignment : AlignmentParams) : ProjectionView.Transform :=
  {| ProjectionView.scaleBy := scale alignment / 100;
     ProjectionView.translateXpx := translateX alignment;
     ProjectionView.translateYpx := translateY alignment |}.

Definition otherAlignment : AlignmentParams :=
  {| scale := 120; translateX := 5; translateY := -3; contrast := 90 |}.

(** The component after a model file has been chosen and sliced into two
    images. *)
Definition slicedWorld : World :=
  worldOf (run initialWorld
             [SelectFile "part.stl"; ClickSlice; SliceCompleted twoImages 1]).

(** * Properties *)

Ltac unfold_handlers :=
  cbv [stopPrint stopTestPrint handlePrint handleTestPrint handleCalibration
       gattserverdisconnected closeHandler setupConnection runSimulationStep
       writeValue send emit getApp modifyApp when bind ret throw try_catch
       setIsPrinting setIsWaitingForHopTrigger setIsTestPrinting setIsCalibrating
       setIsConnected setWriteCharacteristic setProjectionWindowStatus
       assignPresentationConnection assignTestPrintInterval assignCurrentFrame
       assignIntervalId assignTimeoutId clearTimer setTimeout setInterval addTimer
       resultOf worldAfter traceOf].

(** ** The numbers of the machine *)

Lemma pow2_pos (e : Z) : (0 < 2 ^ e)%Q.
Proof. apply Qpower_0_lt. reflexivity. Qed.

Lemma pow2_nonzero (e : Z) : ~ (2 ^ e == 0)%Q.
Proof. intro H. pose proof (pow2_pos e) as P. rewrite H in P. discriminate P. Qed.

Lemma pow2_le (a b : Z) : (a <= b)%Z -> (2 ^ a <= 2 ^ b)%Q.
Proof. intro H. apply Qpower_le_compat_l; [exact H | discriminate]. Qed.

Lemma pow2_lt_inv (a b : Z) : (2 ^ a < 2 ^ b)%Q -> (a < b)%Z.
Proof. intro H. apply (Qpower_lt_compat_l_inv 2); [exact H | reflexivity]. Qed.

Lemma pow2_Z (a : Z) : (0 <= a)%Z -> (2 ^ a == inject_Z (2 ^ a))%Q.
Proof. intro H. rewrite Zpower_Qpower by exact H. reflexivity. Qed.

Lemma ilog2_spec (x : Q) :
  (0 < x)%Q -> (2 ^ ilog2 x <= x)%Q /\ (x < 2 ^ (ilog2 x + 1))%Q.
Proof.
  intro Hx. destruct x as [n d].
  assert (Hn : (0 < n)%Z) by (unfold Qlt in Hx; cbn in Hx; lia).
  unfold ilog2. cbn [Qnum Qden].
  set (a := Z.log2 n). set (b := Z.log2 (Z.pos d)).
  assert (Ha0 : (0 <= a)%Z) by apply Z.log2_nonneg.
  assert (Hb0 : (0 <= b)%Z) by apply Z.log2_nonneg.
  destruct (Z.log2_spec n Hn) as [Ha1 Ha2]. fold a in Ha1, Ha2.
  destruct (Z.log2_spec (Z.pos d) eq_refl) as [Hb1 Hb2]. fold b in Hb1, Hb2.
  assert (HA : (0 < 2 ^ a)%Z) by (apply Z.pow_pos_nonneg; lia).
  assert (HB : (0 < 2 ^ b)%Z) by (apply Z.pow_pos_nonneg; lia).
  rewrite Z.pow_succ_r in Ha2, Hb2 by assumption.
  assert (Hpow : forall k : Z,
            (2 ^ (a - b + k) == 2 ^ k * (2 ^ a # Z.to_pos (2 ^ b)))%Q).
  { intro k. rewrite Qpower_plus by discriminate.
    rewrite Qpower_minus by discriminate.
    rewrite (pow2_Z a Ha0), (pow2_Z b Hb0).
    rewrite (Qmake_Qdiv (2 ^ a) (Z.to_pos (2 ^ b))).
    rewrite Z2Pos.id by exact HB. apply Qmult_comm. }
  set (A := (2 ^ a)%Z) in *. set (B := (2 ^ b)%Z) in *.
  clearbody A B. clearbody a b.
  destruct (Qle_bool (2 ^ (a - b)) (n # d)) eqn:E.
  - split; [apply Qle_bool_iff; exact E|].
    rewrite Hpow. rewrite Qpower_1_r.
    unfold Qlt, Qmult, Qnum, Qden. rewrite Pos2Z.inj_mul.
    rewrite Z2Pos.id by exact HB. nia.
  - assert (Hlt : (n # d < 2 ^ (a - b))%Q).
    { apply Qnot_le_lt. intro H. apply Qle_bool_iff in H. congruence. }
    replace (a - b - 1 + 1)%Z with (a - b)%Z by lia.
    split; [|exact Hlt].
    replace (a - b - 1)%Z with (a - b + -1)%Z by lia.
    rewrite Hpow.
    change (2 ^ (-1))%Q with (1 # 2)%Q.
    unfold Qle, Qmult, Qnum, Qden. rewrite !Pos2Z.inj_mul.
    rewrite Z2Pos.id by exact HB. nia.
Qed.

Lemma ilog2_mono (x y : Q) : (0 < x)%Q -> (x <= y)%Q -> (ilog2 x <= ilog2 y)%Z.
Proof.
  intros Hx Hxy.
  assert (Hy : (0 < y)%Q) by (eapply Qlt_le_trans; eassumption).
  destruct (ilog2_spec x Hx) as [Hx1 _].
  destruct (ilog2_spec y Hy) as [_ Hy2].
  assert (H : (2 ^ ilog2 x < 2 ^ (ilog2 y + 1))%Q).
  { eapply Qle_lt_trans; [exact Hx1|]. eapply Qle_lt_trans; eassumption. }
  apply pow2_lt_inv in H. lia.
Qed.

Lemma rne_bounds (m : Q) : (Qfloor m <= rne m <= Qfloor m + 1)%Z.
Proof.
  unfold rne. destruct (m - inject_Z (Qfloor m) ?= 1 # 2)%Q;
    [destruct (Z.even (Qfloor m))|..]; lia.
Qed.

Ltac compare_facts :=
  repeat match goal with
         | H : (_ ?= _)%Q = Eq |- _ => apply Qeq_alt in H
         | H : (_ ?= _)%Q = Lt |- _ => apply Qlt_alt in H
         | H : (_ ?= _)%Q = Gt |- _ => apply Qgt_alt in H
         end.

Lemma rne_mono (m1 m2 : Q) : (m1 <= m2)%Q -> (rne m1 <= rne m2)%Z.
Proof.
  intro H. pose proof (Qfloor_resp_le _ _ H) as Hf.
  destruct (Z.eq_dec (Qfloor m1) (Qfloor m2)) as [E|NE].
  - unfold rne. rewrite E.
    destruct (m1 - inject_Z (Qfloor m2) ?= 1 # 2)%Q eqn:C1;
      destruct (m2 - inject_Z (Qfloor m2) ?= 1 # 2)%Q eqn:C2;
      try (destruct (Z.even (Qfloor m2))); try lia;
      exfalso; compare_facts; lra.
  - pose proof (rne_bounds m1). pose proof (rne_bounds m2). lia.
Qed.

Lemma rne_inject_Z (k : Z) : rne (inject_Z k) = k.
Proof.
  unfold rne. rewrite Qfloor_Z.
  replace (inject_Z k - inject_Z k ?= 1 # 2)%Q with Lt; [reflexivity|].
  symmetry. apply Qlt_alt. setoid_replace (inject_Z k - inject_Z k)%Q with 0%Q by ring.
  reflexivity.
Qed.

Lemma rne_comp (m1 m2 : Q) : (m1 == m2)%Q -> rne m1 = rne m2.
Proof.
  intro H. apply Z.le_antisymm; apply rne_mono; rewrite H; apply Qle_refl.
Qed.

Lemma roundPositive_bounds (prec emin : Z) (x : Q) :
  (0 < prec)%Z -> (0 < x)%Q ->
  let e := Z.max (ilog2 x) emin in
  (0 <= roundPositive prec emin x <= 2 ^ (e + 1))%Q /\
  ((emin <= ilog2 x)%Z -> (2 ^ e <= roundPositive prec emin x)%Q).
Proof.
  intros Hp Hx e. unfold roundPositive. fold e.
  set (ulp := (2 ^ (e - prec + 1))%Q).
  assert (Hulp : (0 < ulp)%Q) by apply pow2_pos.
  destruct (ilog2_spec x Hx) as [Hlo Hhi].
  assert (Hhi' : (x <= 2 ^ (e + 1))%Q).
  { apply Qlt_le_weak. eapply Qlt_le_trans; [exact Hhi|]. apply pow2_le. lia. }
  assert (Htop : (2 ^ (e + 1) == inject_Z (2 ^ prec) * ulp)%Q).
  { unfold ulp. rewrite <- pow2_Z by lia. rewrite <- Qpower_plus by discriminate.
    replace (prec + (e - prec + 1))%Z with (e + 1)%Z by lia. reflexivity. }
  assert (Hbot : (2 ^ e == inject_Z (2 ^ (prec - 1)) * ulp)%Q).
  { unfold ulp. rewrite <- pow2_Z by lia. rewrite <- Qpower_plus by discriminate.
    replace (prec - 1 + (e - prec + 1))%Z with e by lia. reflexivity. }
  rewrite Qred_correct.
  split; [split|].
  - apply Qmult_le_0_compat; [|apply Qlt_le_weak; exact Hulp].
    rewrite <- (Zle_Qle 0). rewrite <- (rne_inject_Z 0). apply rne_mono.
    apply Qle_shift_div_l; [exact Hulp|]. rewrite Qmult_0_l.
    apply Qlt_le_weak. exact Hx.
  - rewrite Htop. apply Qmult_le_compat_r; [|apply Qlt_le_weak; exact Hulp].
    rewrite <- Zle_Qle. rewrite <- (rne_inject_Z (2 ^ prec)). apply rne_mono.
    apply Qle_shift_div_r; [exact Hulp|]. rewrite <- Htop. exact Hhi'.
  - intro He. rewrite Hbot.
    apply Qmult_le_compat_r; [|apply Qlt_le_weak; exact Hulp].
    rewrite <- Zle_Qle. rewrite <- (rne_inject_Z (2 ^ (prec - 1))). apply rne_mono.
    apply Qle_shift_div_l; [exact Hulp|]. rewrite <- Hbot.
    unfold e. rewrite Z.max_l by exact He. exact Hlo.
Qed.

Lemma roundPositive_mono (prec emin : Z) (x y : Q) :
  (0 < prec)%Z -> (0 < x)%Q -> (x <= y)%Q ->
  (roundPositive prec emin x <= roundPositive prec emin y)%Q.
Proof.
  intros Hp Hx Hxy.
  assert (Hy : (0 < y)%Q) by (eapply Qlt_le_trans; eassumption).
  pose proof (ilog2_mono x y Hx Hxy) as Hlog.
  destruct (Z.eq_dec (Z.max (ilog2 x) emin) (Z.max (ilog2 y) emin)) as [E|NE].
  - unfold roundPositive. rewrite E. rewrite !Qred_correct.
    set (ulp := (2 ^ (Z.max (ilog2 y) emin - prec + 1))%Q).
    assert (Hulp : (0 < ulp)%Q) by apply pow2_pos.
    apply Qmult_le_compat_r; [|apply Qlt_le_weak; exact Hulp].
    rewrite <- Zle_Qle. apply rne_mono.
    apply Qmult_le_compat_r; [exact Hxy|].
    apply Qlt_le_weak, Qinv_lt_0_compat. exact Hulp.
  - destruct (roundPositive_bounds prec emin x Hp Hx) as [[_ Hxhi] _].
    destruct (roundPositive_bounds prec emin y Hp Hy) as [_ Hylo].
    cbv zeta in Hxhi, Hylo.
    eapply Qle_trans; [exact Hxhi|].
    eapply Qle_trans; [|apply Hylo; lia].
    apply pow2_le. lia.
Qed.

(** Rounding keeps the order of the numbers that are not negative. *)
Lemma roundTo_mono (prec emin : Z) (x y : Q) :
  (0 < prec)%Z -> (0 <= x)%Q -> (x <= y)%Q ->
  (roundTo prec emin x <= roundTo prec emin y)%Q.
Proof.
  intros Hp Hx Hxy. unfold roundTo.
  assert (Hsign : forall z : Q, (0 <= z)%Q ->
            ((Qnum z ?= 0)%Z = Eq /\ (z == 0)%Q) \/ ((Qnum z ?= 0)%Z = Gt /\ (0 < z)%Q)).
  { intros [n d] Hz. unfold Qle in Hz. cbn in Hz. cbn [Qnum].
    destruct (Z.compare_spec n 0) as [->| |]; [left|lia|right].
    - split; reflexivity.
    - split; [reflexivity|]. unfold Qlt. cbn. lia. }
  destruct (Hsign x Hx) as [[-> Hx0]|[-> Hx0]];
    destruct (Hsign y (Qle_trans _ _ _ Hx Hxy)) as [[-> Hy0]|[-> Hy0]].
  - apply Qle_refl.
  - destruct (roundPositive_bounds prec emin y Hp Hy0) as [[H _] _]. exact H.
  - exfalso. rewrite Hy0 in Hxy. exact (Qlt_not_le _ _ Hx0 Hxy).
  - apply roundPositive_mono; assumption.
Qed.

Lemma roundTo_nonneg (prec emin : Z) (x : Q) :
  (0 < prec)%Z -> (0 <= x)%Q -> (0 <= roundTo prec emin x)%Q.
Proof.
  intros Hp Hx.
  change 0%Q with (roundTo prec emin 0) at 1.
  apply roundTo_mono; [exact Hp | apply Qle_refl | exact Hx].
Qed.

Lemma ilog2_unique (x : Q) (e : Z) :
  (2 ^ e <= x)%Q -> (x < 2 ^ (e + 1))%Q -> ilog2 x = e.
Proof.
  intros Hlo Hhi.
  assert (Hx : (0 < x)%Q) by (eapply Qlt_le_trans; [apply pow2_pos | exact Hlo]).
  destruct (ilog2_spec x Hx) as [Hlo' Hhi'].
  assert (H1 : (2 ^ e < 2 ^ (ilog2 x + 1))%Q) by (eapply Qle_lt_trans; eassumption).
  assert (H2 : (2 ^ ilog2 x < 2 ^ (e + 1))%Q) by (eapply Qle_lt_trans; eassumption).
  apply pow2_lt_inv in H1, H2. lia.
Qed.

Lemma ilog2_comp (x y : Q) : (0 < x)%Q -> (x == y)%Q -> ilog2 x = ilog2 y.
Proof.
  intros Hx Hxy. destruct (ilog2_spec x Hx) as [Hlo Hhi].
  symmetry. apply ilog2_unique; rewrite <- Hxy; assumption.
Qed.

Lemma roundPositive_comp (prec emin : Z) (x y : Q) :
  (0 < x)%Q -> (x == y)%Q -> roundPositive prec emin x = roundPositive prec emin y.
Proof.
  intros Hx Hxy. unfold roundPositive.
  rewrite <- (ilog2_comp x y Hx Hxy).
  set (ulp := (2 ^ (Z.max (ilog2 x) emin - prec + 1))%Q).
  apply Qred_complete.
  rewrite (rne_comp (x / ulp) (y / ulp)); [reflexivity|].
  rewrite Hxy. reflexivity.
Qed.

Lemma Qnum_sign (x : Q) :
  ((Qnum x ?= 0)%Z = Lt /\ (x < 0)%Q) \/
  ((Qnum x ?= 0)%Z = Eq /\ (x == 0)%Q) \/
  ((Qnum x ?= 0)%Z = Gt /\ (0 < x)%Q).
Proof.
  destruct x as [n d]. unfold Qlt, Qeq. cbn [Qnum Qden].
  destruct (Z.compare_spec n 0) as [->| |]; [right; left|left|right; right];
    (split; [reflexivity|lia]).
Qed.

(** The rounding of a number does not depend on the fraction that stands
    for it. *)
Lemma roundTo_comp (prec emin : Z) (x y : Q) :
  (x == y)%Q -> roundTo prec emin x = roundTo prec emin y.
Proof.
  intro Hxy. unfold roundTo.
  destruct (Qnum_sign x) as [[-> Hx]|[[-> Hx]|[-> Hx]]];
    destruct (Qnum_sign y) as [[-> Hy]|[[-> Hy]|[-> Hy]]];
    try reflexivity; try (exfalso; lra).
  - f_equal. apply roundPositive_comp; lra.
  - apply roundPositive_comp; lra.
Qed.

Lemma Qred_inject_Z (n : Z) : Qred (inject_Z n) = inject_Z n.
Proof.
  pose proof (gcd_Qred (inject_Z n)) as Hg.
  pose proof (Qred_correct (inject_Z n)) as He.
  destruct (Qred (inject_Z n)) as [a b].
  unfold Qeq in He. cbn [Qnum Qden inject_Z] in *.
  assert (Ha : a = (Z.pos b * n)%Z) by lia.
  rewrite Ha in Hg. rewrite Z.gcd_comm in Hg.
  rewrite Z.gcd_mul_diag_l in Hg by lia.
  assert (Hb : b = 1%positive) by lia. subst b.
  unfold inject_Z. f_equal. lia.
Qed.

Lemma roundPositive_integer (prec emin n : Z) :
  (0 < prec)%Z -> (emin <= 0)%Z -> (0 < n < 2 ^ prec)%Z ->
  roundPositive prec emin (inject_Z n) = inject_Z n.
Proof.
  intros Hp He [Hn0 Hn].
  destruct (Z.log2_spec n Hn0) as [Hlo Hhi].
  assert (Hlog : (0 <= Z.log2 n < prec)%Z).
  { split; [apply Z.log2_nonneg|]. apply Z.log2_lt_pow2; assumption. }
  assert (Hi : ilog2 (inject_Z n) = Z.log2 n).
  { apply ilog2_unique.
    - rewrite pow2_Z by lia. rewrite <- Zle_Qle. exact Hlo.
    - rewrite pow2_Z by lia. rewrite <- Zlt_Qlt.
      replace (Z.log2 n + 1)%Z with (Z.succ (Z.log2 n)) by lia. exact Hhi. }
  unfold roundPositive. rewrite Hi. rewrite Z.max_l by lia.
  set (s := (prec - 1 - Z.log2 n)%Z).
  replace (Z.log2 n - prec + 1)%Z with (- s)%Z by (unfold s; lia).
  assert (Hs : (0 <= s)%Z) by (unfold s; lia).
  assert (Hu : (2 ^ (- s) == / inject_Z (2 ^ s))%Q).
  { rewrite Qpower_opp. rewrite pow2_Z by exact Hs. reflexivity. }
  assert (H2s : (0 < inject_Z (2 ^ s))%Q).
  { rewrite <- (Zlt_Qlt 0). apply Z.pow_pos_nonneg; lia. }
  transitivity (Qred (inject_Z n)); [|apply Qred_inject_Z].
  apply Qred_complete.
  rewrite (rne_comp _ (inject_Z (n * 2 ^ s))).
  - rewrite rne_inject_Z. rewrite Hu. rewrite inject_Z_mult. field. lra.
  - rewrite Hu. rewrite inject_Z_mult. field. lra.
Qed.

(** An integer below [2^prec] in size is a number of the format. *)
Lemma roundTo_integer (prec emin n : Z) :
  (0 < prec)%Z -> (emin <= 0)%Z -> (Z.abs n < 2 ^ prec)%Z ->
  roundTo prec emin (inject_Z n) = inject_Z n.
Proof.
  intros Hp He Hn. unfold roundTo.
  change (Qnum (inject_Z n)) with n.
  change (- inject_Z n)%Q with (inject_Z (- n)).
  destruct (Z.compare_spec n 0) as [->| |].
  - reflexivity.
  - rewrite roundPositive_integer by lia.
    unfold inject_Z, Qopp. cbn [Qnum Qden]. f_equal. lia.
  - apply roundPositive_integer; lia.
Qed.

Lemma binary64_mono (x y : Q) :
  (0 <= x)%Q -> (x <= y)%Q -> (binary64 x <= binary64 y)%Q.
Proof. apply roundTo_mono. reflexivity. Qed.

Lemma float32_mono (x y : Q) :
  (0 <= x)%Q -> (x <= y)%Q -> (float32 x <= float32 y)%Q.
Proof. apply roundTo_mono. reflexivity. Qed.

Lemma binary64_nonneg (x : Q) : (0 <= x)%Q -> (0 <= binary64 x)%Q.
Proof. apply roundTo_nonneg. reflexivity. Qed.

Lemma binary64_integer (n : Z) :
  (Z.abs n < 2 ^ 53)%Z -> binary64 (inject_Z n) = inject_Z n.
Proof. apply roundTo_integer; [reflexivity | discriminate]. Qed.

(** ** The device command *)

Lemma Qgtb_lt (x y : Q) : Qgtb x y = true <-> (y < x)%Q.
Proof.
  unfold Qgtb. rewrite negb_true_iff. split; intro H.
  - apply Qnot_le_lt. intro Hle. apply Qle_bool_iff in Hle. congruence.
  - destruct (Qle_bool x y) eqn:E; [|reflexivity].
    apply Qle_bool_iff in E. exfalso. exact (Qlt_not_le _ _ H E).
Qed.

Lemma tomographicDelayMs_positive (p : ProjectionParams) :
  (0 < rotationSpeed p)%Q ->
  tomographicDelayMs p = ((0.1125 / rotationSpeed p) * 1000)%Q.
Proof.
  intro H. unfold tomographicDelayMs, degreesPerStep.
  apply Qgtb_lt in H. now rewrite H.
Qed.

Lemma tomographicDelayMs_otherwise (p : ProjectionParams) :
  ~ (0 < rotationSpeed p)%Q -> tomographicDelayMs p = 0%Q.
Proof.
  intro H. unfold tomographicDelayMs.
  destruct (Qgtb (rotationSpeed p) 0) eqn:E; [|reflexivity].
  apply Qgtb_lt in E. contradiction.
Qed.

Lemma pauseInSeconds_spec (p : ProjectionParams) :
  (pauseInSeconds p == pauseAfterRotation p / 1000)%Q.
Proof.
  unfold pauseInSeconds, orZero.
  destruct (Qeq_bool (pauseAfterRotation p) 0) eqn:E; [|reflexivity].
  apply Qeq_bool_iff in E. now rewrite E.
Qed.

Lemma handlePrint_real_trace (r : App) (w : World) c rejected :
  isPrinting r = false ->
  isSimulationMode r = false ->
  writeCharacteristic r = Some c ->
  writes (traceOf (handlePrint r rejected w)) = [printCommand (projectionParams r)].
Proof.
  intros Hp Hs Hc. unfold_handlers. rewrite Hp, Hs, Hc.
  destruct rejected; reflexivity.
Qed.

Lemma stopPrint_writes (r : App) (w : World) c :
  isSimulationMode r = false ->
  writeCharacteristic r = Some c ->
  writes (traceOf (stopPrint r w)) = [stopCommand].
Proof.
  intros Hs Hc. unfold_handlers. rewrite Hs, Hc.
  destruct w as [a ts nid]; cbn.
  destruct (truthy (intervalId (printProcessRef a)));
    destruct (truthy (timeoutId _)); cbn;
    destruct (presentationConnectionRef a) as [[cid [ | | | ]]|]; reflexivity.
Qed.

(** C4.  In real mode the print command that [handlePrint] writes is six
    32-bit floats, 24 bytes, in the order total rotation, tomographic delay,
    pause in seconds, vertical steps, vertical delay, vertical direction; the
    delay is [(0.1125 / rotationSpeed) * 1000] for a positive speed and 0
    otherwise, the pause is [pauseAfterRotation / 1000]; the stop command
    that [stopPrint] writes is six zeros. *)
Theorem print_command_is_six_floats (r : App) (w : World)
    (c : BluetoothRemoteGATTCharacteristic) (rejected : option string) :
  isPrinting r = false ->
  isSimulationMode r = false ->
  writeCharacteristic r = Some c ->
  let p := projectionParams r in
  exists tomographicDelay pauseSeconds : Q,
    writes (traceOf (handlePrint r rejected w)) =
      [[ totalRotation p; tomographicDelay; pauseSeconds;
         verticalSteps p; verticalDelay p; verticalDirection p ]] /\
    ((0 < rotationSpeed p)%Q ->
       tomographicDelay = ((0.1125 / rotationSpeed p) * 1000)%Q) /\
    (~ (0 < rotationSpeed p)%Q -> tomographicDelay = 0%Q) /\
    (pauseSeconds == pauseAfterRotation p / 1000)%Q /\
    byteLength (printCommand p) = 24 /\
    writes (traceOf (stopPrint r w)) = [[0; 0; 0; 0; 0; 0]%Q] /\
    byteLength stopCommand = 24.
Proof.
  intros Hp Hs Hc p.
  exists (tomographicDelayMs p), (pauseInSeconds p).
  split; [exact (handlePrint_real_trace r w c rejected Hp Hs Hc)|].
  split; [apply tomographicDelayMs_positive|].
  split; [apply tomographicDelayMs_otherwise|].
  split; [apply pauseInSeconds_spec|].
  split; [reflexivity|].
  split; [exact (stopPrint_writes r w c Hs Hc)|reflexivity].
Qed.

Lemma print_command_is_six_floats_witness :
  exists tomographicDelay pauseSeconds : Q,
    writes (traceOf (handlePrint pairedApp None initialWorld)) =
      [[ 360; tomographicDelay; pauseSeconds; 0; 1000; 1 ]%Q] /\
    (tomographicDelay == 3.75)%Q /\ (pauseSeconds == 0)%Q.
Proof.
  destruct (print_command_is_six_floats pairedApp initialWorld 7 None
              eq_refl eq_refl eq_refl)
    as (d & s & Hw & Hd & _ & Hs & _).
  exists d, s. split; [exact Hw|]. split.
  - rewrite Hd; [reflexivity|]. reflexivity.
  - rewrite Hs. reflexivity.
Defined.

(** C7, as the code has it.  For a positive rotation speed the delay that
    the command holds is [(0.1125 / rotationSpeed) * 1000], each operation
    rounded to a binary64 float and the result stored as a 32-bit float; as
    the speed grows it becomes smaller or stays as it is, and never grows.
    From a speed of a millionth on, no delay is beyond the range of a 32-bit
    float. *)
Theorem tomographic_delay_decreasing (p1 p2 : ProjectionParams) :
  (1 # 1000000 <= rotationSpeed p1)%Q ->
  (rotationSpeed p1 < rotationSpeed p2)%Q ->
  encodedDelay p1
  = float32 (binary64 (binary64 (binary64 0.1125 / rotationSpeed p1) * 1000)) /\
  encodedDelay p2
  = float32 (binary64 (binary64 (binary64 0.1125 / rotationSpeed p2) * 1000)) /\
  (encodedDelay p2 <= encodedDelay p1)%Q.
Proof.
  intros H1 H12.
  assert (H1' : (0 < rotationSpeed p1)%Q) by lra.
  assert (H2 : (0 < rotationSpeed p2)%Q) by lra.
  unfold encodedDelay. cbn [IEEE.printCommand map nth].
  unfold IEEE.tomographicDelayMs, IEEE.degreesPerStep.
  rewrite (proj2 (Qgtb_lt _ _) H1'), (proj2 (Qgtb_lt _ _) H2).
  split; [reflexivity|]. split; [reflexivity|].
  set (d := binary64 0.1125).
  assert (Hd : (0 < d)%Q) by reflexivity.
  assert (Hquot : forall s : Q, (0 < s)%Q -> (0 <= d / s)%Q).
  { intros s Hs. apply Qlt_le_weak. apply Qlt_shift_div_l; lra. }
  assert (Hle : (d / rotationSpeed p2 <= d / rotationSpeed p1)%Q).
  { apply Qlt_le_weak. unfold Qdiv. apply Qmult_lt_l; [exact Hd|].
    apply -> Qinv_lt_contravar; assumption. }
  apply float32_mono; [apply binary64_nonneg|apply binary64_mono].
  - apply Qmult_le_0_compat; [apply binary64_nonneg, Hquot; exact H2 | discriminate].
  - apply Qmult_le_0_compat; [apply binary64_nonneg, Hquot; exact H2 | discriminate].
  - apply Qmult_le_compat_r; [|discriminate].
    apply binary64_mono; [apply Hquot; exact H2 | exact Hle].
Qed.

Lemma tomographic_delay_decreasing_witness :
  (1 # 1000000 <= rotationSpeed (withSpeed 30))%Q /\
  (rotationSpeed (withSpeed 30) < rotationSpeed (withSpeed 60))%Q /\
  encodedDelay (withSpeed 30) = (15 # 4)%Q /\
  encodedDelay (withSpeed 60) = (15 # 8)%Q /\
  (encodedDelay (withSpeed 60) <= encodedDelay (withSpeed 30))%Q.
Proof.
  assert (H1 : (1 # 1000000 <= rotationSpeed (withSpeed 30))%Q) by discriminate.
  assert (H2 : (rotationSpeed (withSpeed 30) < rotationSpeed (withSpeed 60))%Q)
    by reflexivity.
  destruct (tomographic_delay_decreasing (withSpeed 30) (withSpeed 60) H1 H2)
    as (E1 & E2 & Hle).
  split; [exact H1|]. split; [exact H2|].
  split; [rewrite E1; vm_compute; reflexivity|].
  split; [rewrite E2; vm_compute; reflexivity|exact Hle].
Defined.

(** C7 as stated fails: the speeds 30 and 30 + 2^-24, both binary64 floats,
    give one delay, 3.75: the second quotient differs from the first by less
    than the spacing of the 32-bit floats. *)
Lemma close_speeds_give_one_delay :
  let slow := withSpeed 30 in
  let fast := withSpeed (30 + (1 # 16777216)) in
  (0 < rotationSpeed slow)%Q /\
  (rotationSpeed slow < rotationSpeed fast)%Q /\
  (binary64 (rotationSpeed slow) == rotationSpeed slow)%Q /\
  (binary64 (rotationSpeed fast) == rotationSpeed fast)%Q /\
  encodedDelay slow = (15 # 4)%Q /\
  encodedDelay fast = (15 # 4)%Q /\
  ~ (encodedDelay fast < encodedDelay slow)%Q.
Proof.
  cbv zeta. split; [reflexivity|]. split; [reflexivity|].
  split; [vm_compute; reflexivity|]. split; [vm_compute; reflexivity|].
  split; [vm_compute; reflexivity|]. split; [vm_compute; reflexivity|].
  vm_compute. intro H. discriminate H.
Qed.

(** ** Stopping *)





(** ** Disconnection of the device *)

Lemma gattserverdisconnected_stopPrint (r : App) (w : World) :
  worldAfter (gattserverdisconnected r w) = worldAfter (stopPrint r (linkDropped w)).
Proof.
  unfold gattserverdisconnected, linkDropped.
  cbv [bind setIsConnected setWriteCharacteristic modifyApp emit worldAfter].
  cbn [app timers nextTimerId fst snd].
  destruct (stopPrint r _) as [[res w'] t]. reflexivity.
Qed.

Lemma stopPrint_clears (r : App) (w : World) :
  let outcome := stopPrint r w in
  resultOf outcome = sendResult (app w) /\
  isPrinting (app (worldAfter outcome)) = false /\
  isWaitingForHopTrigger (app (worldAfter outcome)) = false /\
  truthy (intervalId (printProcessRef (app (worldAfter outcome)))) = false /\
  truthy (timeoutId (printProcessRef (app (worldAfter outcome)))) = false /\
  isConnected (app (worldAfter outcome)) = isConnected (app w) /\
  writeCharacteristic (app (worldAfter outcome)) = writeCharacteristic (app w) /\
  (forall t, In t (timers (worldAfter outcome)) ->
     In t (timers w) /\
     (truthy (timeoutId (printProcessRef (app w))) = true ->
      timerId t <> idOf (timeoutId (printProcessRef (app w))))).
Proof.
  destruct w as [a ts nid]. unfold_handlers. cbn [app timers nextTimerId].
  destruct (truthy (intervalId (printProcessRef a))) eqn:Ei;
    cbn [app timers nextTimerId with_printProcessRef with_intervalId
         printProcessRef timeoutId intervalId];
    destruct (truthy (timeoutId (printProcessRef a))) eqn:Et;
    cbn [app timers nextTimerId with_printProcessRef with_timeoutId
         with_intervalId printProcessRef timeoutId intervalId];
    destruct (writeCharacteristic r), (isSimulationMode r);
    unfold sendResult, sendable;
    cbn; destruct (presentationConnectionRef a) as [[cid [ | | | ]]|]; cbn;
    repeat match goal with |- _ /\ _ => split end;
    try reflexivity; try assumption;
    intros t Hin;
    repeat match type of Hin with
           | In _ (filter _ _) =>
               let Hf := fresh "Hf" in
               apply filter_In in Hin; destruct Hin as [Hin Hf]
           end;
    (split; [assumption|]); intro Htrue; try discriminate Htrue;
    match goal with
    | H : negb (timerId t =? idOf (timeoutId _)) = true |- _ =>
        apply negb_true_iff, Nat.eqb_neq in H; exact H
    end.
Qed.

(** C8.  A disconnect notification that arrives while a print is active
    takes the controller out of printing in the same turn of the event loop:
    the listener marks the link as lost, drops the characteristic and runs
    the stop path, which clears printing and waiting-for-trigger and cancels
    the pending step.  All of this is done before the last step of the stop
    path, the send of [CLEAR_IMAGE], which alone can throw. *)
Theorem disconnect_stops_print (r : App) (w : World) :
  isPrinting (app w) = true ->
  exists w' trace,
    step w (GattServerDisconnected r) = Some (w', trace) /\
    resultOf (gattserverdisconnected r w) = sendResult (app w) /\
    w' = worldAfter (stopPrint r (linkDropped w)) /\
    isConnected (app w') = false /\
    writeCharacteristic (app w') = None /\
    isPrinting (app w') = false /\
    isWaitingForHopTrigger (app w') = false /\
    truthy (timeoutId (printProcessRef (app w'))) = false /\
    (forall t, In t (timers w') ->
       truthy (timeoutId (printProcessRef (app w))) = true ->
       timerId t <> idOf (timeoutId (printProcessRef (app w)))).
Proof.
  intros _.
  pose proof (gattserverdisconnected_stopPrint r w) as Hstop.
  pose proof (stopPrint_clears r (linkDropped w)) as Hc. cbv zeta in Hc.
  destruct Hc as (Hres & Hp & Hw & _ & Ht & Hcon & Hwc & Htimers).
  unfold step. cbn [enabled handle].
  destruct (gattserverdisconnected r w) as [[res w'] trace] eqn:E.
  cbn [worldAfter fst snd] in Hstop. subst w'.
  exists (worldAfter (stopPrint r (linkDropped w))), trace.
  split; [reflexivity|]. split.
  - revert E. unfold gattserverdisconnected.
    cbv [bind setIsConnected setWriteCharacteristic modifyApp emit resultOf].
    cbn [app timers nextTimerId fst snd].
    fold (linkDropped w).
    destruct (stopPrint r (linkDropped w)) as [[res' w''] t'].
    cbn in Hres. subst res'. intro E. inversion E. reflexivity.
  - split; [reflexivity|].
    split; [rewrite Hcon; reflexivity|].
    split; [rewrite Hwc; reflexivity|].
    split; [exact Hp|]. split; [exact Hw|]. split; [exact Ht|].
    intros t Hin. exact (proj2 (Htimers t Hin)).
Qed.

Lemma disconnect_stops_print_witness :
  exists w' trace,
    step printingWorld (GattServerDisconnected initialApp) = Some (w', trace) /\
    isPrinting (app w') = false /\ isConnected (app w') = false.
Proof.
  destruct (disconnect_stops_print initialApp printingWorld eq_refl)
    as (w' & trace & Hs & _ & _ & Hc & _ & Hp & _).
  exists w', trace. repeat split; assumption.
Defined.

(** ** The simulated print *)

Lemma runSimulationStep_in_range (r : App) (n : nat) (w : World) :
  currentFrame (printProcessRef (app w)) < n ->
  sendable (app w) = true ->
  let frame := currentFrame (printProcessRef (app w)) in
  let timer := {| timerId := nextTimerId w; repeats := false;
                  delay := simulationDelay r n;
                  callback := RunSimulationStep r n |} in
  runSimulationStep r n w =
    (Ok tt,
     {| app := with_printProcessRef
                 {| currentFrame := S frame;
                    intervalId := intervalId (printProcessRef (app w));
                    timeoutId := Some (nextTimerId w) |} (app w);
        timers := timers w ++ [timer];
        nextTimerId := S (nextTimerId w) |},
     match presentationConnectionRef (app w) with
     | Some c => [Send (connectionId c)
                    (UPDATE_IMAGE (nth_error (projectionImages r) frame))]
     | None => []
     end).
Proof.
  intros H Hsend frame timer. subst frame timer.
  destruct w as [a ts nid]. unfold sendable in Hsend.
  cbn [app timers nextTimerId] in *.
  apply Nat.leb_gt in H.
  unfold runSimulationStep. unfold bind at 1. unfold getApp at 1.
  cbn [app]. rewrite H.
  destruct (presentationConnectionRef a) as [[c [ | | | ]]|] eqn:E;
    try discriminate Hsend; unfold_handlers;
    cbn; rewrite ?E; reflexivity.
Qed.

Lemma runSimulationStep_unsendable (r : App) (n : nat) (w : World) :
  currentFrame (printProcessRef (app w)) < n ->
  sendable (app w) = false ->
  runSimulationStep r n w = (Throw "InvalidStateError", w, []).
Proof.
  intros H Hsend.
  destruct w as [a ts nid]. unfold sendable in Hsend.
  cbn [app timers nextTimerId] in *.
  apply Nat.leb_gt in H.
  unfold runSimulationStep. unfold bind at 1. unfold getApp at 1.
  cbn [app]. rewrite H.
  destruct (presentationConnectionRef a) as [[c [ | | | ]]|] eqn:E;
    try discriminate Hsend; unfold_handlers; cbn; reflexivity.
Qed.

(** C6.  A step of the simulated print that shows a frame schedules the next
    step after [timePerFrame] ms in time-per-frame mode, and after
    [(totalRotation / frameCount) / rotationSpeed * 1000] ms in velocity and
    in hops mode (the rotation speed being positive); with 120 images,
    velocity mode, 30 deg/s and 360 deg that is 100 ms.  The one step that
    schedules nothing is a step that cannot send its frame, because the
    connection it finds is not connected: it throws and leaves the state as
    it was. *)
Theorem simulation_frame_delay (r : App) (w : World) :
  let frameCount := List.length (projectionImages r) in
  currentFrame (printProcessRef (app w)) < frameCount ->
  (0 < rotationSpeed (projectionParams r))%Q ->
  if sendable (app w) then
    exists w' trace timer,
      runSimulationStep r frameCount w = (Ok tt, w', trace) /\
      timers w' = timers w ++ [timer] /\
      timeoutId (printProcessRef (app w')) = Some (timerId timer) /\
      repeats timer = false /\
      callback timer = RunSimulationStep r frameCount /\
      match printMode r with
      | time_per_frame => delay timer = timePerFrame r
      | velocity | hops =>
          delay timer =
            ((totalRotation (projectionParams r)
              / inject_Z (Z.of_nat frameCount))
             / rotationSpeed (projectionParams r) * 1000)%Q
      end /\
      (frameCount = 120 ->
       printMode r = velocity ->
       (rotationSpeed (projectionParams r) == 30)%Q ->
       (totalRotation (projectionParams r) == 360)%Q ->
       (delay timer == 100)%Q)
  else
    runSimulationStep r frameCount w = (Throw "InvalidStateError", w, []).
Proof.
  intros frameCount Hframe _.
  destruct (sendable (app w)) eqn:Hsend;
    [|exact (runSimulationStep_unsendable r frameCount w Hframe Hsend)].
  rewrite (runSimulationStep_in_range r frameCount w Hframe Hsend).
  eexists _, _, _. split; [reflexivity|].
  cbn [timers app printProcessRef with_printProcessRef timeoutId timerId
       repeats callback delay].
  repeat (split; [reflexivity|]).
  split.
  - unfold simulationDelay. destruct (printMode r); reflexivity.
  - intros Hn Hmode Hspeed Hrot. unfold simulationDelay.
    rewrite Hmode, Hn. cbn [delay].
    rewrite Hspeed, Hrot. vm_compute. reflexivity.
Qed.

Lemma simulation_frame_delay_witness :
  exists w' trace timer,
    runSimulationStep scenarioApp 120 initialWorld = (Ok tt, w', trace) /\
    timers w' = [timer] /\
    (delay timer == 100)%Q.
Proof.
  assert (Hframe : currentFrame (printProcessRef (app initialWorld))
                   < List.length (projectionImages scenarioApp))
    by (vm_compute; lia).
  assert (Hspeed : (0 < rotationSpeed (projectionParams scenarioApp))%Q)
    by reflexivity.
  destruct (simulation_frame_delay scenarioApp initialWorld Hframe Hspeed)
    as (w' & trace & timer & Hrun & Htimers & _ & _ & _ & _ & Hscenario).
  exists w', trace, timer. split; [exact Hrun|]. split; [exact Htimers|].
  apply Hscenario; reflexivity.
Defined.

(** ** The rules of [respects], for a preorder [R] *)

Section Respects.

Context (R : World -> World -> Prop) {HR : PreOrder R} (G : Effect -> Prop).

Lemma respects_ret {A} (a : A) : respects R G (ret a).
Proof. intro w. split; [reflexivity | constructor]. Qed.

Lemma respects_throw {A} (e : string) : respects R G (@throw A e).
Proof. intro w. split; [reflexivity | constructor]. Qed.

Lemma respects_getApp : respects R G getApp.
Proof. intro w. split; [reflexivity | constructor]. Qed.

Lemma respects_emit (e : Effect) : G e -> respects R G (emit e).
Proof. intros He w. split; [reflexivity | repeat constructor; exact He]. Qed.

Lemma respects_bind {A B} (m : M A) (k : A -> M B) :
  respects R G m -> (forall a, respects R G (k a)) -> respects R G (bind m k).
Proof.
  intros Hm Hk w. destruct (Hm w) as [H1 T1].
  unfold bind, worldAfter, traceOf in *.
  destruct (m w) as [[[a|e] w1] t1]; cbn [fst snd] in *.
  - destruct (Hk a w1) as [H2 T2]. unfold worldAfter, traceOf in *.
    destruct (k a w1) as [[res w2] t2]; cbn [fst snd] in *.
    split; [etransitivity; eassumption | apply Forall_app; split; assumption].
  - split; assumption.
Qed.

Lemma respects_try_catch {A} (body : M A) (handler : string -> M A) :
  respects R G body -> (forall e, respects R G (handler e)) ->
  respects R G (try_catch body handler).
Proof.
  intros Hm Hk w. destruct (Hm w) as [H1 T1].
  unfold try_catch, worldAfter, traceOf in *.
  destruct (body w) as [[[a|e] w1] t1]; cbn [fst snd] in *.
  - split; assumption.
  - destruct (Hk e w1) as [H2 T2]. unfold worldAfter, traceOf in *.
    destruct (handler e w1) as [[res w2] t2]; cbn [fst snd] in *.
    split; [etransitivity; eassumption | apply Forall_app; split; assumption].
Qed.

Lemma respects_when (b : bool) (m : M unit) : respects R G m -> respects R G (when b m).
Proof. intro Hm. destruct b; [exact Hm | apply respects_ret]. Qed.

(** A pure change of the world that [R] allows. *)
Lemma respects_pure (f : World -> World) :
  (forall w, R w (f w)) -> respects R G (fun w => (Ok tt, f w, [])).
Proof. intros Hf w. split; [apply Hf | constructor]. Qed.

End Respects.

Create HintDb handlers.
#[local] Hint Extern 1 (respects _ _ (ret _)) =>
  (apply respects_ret; try exact _) : handlers.
#[local] Hint Extern 1 (respects _ _ (throw _)) =>
  (apply respects_throw; try exact _) : handlers.
#[local] Hint Extern 1 (respects _ _ getApp) =>
  (apply respects_getApp; try exact _) : handlers.
#[local] Hint Extern 2 (respects _ _ (when _ _)) =>
  (apply respects_when; try exact _) : handlers.

(** Cuts a computation along its binds and branches. *)
Ltac respects_steps :=
  repeat first
    [ solve [auto with handlers]
    | apply respects_bind; try exact _; [|intro]
    | apply respects_try_catch; try exact _; [|intro]
    | apply respects_when; try exact _
    | match goal with
      | |- respects _ _ (match ?x with _ => _ end) => destruct x
      end ].

Ltac unfold_setters :=
  unfold setSlicingParams, setProjectionParams, setAlignmentParams,
    setProjectionImages, setFileName, setStlFile, setSlicingStatus,
    setSlicingStats, setActiveTab, setIsPrinting, setIsWaitingForHopTrigger,
    setIsTestPrinting, setIsCalibrating, setIsConnected, setWriteCharacteristic,
    setProjectionWindowStatus, assignPresentationConnection,
    assignTestPrintInterval, assignCurrentFrame, assignIntervalId,
    assignTimeoutId, send, removeTimer, setTimeout, setInterval.

Ltac unfold_event_handlers :=
  unfold importEffect, processFile, handleSlice, sliceComplete, sliceFailed,
    handleExportJob, handlePair, closeHandler, setupConnection,
    openProjectionWindow, startRejected, alignmentEffect,
    gattserverdisconnected, handleESP32Notification, stopWriteRejected,
    printWriteRejected, connectionStateChange, generateAsync, importEffect.

(** ** The frame loops stay inside the image set *)

#[local] Instance keepsTimers_PreOrder : PreOrder keepsTimers.
Proof.
  split.
  - intros w H. exact H.
  - intros w1 w2 w3 H12 H23 H. exact (H23 (H12 H)).
Qed.

Lemma safe_modifyApp (f : App -> App) : safe (modifyApp f).
Proof. apply respects_pure; try exact _. intros w H. exact H. Qed.

Lemma safe_clearTimer (id : nat) : safe (clearTimer id).
Proof.
  apply respects_pure; try exact _. intros w H. cbn.
  apply Forall_forall. intros t Hin.
  apply filter_In in Hin. destruct Hin as [Hin _].
  exact (proj1 (Forall_forall _ _) H t Hin).
Qed.

Lemma safe_addTimer (rep : bool) (cb : Callback) (ms : Q) :
  timerOk {| timerId := 0; repeats := rep; delay := ms; callback := cb |} ->
  safe (addTimer rep cb ms).
Proof.
  intros Hcb w. split; [|constructor].
  intro H. cbn. apply Forall_app. split; [exact H|].
  constructor; [exact Hcb | constructor].
Qed.

Lemma safe_updateCallback (id : nat) (cb : Callback) :
  timerOk {| timerId := 0; repeats := true; delay := 0; callback := cb |} ->
  safe (updateCallback id cb).
Proof.
  intros Hcb. apply respects_pure; try exact _. intros w H. cbn.
  apply Forall_forall. intros t Hin.
  apply in_map_iff in Hin. destruct Hin as (t0 & Ht & Hin).
  destruct (timerId t0 =? id); subst t.
  - exact Hcb.
  - exact (proj1 (Forall_forall _ _) H t0 Hin).
Qed.

#[local] Hint Resolve safe_modifyApp safe_clearTimer : handlers.
#[local] Hint Extern 1 (safe (emit _)) =>
  (apply respects_emit; try exact _; exact I) : handlers.

Lemma safe_stopTestPrint : safe stopTestPrint.
Proof. unfold stopTestPrint. unfold_setters. respects_steps. Qed.

Lemma safe_stopPrint (r : App) : safe (stopPrint r).
Proof. unfold stopPrint. unfold_setters. respects_steps. Qed.

#[local] Hint Resolve safe_stopTestPrint safe_stopPrint : handlers.

Lemma safe_runSimulationStep (r : App) (totalFrames : nat) :
  totalFrames = List.length (projectionImages r) ->
  safe (runSimulationStep r totalFrames).
Proof.
  intro Hn. unfold runSimulationStep.
  apply respects_bind; try exact _; [auto with handlers|]. intro a.
  destruct (totalFrames <=? currentFrame (printProcessRef a)) eqn:E;
    [auto with handlers|].
  apply Nat.leb_gt in E.
  assert (Hin : nth_error (projectionImages r) (currentFrame (printProcessRef a))
                <> None) by (apply nth_error_Some; lia).
  unfold_setters.
  apply respects_bind; try exact _.
  - destruct (presentationConnectionRef a) as [[c [ | | | ]]|];
      cbn [state connectionId]; try solve [auto with handlers].
    apply respects_emit; try exact _; exact Hin.
  - intros _. apply respects_bind; try exact _; [auto with handlers|]. intro.
    apply respects_bind; try exact _; [|intro; auto with handlers].
    apply safe_addTimer. exact Hn.
Qed.

Lemma safe_handlePrint (r : App) (rejected : option string) :
  safe (handlePrint r rejected).
Proof.
  unfold handlePrint.
  destruct (isPrinting r); [auto with handlers|].
  destruct (isSimulationMode r).
  - apply respects_bind; try exact _; [auto with handlers|]. intro a.
    destruct (negb _); [auto with handlers|].
    unfold_setters.
    apply respects_bind; try exact _; [auto with handlers|]. intro.
    apply respects_bind; try exact _; [auto with handlers|]. intro.
    apply safe_runSimulationStep. reflexivity.
  - destruct (writeCharacteristic r); [|auto with handlers].
    unfold writeValue. unfold_setters. respects_steps.
Qed.

Lemma safe_handleTestPrint (r : App) : safe (handleTestPrint r).
Proof.
  unfold handleTestPrint.
  destruct (isTestPrinting r); [auto with handlers|].
  destruct (List.length (projectionImages r) =? 0) eqn:E; [auto with handlers|].
  apply Nat.eqb_neq in E.
  apply respects_bind; try exact _; [auto with handlers|]. intro a.
  destruct (negb _); [auto with handlers|].
  unfold_setters.
  apply respects_bind; try exact _; [auto with handlers|]. intro.
  apply respects_bind; try exact _; [auto with handlers|]. intro.
  apply respects_bind; try exact _; [|intro; auto with handlers].
  apply safe_addTimer. unfold timerOk; cbn. lia.
Qed.

Lemma safe_handleCalibration (r : App) : safe (handleCalibration r).
Proof. unfold handleCalibration. unfold_setters. respects_steps. Qed.

(** The callback of the test playback looks up its counter, which is in
    range, and leaves a counter that is in range. *)
Lemma testPrintFrame_in_range (r : App) (currentFrame : nat) (w : World) :
  currentFrame < List.length (projectionImages r) ->
  match testPrintFrame r currentFrame w with
  | (Ok currentFrame', w', trace) =>
      currentFrame' < List.length (projectionImages r) /\
      keepsTimers w w' /\ Forall imageInRange trace
  | (Throw _, w', trace) =>
      keepsTimers w w' /\ Forall imageInRange trace
  end.
Proof.
  intros Hf. unfold testPrintFrame.
  assert (Hin : nth_error (projectionImages r) currentFrame <> None)
    by (apply nth_error_Some; exact Hf).
  assert (Hmod : (currentFrame + 1) mod List.length (projectionImages r)
                 < List.length (projectionImages r))
    by (apply Nat.mod_upper_bound; lia).
  unfold bind at 1. unfold getApp at 1.
  destruct (isConnectedState (presentationConnectionRef (app w))).
  - destruct (presentationConnectionRef (app w)) as [[c [ | | | ]]|]; cbn;
      repeat split; try assumption; try reflexivity;
      repeat constructor; assumption.
  - destruct (safe_stopTestPrint w) as [H1 T1].
    unfold bind, worldAfter, traceOf in *.
    destruct (stopTestPrint w) as [[[[]|e] w1] t1]; cbn [fst snd ret] in *.
    + rewrite app_nil_r. auto.
    + auto.
Qed.

Lemma safe_runTimer (t : Timer) : timerOk t -> safe (runTimer t).
Proof.
  intros Ht. unfold runTimer, removeTimer.
  apply respects_bind; try exact _; [auto with handlers|]. intro.
  unfold timerOk in Ht.
  destruct (callback t) as [r n | r f].
  - apply safe_runSimulationStep. exact Ht.
  - intros w. pose proof (testPrintFrame_in_range r f w Ht) as H.
    unfold bind, worldAfter, traceOf.
    destruct (testPrintFrame r f w) as [[[f'|e] w1] t1]; cbn [fst snd].
    + destruct H as (Hf' & H1 & T1).
      destruct (safe_updateCallback (timerId t) (TestPrintFrame r f') Hf' w1)
        as [H2 T2].
      unfold worldAfter, traceOf in *.
      destruct (updateCallback _ _ w1) as [[res w2] t2]; cbn [fst snd] in *.
      split; [etransitivity; eassumption | apply Forall_app; split; assumption].
    + exact H.
Qed.

Lemma safe_promiseAll (entries : list ZipEntry) : safe (promiseAll entries).
Proof.
  induction entries as [|e rest IH]; cbn [promiseAll]; [auto with handlers|].
  destruct (base64 e); [|auto with handlers].
  apply respects_bind; try exact _; [exact IH | intro; auto with handlers].
Qed.

#[local] Hint Resolve safe_promiseAll safe_runSimulationStep safe_handlePrint
  safe_handleTestPrint safe_handleCalibration : handlers.

Lemma safe_handleImportJob (file : option File) : safe (handleImportJob file).
Proof.
  unfold handleImportJob, importBody. unfold_setters. respects_steps.
Qed.

(** Every handler but the firing of a timer is safe as it stands; a timer
    is safe to fire when its closure is well formed. *)
Lemma handle_timersOk (r : App) (e : Event) (w : World) :
  Forall timerOk (timers w) ->
  Forall timerOk (timers (worldAfter (handle r e w))) /\
  Forall imageInRange (traceOf (handle r e w)).
Proof.
  intro Hw.
  assert (Hsafe : (forall n, e <> TimerFired n) -> safe (handle r e)).
  { intro Hne. destruct e; cbn [handle];
      try (unfold_event_handlers; unfold_setters; solve [respects_steps]).
    - apply respects_bind; try exact _; [apply safe_handleImportJob | intro].
      unfold_event_handlers; unfold_setters; respects_steps.
    - exfalso. eapply Hne. reflexivity. }
  destruct e; try (destruct (Hsafe ltac:(discriminate) w) as [H T];
                   split; [exact (H Hw) | exact T]).
  cbn [handle]. unfold fireTimer.
  destruct (nth_error (timers w) n) as [t|] eqn:E.
  - assert (Ht : timerOk t).
    { apply nth_error_In in E. exact (proj1 (Forall_forall _ _) Hw t E). }
    destruct (safe_runTimer t Ht w) as [H T]. split; [exact (H Hw) | exact T].
  - split; [exact Hw | constructor].
Qed.

Lemma step_timersOk (w w' : World) (e : Event) (trace : list Effect) :
  step w e = Some (w', trace) ->
  Forall timerOk (timers w) ->
  Forall timerOk (timers w') /\ Forall imageInRange trace.
Proof.
  unfold step. intros Hstep Hw.
  destruct (enabled (app w) e); [|discriminate].
  destruct (handle_timersOk (app w) e w Hw) as [H1 T1].
  unfold worldAfter, traceOf in *.
  destruct (handle (app w) e w) as [[res w1] t1]; cbn [fst snd] in *.
  inversion Hstep; subst. split; assumption.
Qed.

Lemma reachable_timersOk (w : World) : reachable w -> Forall timerOk (timers w).
Proof.
  induction 1 as [|w e w' trace _ IH Hstep]; [constructor|].
  exact (proj1 (step_timersOk w w' e trace Hstep IH)).
Qed.

Lemma run_reachable (events : list Event) :
  forall w w' trace,
    run w events = Some (w', trace) -> reachable w -> reachable w'.
Proof.
  induction events as [|e rest IH]; cbn [run]; intros w w' trace Hrun Hw.
  - inversion Hrun; subst. exact Hw.
  - destruct (step w e) as [[w1 t1]|] eqn:Hstep; [|discriminate].
    destruct (run w1 rest) as [[w2 t2]|] eqn:Hrest; [|discriminate].
    inversion Hrun; subst.
    eapply IH; [exact Hrest|]. eapply reachable_step; eassumption.
Qed.

(** C10.  In every turn of the event loop from a reachable state, each image
    that a frame loop sends was found inside the image set; and of the
    pending timers, the counter of a test playback is below the length of
    its images, and a step of the simulated print compares the current frame
    with the length of its images. *)
Theorem frame_lookups_in_bounds (w w' : World) (e : Event) (trace : list Effect) :
  reachable w ->
  step w e = Some (w', trace) ->
  (forall connection imageUrl,
     In (Send connection (UPDATE_IMAGE imageUrl)) trace ->
     exists image, imageUrl = Some image) /\
  (forall t r currentFrame,
     In t (timers w) -> callback t = TestPrintFrame r currentFrame ->
     currentFrame < List.length (projectionImages r)) /\
  (forall t r totalFrames,
     In t (timers w) -> callback t = RunSimulationStep r totalFrames ->
     totalFrames = List.length (projectionImages r)).
Proof.
  intros Hw Hstep.
  pose proof (reachable_timersOk w Hw) as Hok.
  destruct (step_timersOk w w' e trace Hstep Hok) as [_ Htrace].
  split; [|split].
  - intros c u Hin.
    pose proof (proj1 (Forall_forall _ _) Htrace _ Hin) as Hu. cbn in Hu.
    destruct u as [image|]; [exists image; reflexivity | contradiction].
  - intros t r f Hin Hcb.
    pose proof (proj1 (Forall_forall _ _) Hok t Hin) as Ht.
    unfold timerOk in Ht. rewrite Hcb in Ht. exact Ht.
  - intros t r n Hin Hcb.
    pose proof (proj1 (Forall_forall _ _) Hok t Hin) as Ht.
    unfold timerOk in Ht. rewrite Hcb in Ht. exact Ht.
Qed.

Lemma simulatedPrintWorld_reachable : reachable simulatedPrintWorld.
Proof.
  apply (run_reachable simulatedPrintEvents initialWorld simulatedPrintWorld
           (snd (match run initialWorld simulatedPrintEvents with
                 | Some x => x
                 | None => (initialWorld, [])
                 end))).
  - vm_compute. reflexivity.
  - constructor.
Defined.

Lemma frame_lookups_in_bounds_witness :
  exists w' trace,
    step simulatedPrintWorld (TimerFired 0) = Some (w', trace) /\
    forall connection imageUrl,
      In (Send connection (UPDATE_IMAGE imageUrl)) trace ->
      exists image, imageUrl = Some image.
Proof.
  destruct (step simulatedPrintWorld (TimerFired 0)) as [[w' trace]|] eqn:E;
    [|vm_compute in E; discriminate E].
  exists w', trace. split; [reflexivity|].
  exact (proj1 (frame_lookups_in_bounds simulatedPrintWorld w' (TimerFired 0)
                  trace simulatedPrintWorld_reachable E)).
Defined.

(** ** Sessions that exclude each other *)

#[local] Instance lowers_PreOrder : PreOrder lowers.
Proof.
  split.
  - intro w. repeat split; auto.
  - intros w1 w2 w3 (A1 & B1 & C1) (A2 & B2 & C2). repeat split; auto.
Qed.

#[local] Instance keepsTestAndCalibration_PreOrder : PreOrder keepsTestAndCalibration.
Proof.
  split.
  - intro w. split; reflexivity.
  - intros w1 w2 w3 (A1 & B1) (A2 & B2). split; congruence.
Qed.

Lemma exclusive_lowers (w w' : World) :
  lowers w w' -> exclusive (app w) -> exclusive (app w').
Proof.
  intros (Hp & Ht & Hc) (H1 & H2). unfold exclusive.
  destruct (isPrinting (app w')), (isTestPrinting (app w')),
    (isCalibrating (app w')); cbn; split; try reflexivity;
    try (rewrite (Hp eq_refl) in H2); try (rewrite (Ht eq_refl) in H1, H2);
    try (rewrite (Hc eq_refl) in H1); cbn in H1, H2; congruence.
Qed.

Ltac pure_step :=
  apply respects_pure; try exact _; intro;
  cbv [lowers keepsTestAndCalibration]; cbn; repeat split;
  solve [ reflexivity | intro; assumption | intro; discriminate ].

#[local] Hint Extern 1 (respects _ anyEffect (emit _)) =>
  (apply respects_emit; try exact _; exact I) : handlers.
#[local] Hint Extern 1 (respects _ anyEffect (modifyApp _)) =>
  (unfold modifyApp; pure_step) : handlers.
#[local] Hint Extern 1 (respects _ anyEffect (clearTimer _)) =>
  (unfold clearTimer; pure_step) : handlers.
#[local] Hint Extern 1 (respects _ anyEffect (addTimer _ _ _)) =>
  (unfold addTimer; pure_step) : handlers.
#[local] Hint Extern 1 (respects _ anyEffect (updateCallback _ _)) =>
  (unfold updateCallback; pure_step) : handlers.

Lemma calm_stopTestPrint : calm stopTestPrint.
Proof. unfold stopTestPrint. unfold_setters. respects_steps. Qed.

Lemma calm_stopPrint (r : App) : calm (stopPrint r).
Proof. unfold stopPrint. unfold_setters. respects_steps. Qed.

#[local] Hint Resolve calm_stopTestPrint calm_stopPrint : handlers.

Lemma calm_runSimulationStep (r : App) (n : nat) : calm (runSimulationStep r n).
Proof. unfold runSimulationStep. unfold_setters. respects_steps. Qed.

Lemma calm_testPrintFrame (r : App) (f : nat) : calm (testPrintFrame r f).
Proof. unfold testPrintFrame. unfold_setters. respects_steps. Qed.

#[local] Hint Resolve calm_runSimulationStep calm_testPrintFrame : handlers.

Lemma calm_fireTimer (n : nat) : calm (fireTimer n).
Proof.
  intro w. unfold fireTimer.
  destruct (nth_error (timers w) n) as [t|].
  - revert w. change (calm (runTimer t)).
    unfold runTimer. unfold_setters. respects_steps.
  - split; [reflexivity | constructor].
Qed.

Lemma calm_promiseAll (entries : list ZipEntry) : calm (promiseAll entries).
Proof.
  induction entries as [|e rest IH]; cbn [promiseAll]; [auto with handlers|].
  destruct (base64 e); [|auto with handlers].
  apply respects_bind; try exact _; [exact IH | intro; auto with handlers].
Qed.

#[local] Hint Resolve calm_fireTimer calm_promiseAll : handlers.

Lemma calm_handleImportJob (file : option File) : calm (handleImportJob file).
Proof.
  unfold handleImportJob, importBody. unfold_setters. respects_steps.
Qed.

Lemma calm_handle (r : App) (e : Event) :
  startsSession e = false -> calm (handle r e).
Proof.
  intro He. destruct e; try discriminate He; cbn [handle];
    try (unfold_event_handlers; unfold_setters; solve [respects_steps]).
  apply respects_bind; try exact _; [apply calm_handleImportJob | intro].
  unfold_event_handlers; unfold_setters; respects_steps.
Qed.

(** Starting or stopping a print leaves test playback and calibration as
    they are. *)
Lemma besidePrint_stopPrint (r : App) : besidePrint (stopPrint r).
Proof. unfold stopPrint. unfold_setters. respects_steps. Qed.

#[local] Hint Resolve besidePrint_stopPrint : handlers.

Lemma besidePrint_handlePrint (r : App) (rejected : option string) :
  besidePrint (handlePrint r rejected).
Proof.
  unfold handlePrint, runSimulationStep, writeValue. unfold_setters.
  respects_steps.
Qed.

(** Test playback starts only with no print active, and ends calibration. *)
Lemma handleTestPrint_exclusive (w : World) :
  isPrinting (app w) = false ->
  exclusive (app w) ->
  exclusive (app (worldAfter (handleTestPrint (app w) w))).
Proof.
  intros Hp Hex. unfold handleTestPrint.
  destruct (isTestPrinting (app w)) eqn:Et.
  - exact (exclusive_lowers _ _ (proj1 (calm_stopTestPrint w)) Hex).
  - destruct (List.length (projectionImages (app w)) =? 0); [exact Hex|].
    unfold bind at 1. unfold getApp at 1.
    destruct (negb (isConnectedState (presentationConnectionRef (app w))));
      [exact Hex|].
    unfold_handlers. unfold exclusive.
    destruct (isCalibrating (app w)) eqn:Ec; cbn; rewrite ?Ec, Hp;
      split; reflexivity.
Qed.

(** Calibration is toggled only after test playback has been stopped. *)
Lemma handleCalibration_exclusive (w : World) :
  exclusive (app w) ->
  exclusive (app (worldAfter (handleCalibration (app w) w))).
Proof.
  destruct w as [a ts nid]. destruct a. unfold exclusive. cbn.
  intros [H1 H2]. unfold_handlers. cbn.
  destruct presentationConnectionRef0 as [[c []]|]; cbn;
    try (split; assumption);
    destruct isTestPrinting0; cbn;
    try destruct (truthy testPrintIntervalRef0); cbn;
    rewrite ?andb_false_r; split; reflexivity.
Qed.

Lemma step_exclusive (w w' : World) (e : Event) (trace : list Effect) :
  step w e = Some (w', trace) -> exclusive (app w) -> exclusive (app w').
Proof.
  unfold step. intros Hstep Hex.
  destruct (enabled (app w) e) eqn:Hen; [|discriminate].
  assert (Hw' : w' = worldAfter (handle (app w) e w)).
  { destruct (handle (app w) e w) as [[res w1] t1].
    inversion Hstep. reflexivity. }
  subst w'. clear Hstep.
  destruct (startsSession e) eqn:Hs.
  - destruct e; try discriminate Hs; cbn [handle enabled] in *.
    + (* the Test button *)
      apply handleTestPrint_exclusive; [|exact Hex].
      destruct (isPrinting (app w)); [|reflexivity].
      rewrite orb_true_r in Hen. discriminate Hen.
    + (* the Print button *)
      assert (Ht : isTestPrinting (app w) = false).
      { destruct (isTestPrinting (app w)); [|reflexivity].
        rewrite orb_true_r in Hen. cbn in Hen. discriminate Hen. }
      assert (Hk : keepsTestAndCalibration w
                (worldAfter ((if isPrinting (app w) then stopPrint (app w)
                              else handlePrint (app w) rejected) w))).
      { destruct (isPrinting (app w)).
        - exact (proj1 (besidePrint_stopPrint (app w) w)).
        - exact (proj1 (besidePrint_handlePrint (app w) rejected w)). }
      destruct Hk as [Hk1 Hk2]. destruct Hex as [H1 H2].
      unfold exclusive. rewrite Hk1, Hk2, Ht, andb_false_r. split; reflexivity.
    + (* the Calibrate button *)
      apply handleCalibration_exclusive. exact Hex.
  - exact (exclusive_lowers _ _ (proj1 (calm_handle (app w) e Hs w)) Hex).
Qed.

(** C2, as the code has it.  In every reachable state test playback and
    calibration are not both active, and a print and test playback are not
    both active. *)
Theorem sessions_exclusive (w : World) :
  reachable w -> exclusive (app w).
Proof.
  induction 1 as [|w e w' trace _ IH Hstep].
  - split; reflexivity.
  - exact (step_exclusive w w' e trace Hstep IH).
Qed.

Lemma sessions_exclusive_witness : exclusive (app simulatedPrintWorld).
Proof. exact (sessions_exclusive simulatedPrintWorld simulatedPrintWorld_reachable). Defined.

(** C2 as stated fails: with a simulated print running, a click on Calibrate
    enters calibration and the print stays active. *)
Lemma printing_and_calibrating_reachable :
  exists w,
    run initialWorld (simulatedPrintEvents ++ [ClickCalibration]) = Some w /\
    reachable (fst w) /\
    isPrinting (app (fst w)) = true /\
    isCalibrating (app (fst w)) = true.
Proof.
  destruct (run initialWorld (simulatedPrintEvents ++ [ClickCalibration]))
    as [[w trace]|] eqn:E; [|vm_compute in E; discriminate E].
  exists (w, trace). split; [reflexivity|]. cbn [fst].
  split; [exact (run_reachable _ _ _ _ E reachable_initial)|].
  vm_compute in E. inversion E. split; reflexivity.
Qed.

(** ** The calibration offset *)

Lemma lookupProperty_In (key : string) (v : JsonValue)
    (properties : list (string * JsonValue)) :
  NoDup (map fst properties) ->
  In (key, v) properties ->
  lookupProperty key properties = Some v.
Proof.
  induction properties as [|[k v'] rest IH]; cbn [lookupProperty map fst];
    intros Hnd Hin; [contradiction|].
  inversion Hnd as [|k' ks Hk Hrest]; subst.
  destruct Hin as [E|Hin].
  - inversion E; subst. rewrite String.eqb_refl. reflexivity.
  - destruct (String.eqb_spec k key) as [->|_]; [|exact (IH Hrest Hin)].
    exfalso. apply Hk. apply in_map_iff. exists (key, v). split; [reflexivity|].
    exact Hin.
Qed.

Lemma lookupProperty_Some (key : string) (v : JsonValue)
    (properties : list (string * JsonValue)) :
  lookupProperty key properties = Some v -> In (key, v) properties.
Proof.
  induction properties as [|[k v'] rest IH]; cbn [lookupProperty];
    [discriminate|].
  destruct (String.eqb_spec k key) as [->|_].
  - intro E. inversion E. left. reflexivity.
  - intro E. right. exact (IH E).
Qed.

(** C9.  Loading the calibration offset raises no error and sends nothing.
    When the storage holds a text that parses to a record with a number
    under [x] and a number under [y], the two numbers become [translateX]
    and [translateY]; scale and contrast, and every other cell, timer and
    ref, stay as they are.  When the storage cannot be read, holds no item
    or the empty text, or holds a text that does not parse or that lacks a
    number under [x] or under [y], nothing changes. *)
Theorem calibration_offset_load (JSON_parse : string -> option JsonValue)
    (getItem : StorageRead) (w : World) :
  let outcome := loadCalibrationOffset JSON_parse getItem w in
  let before := alignmentParams (app w) in
  let after := alignmentParams (app (worldAfter outcome)) in
  resultOf outcome = Ok tt /\
  traceOf outcome = [] /\
  sameButAlignment w (worldAfter outcome) /\
  sameButOffset before after /\
  (forall text properties x y,
     getItem = StorageItem (Some text) ->
     text <> EmptyString ->
     JSON_parse text = Some (JObject properties) ->
     NoDup (map fst properties) ->
     In ("x"%string, JNumber x) properties ->
     In ("y"%string, JNumber y) properties ->
     translateX after = x /\ translateY after = y) /\
  (nothingToLoad JSON_parse getItem -> worldAfter outcome = w).
Proof.
  cbv zeta.
  assert (Hrun :
    loadCalibrationOffset JSON_parse getItem w
    = (Ok tt,
       match getItem with
       | StorageItem (Some (String c s)) =>
           match JSON_parse (String c s) with
           | Some (JObject properties) =>
               match lookupProperty "x" properties,
                     lookupProperty "y" properties with
               | Some (JNumber x), Some (JNumber y) =>
                   {| app :=
                        with_alignmentParams
                          {| scale := scale (alignmentParams (app w));
                             translateX := x; translateY := y;
                             contrast := contrast (alignmentParams (app w)) |}
                          (app w);
                      timers := timers w;
                      nextTimerId := nextTimerId w |}
               | _, _ => w
               end
           | _ => w
           end
       | _ => w
       end, [])).
  { unfold loadCalibrationOffset, getProperty, setAlignmentParams.
    cbv [try_catch bind ret throw modifyApp].
    destruct w as [a ts nid].
    destruct getItem as [e | [[|c s]|]]; cbn; try reflexivity.
    destruct (JSON_parse (String c s)) as [v|]; cbn; [|reflexivity].
    destruct v as [ | b | n | t | items | properties]; cbn; try reflexivity.
    destruct (lookupProperty "x" properties) as [[ | | x | | | ]|]; cbn;
      try reflexivity.
    destruct (lookupProperty "y" properties) as [[ | | y | | | ]|]; cbn;
      reflexivity. }
  rewrite Hrun. cbn [resultOf worldAfter traceOf fst snd].
  assert (Hsame : forall w0 : World, sameButAlignment w0 w0).
  { intros [a ts nid]. exists (alignmentParams a). destruct a. reflexivity. }
  split; [reflexivity|]. split; [reflexivity|].
  split; [|split; [|split]].
  - destruct getItem as [e | [[|c s]|]]; try apply Hsame.
    destruct (JSON_parse (String c s)) as [[ | | | | | properties]|];
      try apply Hsame.
    destruct (lookupProperty "x" properties) as [[ | | x | | | ]|];
      try apply Hsame.
    destruct (lookupProperty "y" properties) as [[ | | y | | | ]|];
      try apply Hsame.
    eexists. reflexivity.
  - unfold sameButOffset.
    destruct getItem as [e | [[|c s]|]]; try (split; reflexivity).
    destruct (JSON_parse (String c s)) as [[ | | | | | properties]|];
      try (split; reflexivity).
    destruct (lookupProperty "x" properties) as [[ | | x | | | ]|];
      try (split; reflexivity).
    destruct (lookupProperty "y" properties) as [[ | | y | | | ]|];
      split; reflexivity.
  - intros text properties x y -> Hne Hparse Hnd Hx Hy.
    destruct text as [|c s]; [contradiction|].
    rewrite Hparse.
    rewrite (lookupProperty_In "x" _ _ Hnd Hx),
      (lookupProperty_In "y" _ _ Hnd Hy).
    split; reflexivity.
  - unfold nothingToLoad, holdsNumber.
    destruct getItem as [e | [[|c s]|]]; try reflexivity.
    intros [E|H]; [discriminate E|].
    destruct (JSON_parse (String c s)) as [[ | | | | | properties]|];
      try reflexivity.
    destruct (lookupProperty "x" properties) as [[ | | x | | | ]|] eqn:Ex;
      try reflexivity.
    destruct (lookupProperty "y" properties) as [[ | | y | | | ]|] eqn:Ey;
      try reflexivity.
    exfalso. destruct H as [H|H]; apply H; eexists _, _;
      (split; [reflexivity|]);
      [exact (lookupProperty_Some _ _ _ Ex) | exact (lookupProperty_Some _ _ _ Ey)].
Qed.

Lemma calibration_offset_load_witness :
  let stored := StorageItem (Some "offset of the last session"%string) in
  let outcome := loadCalibrationOffset (parsesTo storedRecord) stored initialWorld in
  resultOf outcome = Ok tt /\
  alignmentParams (app (worldAfter outcome))
  = {| scale := 100; translateX := 5; translateY := -3; contrast := 100 |} /\
  worldAfter (loadCalibrationOffset (parsesTo (JObject [("x"%string, JNumber 5)]))
                stored initialWorld)
  = initialWorld.
Proof.
  cbv zeta.
  pose proof (calibration_offset_load (parsesTo storedRecord)
                (StorageItem (Some "offset of the last session"%string))
                initialWorld) as H.
  cbv zeta in H. destruct H as (Hres & _ & _ & Hsame & Hload & _).
  destruct (Hload "offset of the last session"%string
              [("x"%string, JNumber 5); ("scale"%string, JNumber 2);
               ("y"%string, JNumber (-3))] 5%Q (-3)%Q
              eq_refl ltac:(discriminate) eq_refl) as [Hx Hy].
  - repeat constructor; cbn; intuition discriminate.
  - left. reflexivity.
  - right. right. left. reflexivity.
  - split; [exact Hres|]. split.
    + destruct Hsame as [Hs Hc].
      destruct (alignmentParams (app (worldAfter _))) as [sc tx ty co].
      cbn in *. subst. reflexivity.
    + apply (calibration_offset_load
               (parsesTo (JObject [("x"%string, JNumber 5)]))
               (StorageItem (Some "offset of the last session"%string))
               initialWorld).
      right. cbn. right. intros (properties & n & E & Hin).
      inversion E; subst. destruct Hin as [Hin|[]]. discriminate Hin.
Defined.

(** ** Import of a job archive *)

Lemma promiseAll_pure (entries : list ZipEntry) (w : World) :
  worldAfter (promiseAll entries w) = w /\ traceOf (promiseAll entries w) = [].
Proof.
  induction entries as [|e rest IH]; cbn [promiseAll]; [split; reflexivity|].
  destruct (base64 e); [|split; reflexivity].
  unfold bind, worldAfter, traceOf in *.
  destruct (promiseAll rest w) as [[[imgs|err] w1] t1]; cbn [fst snd ret] in *;
    destruct IH as [-> ->]; split; reflexivity.
Qed.




(** ** Export followed by import *)

Lemma lists_differ {X} (l1 l2 : list X) (n : nat) (x y : X) :
  nth_error l1 n = Some x -> nth_error l2 n = Some y -> x <> y -> l1 <> l2.
Proof. intros H1 H2 Hxy Heq. subst l2. congruence. Qed.

Lemma import_of_10001_images :
  let r := slicedApp tenThousandAndOne in
  let outcome := handleImportJob (Some (exportedFile r)) initialWorld in
  resultOf outcome = Ok None /\
  List.length (projectionImages (app (worldAfter outcome))) = tenThousandAndOne /\
  nth_error (projectionImages r) 1001 = Some (imageData 1001) /\
  nth_error (projectionImages (app (worldAfter outcome))) 1001
  = Some (imageData 10000).
Proof. vm_compute. repeat split. Qed.

Lemma imageData_10000_1001 : imageData 10000 <> imageData 1001.
Proof. vm_compute. intro H. discriminate H. Qed.

(** C5 on the code: from 10001 images on, the names that export writes are
    no longer of one width, and import, which sorts by name, puts the image
    with index 10000 between those with index 1000 and 1001. *)
Theorem roundtrip_reorders_10001_images :
  let r := slicedApp tenThousandAndOne in
  let outcome := handleImportJob (Some (exportedFile r)) initialWorld in
  resultOf outcome = Ok None /\
  List.length (projectionImages r) = tenThousandAndOne /\
  nth_error (projectionImages r) 1001 = Some (imageData 1001) /\
  nth_error (projectionImages (app (worldAfter outcome))) 1001
  = Some (imageData 10000) /\
  projectionImages (app (worldAfter outcome)) <> projectionImages r.
Proof.
  intros r outcome.
  destruct import_of_10001_images as (H1 & _ & H3 & H4).
  split; [exact H1|]. split; [vm_compute; reflexivity|].
  split; [exact H3|]. split; [exact H4|].
  exact (lists_differ _ _ 1001 _ _ H4 H3 imageData_10000_1001).
Qed.

(** *** Bytes and their base64 text *)

Lemma in_byteRange (b : N) : isByte b -> In b byteRange.
Proof.
  intro H. unfold byteRange. apply in_map_iff. exists (N.to_nat b).
  split; [apply N2Nat.id|]. apply in_seq. unfold isByte in H. lia.
Qed.

Lemma forall_bytes (P : N -> bool) :
  forallb P byteRange = true -> forall a, isByte a -> P a = true.
Proof.
  intros H a Ha. exact (proj1 (forallb_forall _ _) H a (in_byteRange a Ha)).
Qed.

Lemma forall_bytes2 (P : N -> N -> bool) :
  forallb (fun a => forallb (P a) byteRange) byteRange = true ->
  forall a b, isByte a -> isByte b -> P a b = true.
Proof.
  intros H a b Ha Hb.
  exact (forall_bytes (P a) (forall_bytes _ H a Ha) b Hb).
Qed.

Lemma keyOk_all : forallb keyOk (map N.of_nat (seq 0 65)) = true.
Proof. vm_compute. reflexivity. Qed.

Lemma keyChar_spec (e : N) :
  (e <= 64)%N ->
  exists c, keyChar e = String c EmptyString /\ keyIndex c = Some e /\
            c <> ":"%char /\ c <> ","%char.
Proof.
  intro He.
  assert (Hin : In e (map N.of_nat (seq 0 65))).
  { apply in_map_iff. exists (N.to_nat e). split; [apply N2Nat.id|].
    apply in_seq. lia. }
  pose proof (proj1 (forallb_forall _ _) keyOk_all e Hin) as H.
  unfold keyOk in H. destruct (keyChar e) as [|c [|c' s]]; try discriminate H.
  exists c. split; [reflexivity|].
  apply andb_prop in H. destruct H as [H Hcomma].
  apply andb_prop in H. destruct H as [H Hcolon].
  destruct (keyIndex c) as [e'|]; [|discriminate H].
  apply N.eqb_eq in H. subst e'. split; [reflexivity|].
  split; intro Hc; subst c; discriminate.
Qed.

Lemma groupOk_all :
  forallb (fun a => forallb (groupOk a) byteRange) byteRange = true.
Proof. vm_compute. reflexivity. Qed.

Lemma group_spec (a b : N) :
  isByte a -> isByte b ->
  N.lor (N.shiftl (enc1 a) 2) (N.shiftr (enc2 a b) 4) = a /\
  N.land (enc2 a b) 15 = N.shiftr b 4 /\
  N.shiftr (enc3 a b) 2 = N.land a 15 /\
  N.lor (N.shiftl (N.shiftr a 4) 4) (N.land a 15) = a /\
  N.land (enc3 a b) 3 = N.shiftr b 6 /\
  N.lor (N.shiftl (N.shiftr a 6) 6) (enc4 a) = a /\
  (enc1 a < 64)%N /\ (enc2 a b < 64)%N /\ (enc3 a b < 64)%N /\ (enc4 a < 64)%N.
Proof.
  intros Ha Hb. pose proof (forall_bytes2 groupOk groupOk_all a b Ha Hb) as H.
  unfold groupOk in H.
  repeat match type of H with
         | (_ && _ = true) => apply andb_prop in H; destruct H as [H ?]
         end.
  repeat match goal with
         | E : (_ =? _)%N = true |- _ => apply N.eqb_eq in E
         | E : (_ <? _)%N = true |- _ => apply N.ltb_lt in E
         end.
  repeat split; assumption.
Qed.

Lemma chr1_spec (a b : N) :
  isByte a -> isByte b ->
  N.lor (N.shiftl (enc1 a) 2) (N.shiftr (enc2 a b) 4) = a.
Proof. intros Ha Hb. apply (group_spec a b Ha Hb). Qed.

Lemma chr2_spec (a b c : N) :
  isByte a -> isByte b -> isByte c ->
  N.lor (N.shiftl (N.land (enc2 a b) 15) 4) (N.shiftr (enc3 b c) 2) = b.
Proof.
  intros Ha Hb Hc.
  destruct (group_spec a b Ha Hb) as (_ & -> & _).
  destruct (group_spec b c Hb Hc) as (_ & _ & -> & H & _). exact H.
Qed.

Lemma chr3_spec (b c : N) :
  isByte b -> isByte c ->
  N.lor (N.shiftl (N.land (enc3 b c) 3) 6) (enc4 c) = c.
Proof.
  intros Hb Hc.
  destruct (group_spec b c Hb Hc) as (_ & _ & _ & _ & -> & _).
  destruct (group_spec c c Hc Hc) as (_ & _ & _ & _ & _ & H & _). exact H.
Qed.

Lemma isByte_0 : isByte 0.
Proof. reflexivity. Qed.

Lemma list_ind3 {A} (P : list A -> Prop) :
  P [] -> (forall a, P [a]) -> (forall a b, P [a; b]) ->
  (forall a b c l, P l -> P (a :: b :: c :: l)) ->
  forall l, P l.
Proof.
  intros H0 H1 H2 H3.
  fix IH 1. intros [|a [|b [|c l]]];
    [exact H0 | apply H1 | apply H2 | apply H3; apply IH].
Qed.

Lemma stripped_keyChar (e : N) (s : string) :
  (e <= 64)%N -> stripped (keyChar e ++ s) = e :: stripped s.
Proof.
  intro He. destruct (keyChar_spec e He) as (c & -> & Hc & _).
  cbn [String.append stripped]. rewrite Hc. reflexivity.
Qed.

Lemma string_app_assoc (a b c : string) : ((a ++ b) ++ c = a ++ (b ++ c))%string.
Proof. induction a as [|x a IH]; cbn; [reflexivity | now rewrite IH]. Qed.

Lemma string_app_nil_r (a : string) : (a ++ "")%string = a.
Proof. induction a as [|x a IH]; cbn; [reflexivity | now rewrite IH]. Qed.

Lemma stripped_encodeGroup (e1 e2 e3 e4 : N) (s : string) :
  (e1 <= 64)%N -> (e2 <= 64)%N -> (e3 <= 64)%N -> (e4 <= 64)%N ->
  stripped ((keyChar e1 ++ keyChar e2 ++ keyChar e3 ++ keyChar e4) ++ s)
  = e1 :: e2 :: e3 :: e4 :: stripped s.
Proof.
  intros H1 H2 H3 H4. rewrite !string_app_assoc.
  rewrite !stripped_keyChar by assumption. reflexivity.
Qed.

Ltac byte_facts :=
  repeat match goal with
         | H : Forall isByte (_ :: _) |- _ => inversion H; subst; clear H
         end.

Ltac bounds a b :=
  let H := fresh in
  pose proof (group_spec a b ltac:(assumption || exact isByte_0)
                         ltac:(assumption || exact isByte_0)) as H;
  destruct H as (_ & _ & _ & _ & _ & _ & ? & ? & ? & ?).

Lemma stripped_encode (input : list N) :
  Forall isByte input -> stripped (encode input) = sextets input.
Proof.
  induction input as [|a|a b|a b c rest IH] using list_ind3; intro H;
    byte_facts; cbn [encode sextets]; unfold encodeGroup;
    cbn [Nat.ltb Nat.leb].
  - reflexivity.
  - bounds a 0%N. rewrite <- (string_app_nil_r (_ ++ _ ++ _ ++ _)).
    rewrite stripped_encodeGroup by (fold (enc1 a) (enc2 a 0); lia).
    reflexivity.
  - bounds a b. bounds b 0%N.
    rewrite <- (string_app_nil_r (_ ++ _ ++ _ ++ _)).
    rewrite stripped_encodeGroup
      by (fold (enc1 a) (enc2 a b) (enc3 b 0); lia).
    reflexivity.
  - bounds a b. bounds b c. bounds c c.
    rewrite stripped_encodeGroup
      by (fold (enc1 a) (enc2 a b) (enc3 b c) (enc4 c); lia).
    rewrite IH by assumption. reflexivity.
Qed.

Lemma not_pad (e : N) : (e < 64)%N -> (e =? 64)%N = false.
Proof. intro H. apply N.eqb_neq. lia. Qed.

Lemma decodedGroups_sextets (input : list N) :
  Forall isByte input -> decodedGroups (sextets input) = input.
Proof.
  induction input as [|a|a b|a b c rest IH] using list_ind3; intro H;
    byte_facts; cbn [sextets decodedGroups List.app].
  - reflexivity.
  - rewrite (chr1_spec a 0) by (assumption || exact isByte_0). reflexivity.
  - bounds b 0%N.
    rewrite (chr1_spec a b), (chr2_spec a b 0)
      by (assumption || exact isByte_0).
    rewrite (not_pad (enc3 b 0)) by assumption. reflexivity.
  - bounds b c. bounds c c.
    rewrite (chr1_spec a b), (chr2_spec a b c), (chr3_spec b c) by assumption.
    rewrite (not_pad (enc3 b c)), (not_pad (enc4 c)) by assumption.
    cbn [List.app]. rewrite IH by assumption. reflexivity.
Qed.

Lemma isPad_Some (e : N) : isPad (Some e) = (e =? 64)%N.
Proof. destruct e as [|p]; [reflexivity|]. cbn. 
  destruct (Pos.eqb_spec p 64) as [->|Hp]; [reflexivity|].
  do 7 (destruct p as [p|p|]; try reflexivity). all: try (exfalso; apply Hp; reflexivity).
Qed.

Lemma totalLength_sextets (input : list N) :
  Forall isByte input ->
  totalLength (sextets input) = N.of_nat (List.length input) /\
  exists k, List.length (sextets input) = 4 * k.
Proof.
  induction input as [|a|a b|a b c rest IH] using list_ind3; intro H;
    byte_facts.
  - split; [reflexivity|]. exists 0. reflexivity.
  - split; [reflexivity|]. exists 1. reflexivity.
  - bounds b 0%N. split; [|exists 1; reflexivity].
    unfold totalLength. cbn [sextets rev List.app nth_error List.length].
    rewrite isPad_Some, (isPad_Some (enc3 b 0)), (not_pad (enc3 b 0)) by assumption.
    reflexivity.
  - bounds b c. bounds c c.
    destruct (IH ltac:(assumption)) as (Ht & k & Hlen).
    change (sextets (a :: b :: c :: rest))
      with ([enc1 a; enc2 a b; enc3 b c; enc4 c] ++ sextets rest).
    set (es := sextets rest) in *. clearbody es.
    split; [|exists (S k); rewrite length_app, Hlen; cbn [List.length]; lia].
    replace (N.of_nat (List.length (a :: b :: c :: rest)))
      with (3 + N.of_nat (List.length rest))%N by (cbn [List.length]; lia).
    rewrite <- Ht. unfold totalLength.
    destruct k as [|k].
    + destruct es; [|discriminate Hlen].
      cbn [rev List.app nth_error List.length].
      rewrite !isPad_Some, (not_pad (enc3 b c)), (not_pad (enc4 c)) by assumption.
      reflexivity.
    + rewrite rev_app_distr.
      rewrite !nth_error_app1 by (rewrite length_rev; lia).
      rewrite length_app. cbn [List.length]. rewrite Hlen.
      replace (N.of_nat (4 + 4 * S k) * 3)%N
        with ((3 + 3 * N.of_nat (S k)) * 4)%N by lia.
      replace (N.of_nat (4 * S k) * 3)%N with ((3 * N.of_nat (S k)) * 4)%N by lia.
      rewrite !N.div_mul by discriminate.
      destruct (isPad (nth_error (rev es) 0)), (isPad (nth_error (rev es) 1));
        lia.
Qed.

Lemma prefix_colon_encode (input : list N) :
  Forall isByte input -> String.prefix ":" (encode input) = false.
Proof.
  intro H. destruct input as [|a [|b [|c rest]]]; byte_facts;
    cbn [encode]; [reflexivity|..]; unfold encodeGroup;
    (assert (He : (N.shiftr a 2 <= 64)%N)
       by (bounds a a; fold (enc1 a); lia));
    destruct (keyChar_spec _ He) as (x & -> & _ & Hx & _);
    cbn [String.append String.prefix];
    (destruct (ascii_dec ":" x) as [E|_]; [|reflexivity]);
    exfalso; apply Hx; symmetry; exact E.
Qed.

Ltac single_chars :=
  repeat match goal with
         | |- context [keyChar ?e] =>
             let x := fresh "x" in
             let E := fresh "E" in
             destruct (keyChar_spec e ltac:(unfold enc1, enc2, enc3, enc4 in *; lia))
               as (x & E & _);
             rewrite E; clear E
         end.

Lemma prefix_data_encode (input : list N) :
  Forall isByte input -> String.prefix "data:" (encode input) = false.
Proof.
  intro H. destruct input as [|a [|b [|c rest]]]; byte_facts;
    cbn [encode]; [reflexivity|..]; unfold encodeGroup; cbn [Nat.ltb Nat.leb].
  - bounds a 0%N. single_chars. cbn [String.append String.prefix].
    repeat (destruct (ascii_dec _ _); [|reflexivity]). reflexivity.
  - bounds a b. bounds b 0%N. single_chars. cbn [String.append String.prefix].
    repeat (destruct (ascii_dec _ _); [|reflexivity]). reflexivity.
  - bounds a b. bounds b c. bounds c c.
    pose proof (prefix_colon_encode rest ltac:(assumption)) as Hrest.
    single_chars. cbn [String.append String.prefix] in *.
    repeat (destruct (ascii_dec _ _); [|reflexivity]). exact Hrest.
Qed.

Lemma mod_256_bytes (input : list N) :
  Forall isByte input -> map (fun chr => (chr mod 256)%N) input = input.
Proof.
  induction 1 as [|b l Hb _ IH]; cbn [map]; [reflexivity|].
  rewrite IH. rewrite N.mod_small by exact Hb. reflexivity.
Qed.

(** [decode] reads the bytes back from the text that [encode] makes of
    them. *)
Lemma decode_encode (input : list N) :
  Forall isByte input -> decode (encode input) = Some input.
Proof.
  intro H. unfold decode.
  rewrite (prefix_data_encode input H), (stripped_encode input H).
  destruct (totalLength_sextets input H) as (Ht & k & Hk).
  fold (totalLength (sextets input)). rewrite Ht, Hk.
  replace (N.of_nat (4 * k) mod 4)%N with 0%N
    by (symmetry; apply N.Div0.mod_divides; exists (N.of_nat k); lia).
  cbn [N.eqb negb]. rewrite Nat2N.id.
  rewrite (decodedGroups_sextets input H), (mod_256_bytes input H).
  rewrite firstn_app, firstn_all, Nat.sub_diag. cbn [firstn].
  rewrite app_nil_r. reflexivity.
Qed.

(** A text that [encode] made is stored as it is. *)
Lemma storedBase64_encode (input : list N) :
  Forall isByte input -> storedBase64 (Some (encode input)) = Some (encode input).
Proof.
  intro H. unfold storedBase64.
  destruct (encode input) as [|c s] eqn:E; [reflexivity|].
  rewrite <- E. rewrite (decode_encode input H). reflexivity.
Qed.

Lemma noComma_app (s t : string) :
  noComma (s ++ t) = noComma s && noComma t.
Proof.
  induction s as [|c s IH]; cbn; [reflexivity|]. rewrite IH. apply andb_assoc.
Qed.

Lemma noComma_keyChar (e : N) : (e <= 64)%N -> noComma (keyChar e) = true.
Proof.
  intro He. destruct (keyChar_spec e He) as (c & -> & _ & _ & Hc).
  cbn. rewrite andb_true_r. apply negb_true_iff.
  apply Ascii.eqb_neq. exact Hc.
Qed.

Lemma noComma_encode (input : list N) :
  Forall isByte input -> noComma (encode input) = true.
Proof.
  induction input as [|a|a b|a b c rest IH] using list_ind3; intro H;
    byte_facts; cbn [encode]; unfold encodeGroup; cbn [Nat.ltb Nat.leb];
    [reflexivity|..].
  - bounds a 0%N.
    rewrite !noComma_app, !noComma_keyChar
      by (unfold enc1, enc2, enc3, enc4 in *; lia).
    reflexivity.
  - bounds a b. bounds b 0%N.
    rewrite !noComma_app, !noComma_keyChar
      by (unfold enc1, enc2, enc3, enc4 in *; lia).
    reflexivity.
  - bounds a b. bounds b c. bounds c c.
    rewrite !noComma_app, !noComma_keyChar
      by (unfold enc1, enc2, enc3, enc4 in *; lia).
    rewrite IH by assumption. reflexivity.
Qed.

Lemma cutAtComma_noComma (s : string) :
  noComma s = true -> snd (cutAtComma s) = None.
Proof.
  induction s as [|c s IH]; cbn; [reflexivity|].
  intro H. apply andb_prop in H. destruct H as [Hc Hs].
  apply negb_true_iff in Hc. rewrite Hc.
  destruct (cutAtComma s) as [h t]. cbn in *. exact (IH Hs).
Qed.

(** *** Up to 10000 images the round trip is exact *)

Lemma cutAtComma_no_comma (s : string) :
  snd (cutAtComma s) = None -> fst (cutAtComma s) = s.
Proof.
  induction s as [|c s IH]; cbn; [reflexivity|].
  destruct (Ascii.eqb c ","%char); [discriminate|].
  destruct (cutAtComma s) as [h t]. cbn in *. intro Ht. now rewrite (IH Ht).
Qed.

Lemma splitComma1_data_url (data : string) :
  snd (cutAtComma data) = None ->
  splitComma1 ("data:image/png;base64," ++ data) = Some data.
Proof.
  intro H. unfold splitComma1. cbn.
  destruct (cutAtComma data) as [h t] eqn:E. cbn.
  pose proof (cutAtComma_no_comma data) as Hfst. rewrite E in Hfst.
  cbn in H, Hfst. now rewrite (Hfst H).
Qed.

Lemma namesInOrder_spec (count : nat) :
  forall i, namesInOrder i count = true ->
  forall k, (k < N.of_nat count)%N ->
    endsWith (toLowerCase (sliceName (i + k))) ".png" = true /\
    ((k + 1 < N.of_nat count)%N -> nameBeforeNext (i + k) = true).
Proof.
  induction count as [|count IH]; intros i H k Hk; [lia|].
  cbn [namesInOrder] in H.
  apply andb_prop in H. destruct H as [H Hrest].
  apply andb_prop in H. destruct H as [Hpng Hnext].
  destruct (N.eq_dec k 0) as [->|Hk0].
  - rewrite N.add_0_r. split; [exact Hpng|].
    intro H1. destruct count as [|count']; [lia | exact Hnext].
  - specialize (IH (i + 1)%N Hrest (k - 1)%N ltac:(lia)).
    replace (i + 1 + (k - 1))%N with (i + k)%N in IH by lia.
    destruct IH as [IHpng IHnext]. split; [exact IHpng|].
    intro H1. apply IHnext. lia.
Qed.

(** The first 10000 names end in [.png] and come in ascending order. *)
Lemma namesInOrder_10000 : namesInOrder 0 (N.to_nat fourDigitNames) = true.
Proof. vm_compute. reflexivity. Qed.

Lemma sliceName_png (i : N) :
  (i < fourDigitNames)%N -> endsWith (toLowerCase (sliceName i)) ".png" = true.
Proof.
  intro Hi.
  exact (proj1 (namesInOrder_spec _ 0%N namesInOrder_10000 i
                  ltac:(rewrite N2Nat.id; exact Hi))).
Qed.

Lemma sliceName_ascending (i : N) :
  (i + 1 < fourDigitNames)%N -> nameBeforeNext i = true.
Proof.
  intro Hi.
  assert (Hi' : (i < N.of_nat (N.to_nat fourDigitNames))%N)
    by (rewrite N2Nat.id; lia).
  apply (proj2 (namesInOrder_spec _ 0%N namesInOrder_10000 i Hi')).
  rewrite N2Nat.id. exact Hi.
Qed.

Lemma filter_exportEntries (images : list string) :
  forall i, (i + N.of_nat (List.length images) <= fourDigitNames)%N ->
  filter isPngEntry (exportEntries i images) = exportEntries i images.
Proof.
  induction images as [|image rest IH]; intros i Hi;
    cbn [exportEntries filter]; [reflexivity|].
  cbn [List.length] in Hi. unfold isPngEntry at 1.
  cbn [dir relativePath negb andb].
  rewrite sliceName_png by lia. rewrite IH by lia. reflexivity.
Qed.

(** The entry that export writes for a PNG data URL holds the text of the
    URL. *)
Lemma stored_png_data_url (image : string) :
  isPngDataUrl image ->
  exists data,
    image = ("data:image/png;base64," ++ data)%string /\
    storedBase64 (splitComma1 image) = Some data.
Proof.
  intros (bytes & Hbytes & ->). exists (encode bytes). split; [reflexivity|].
  rewrite splitComma1_data_url
    by (apply cutAtComma_noComma, noComma_encode; exact Hbytes).
  exact (storedBase64_encode bytes Hbytes).
Qed.

Lemma promiseAll_exportEntries (images : list string) (w : World) :
  Forall isPngDataUrl images ->
  forall i, promiseAll (exportEntries i images) w = (Ok (loadedFrom i images), w, []).
Proof.
  induction 1 as [|image rest Himage _ IH]; intro i;
    cbn [exportEntries promiseAll loadedFrom base64 relativePath];
    [reflexivity|].
  destruct (stored_png_data_url image Himage) as (data & Hdata & ->).
  unfold bind. rewrite IH. rewrite <- Hdata. reflexivity.
Qed.

Lemma sortImages_loadedFrom (images : list string) :
  forall i, (i + N.of_nat (List.length images) <= fourDigitNames)%N ->
  sortImages (loadedFrom i images) = loadedFrom i images.
Proof.
  induction images as [|image rest IH]; intros i Hi; [reflexivity|].
  cbn [List.length] in Hi. cbn [loadedFrom sortImages fold_right].
  change (fold_right insertImage [] (loadedFrom (i + 1) rest))
    with (sortImages (loadedFrom (i + 1) rest)).
  rewrite IH by lia.
  destruct rest as [|image' rest']; [reflexivity|].
  cbn [loadedFrom insertImage]. unfold nameLe. cbn [image_name].
  cbn [List.length] in Hi.
  pose proof (sliceName_ascending i ltac:(lia)) as Hnext.
  unfold nameBeforeNext in Hnext. rewrite Hnext. reflexivity.
Qed.

Lemma image_data_loadedFrom (images : list string) :
  forall i, map image_data (loadedFrom i images) = images.
Proof.
  induction images as [|image rest IH]; intro i; cbn; [reflexivity|].
  now rewrite IH.
Qed.

(** X30.  Export followed by import gives back the three parameter records
    and the images in their order, for an image set of at most 10000 PNG
    data URLs, each the prefix and the base64 text of some bytes: the text
    is decoded when the archive is written and encoded again when it is
    read, and comes back as it was. *)
Theorem roundtrip_up_to_10000_images (r : App) (w : World) :
  Forall isPngDataUrl (projectionImages r) ->
  (N.of_nat (List.length (projectionImages r)) <= 10000)%N ->
  let outcome := handleImportJob (Some (exportedFile r)) w in
  resultOf outcome = Ok None /\
  slicingParams (app (worldAfter outcome)) = slicingParams r /\
  projectionParams (app (worldAfter outcome)) = projectionParams r /\
  alignmentParams (app (worldAfter outcome)) = alignmentParams r /\
  projectionImages (app (worldAfter outcome)) = projectionImages r.
Proof.
  intros Hurl Hlen.
  unfold handleImportJob, importBody, exportedFile, exportZip.
  unfold setSlicingParams, setProjectionParams, setAlignmentParams,
    setProjectionImages, setFileName, setStlFile, setSlicingStatus,
    setSlicingStats, setActiveTab.
  cbv [try_catch bind ret throw emit modifyApp resultOf worldAfter traceOf].
  cbn [zip settings_json projections app timers nextTimerId fst snd].
  rewrite filter_exportEntries by exact Hlen.
  rewrite (promiseAll_exportEntries _ _ Hurl).
  rewrite sortImages_loadedFrom by exact Hlen.
  rewrite image_data_loadedFrom. cbn. repeat split; reflexivity.
Qed.

Lemma slicedApp_3_images : Forall isPngDataUrl (projectionImages (slicedApp 3)).
Proof.
  repeat constructor.
  - exists [0; 0; 0; 0; 0; 52]%N. split; [repeat constructor | reflexivity].
  - exists [0; 0; 0; 0; 0; 53]%N. split; [repeat constructor | reflexivity].
  - exists [0; 0; 0; 0; 0; 54]%N. split; [repeat constructor | reflexivity].
Defined.

Lemma roundtrip_up_to_10000_images_example :
  projectionImages
    (app (worldAfter (handleImportJob (Some (exportedFile (slicedApp 3)))
                        initialWorld)))
  = [imageData 0; imageData 1; imageData 2].
Proof.
  refine (proj2 (proj2 (proj2 (proj2
    (roundtrip_up_to_10000_images (slicedApp 3) initialWorld
       slicedApp_3_images _))))).
  vm_compute. discriminate.
Defined.

(** * Further properties of the code *)

(** ** The course of a simulated print *)

Lemma skipn_nth_error {X} (l : list X) :
  forall k x, nth_error l k = Some x -> skipn k l = x :: skipn (S k) l.
Proof.
  induction l as [|y l IH]; intros [|k] x H; cbn in *; try discriminate.
  - inversion H. reflexivity.
  - exact (IH k x H).
Qed.

Lemma skipn_length_nil {X} (l : list X) : skipn (List.length l) l = [].
Proof. induction l; cbn; auto. Qed.

Ltac destruct_world w :=
  let a := fresh "a" in
  let ts := fresh "ts" in
  let nid := fresh "nid" in
  destruct w as [a ts nid]; destruct a; cbn in *.

(** The click on Print shows the first frame and schedules the second
    step. *)
Lemma simulated_print_starts (w : World) (c : nat) (rejected : option string) :
  readyToProject w c ->
  isSimulationMode (app w) = true ->
  exists image,
    nth_error (projectionImages (app w)) 0 = Some image /\
    step w (ClickPrint rejected)
    = Some (simulating w 0, [Send c (UPDATE_IMAGE (Some image))]).
Proof.
  intros (Hc & _ & Himg & Hp & Ht & Hts & _) Hsim.
  destruct_world w. subst.
  destruct projectionImages0 as [|image rest]; [contradiction|].
  exists image. split; [reflexivity|].
  unfold step, enabled, hasSlices. cbn.
  rewrite andb_false_r. cbn.
  unfold handlePrint. cbn. unfold_handlers. cbn.
  unfold simulating, simulationTimer. cbn.
  rewrite Nat.add_0_r. reflexivity.
Qed.

(** A step that is not the last shows the next frame. *)
Lemma simulated_print_continues (w : World) (c : nat) (j : nat) :
  readyToProject w c ->
  S j < List.length (projectionImages (app w)) ->
  exists image,
    nth_error (projectionImages (app w)) (S j) = Some image /\
    step (simulating w j) (TimerFired 0)
    = Some (simulating w (S j), [Send c (UPDATE_IMAGE (Some image))]).
Proof.
  intros (Hc & _ & Himg & Hp & Ht & Hts & _) Hj.
  destruct (nth_error (projectionImages (app w)) (S j)) as [image|] eqn:E;
    [|apply nth_error_None in E; lia].
  exists image. split; [reflexivity|].
  destruct_world w. subst.
  unfold step, simulating, simulationTimer. cbn.
  apply Nat.leb_gt in Hj. rewrite Hj.
  unfold_handlers. cbn. rewrite Nat.eqb_refl. cbn. rewrite E.
  rewrite <- Nat.add_succ_r. reflexivity.
Qed.

(** The step after the last frame stops the print. *)
Lemma simulated_print_ends (w : World) (c : nat) (j : nat) :
  readyToProject w c ->
  isSimulationMode (app w) = true ->
  S j = List.length (projectionImages (app w)) ->
  step (simulating w j) (TimerFired 0)
  = Some (simulationDone w, [Send c CLEAR_IMAGE]).
Proof.
  intros (Hc & _ & Himg & Hp & Ht & Hts & Hnid) Hsim Hj.
  destruct_world w. subst.
  unfold step, simulating, simulationDone, simulationTimer. cbn.
  rewrite <- Hj. rewrite Nat.leb_refl.
  destruct nid as [|nid']; [lia|].
  unfold_handlers. cbn. rewrite Nat.eqb_refl. cbn.
  destruct printProcessRef0 as [cf iid tid]. cbn.
  destruct writeCharacteristic0, (truthy iid); cbn; rewrite ?Nat.eqb_refl; cbn;
    rewrite <- ?Nat.add_succ_r; reflexivity.
Qed.

Lemma simulated_print_rest (w : World) (c : nat) :
  readyToProject w c ->
  isSimulationMode (app w) = true ->
  forall m j,
    S j + m = List.length (projectionImages (app w)) ->
    exists trace,
      run (simulating w j) (repeat (TimerFired 0) (S m))
      = Some (simulationDone w, trace) /\
      messages trace
      = frames (skipn (S j) (projectionImages (app w))) ++ [CLEAR_IMAGE] /\
      writes trace = [].
Proof.
  intros Hready Hsim. induction m as [|m IH]; intros j Hj.
  - rewrite Nat.add_0_r in Hj.
    exists [Send c CLEAR_IMAGE]. cbn [repeat run].
    rewrite (simulated_print_ends w c j Hready Hsim Hj).
    rewrite Hj, skipn_length_nil. repeat split; reflexivity.
  - destruct (simulated_print_continues w c j Hready ltac:(lia))
      as (image & Himage & Hstep).
    destruct (IH (S j) ltac:(lia)) as (trace & Hrun & Hmsg & Hwr).
    exists (Send c (UPDATE_IMAGE (Some image)) :: trace).
    change (repeat (TimerFired 0) (S (S m)))
      with (TimerFired 0 :: repeat (TimerFired 0) (S m)).
    cbn [run]. rewrite Hstep, Hrun. split; [reflexivity|].
    cbn [messages writes]. rewrite Hmsg, Hwr.
    rewrite (skipn_nth_error _ _ _ Himage). split; reflexivity.
Qed.

(** The whole course: the click and one firing of the pending timer for
    each image. *)
Lemma simulated_print_run (w : World) (c : nat) (rejected : option string) :
  readyToProject w c ->
  isSimulationMode (app w) = true ->
  exists trace,
    run w (ClickPrint rejected
           :: repeat (TimerFired 0) (List.length (projectionImages (app w))))
    = Some (simulationDone w, trace) /\
    messages trace = frames (projectionImages (app w)) ++ [CLEAR_IMAGE] /\
    writes trace = [].
Proof.
  intros Hready Hsim.
  destruct (simulated_print_starts w c rejected Hready Hsim)
    as (image & Himage & Hstep).
  assert (Hlen : exists m, S 0 + m = List.length (projectionImages (app w))).
  { destruct (projectionImages (app w)) as [|x l]; [discriminate Himage|].
    exists (List.length l). reflexivity. }
  destruct Hlen as [m Hm].
  destruct (simulated_print_rest w c Hready Hsim m 0 Hm)
    as (trace & Hrun & Hmsg & Hwr).
  exists (Send c (UPDATE_IMAGE (Some image)) :: trace).
  rewrite <- Hm. cbn [Nat.add run]. rewrite Hstep, Hrun.
  split; [reflexivity|]. cbn [messages writes]. rewrite Hmsg, Hwr.
  split; [|reflexivity].
  pose proof (skipn_nth_error _ 0 _ Himage) as Hs.
  transitivity (frames (image :: skipn 1 (projectionImages (app w)))
                ++ [CLEAR_IMAGE]); [reflexivity|].
  rewrite <- Hs. reflexivity.
Qed.

(** X1.  A simulated print that is started with the projection window
    connected, and whose timer fires once for each image, sends every image
    of the set once and in order, then [CLEAR_IMAGE]; it writes nothing to
    the device, and it ends with no print active and no timer pending. *)
Theorem simulated_print_shows_every_image (w : World) (c : nat)
    (rejected : option string) :
  readyToProject w c ->
  isSimulationMode (app w) = true ->
  exists w' trace,
    run w (ClickPrint rejected
           :: repeat (TimerFired 0) (List.length (projectionImages (app w))))
    = Some (w', trace) /\
    messages trace = frames (projectionImages (app w)) ++ [CLEAR_IMAGE] /\
    writes trace = [] /\
    isPrinting (app w') = false /\
    timers w' = [] /\
    timeoutId (printProcessRef (app w')) = None /\
    currentFrame (printProcessRef (app w'))
    = List.length (projectionImages (app w)).
Proof.
  intros Hready Hsim.
  destruct (simulated_print_run w c rejected Hready Hsim)
    as (trace & Hrun & Hmsg & Hwr).
  exists (simulationDone w), trace.
  repeat split; try assumption.
Qed.

Lemma projectingWorld_ready : readyToProject projectingWorld 1.
Proof.
  unfold readyToProject.
  repeat match goal with |- _ /\ _ => split end;
    try reflexivity; discriminate.
Qed.

Lemma simulated_print_shows_every_image_witness :
  exists w' trace,
    run projectingWorld [ClickPrint None; TimerFired 0; TimerFired 0]
    = Some (w', trace) /\
    messages trace
    = [ UPDATE_IMAGE (Some "data:image/png;base64,AAAA"%string);
        UPDATE_IMAGE (Some "data:image/png;base64,BBBB"%string);
        CLEAR_IMAGE ].
Proof.
  destruct (simulated_print_shows_every_image projectingWorld 1 None
              projectingWorld_ready eq_refl)
    as (w' & trace & Hrun & Hmsg & _).
  exists w', trace. split; [exact Hrun | exact Hmsg].
Defined.

(** ** The course of a test playback *)

Lemma test_playback_starts (w : World) (c : nat) :
  readyToProject w c ->
  step w ClickTestPrint = Some (playing w 0, []).
Proof.
  intros (Hc & Hs & Himg & Hp & Ht & Hts & _).
  destruct_world w. subst.
  destruct projectionImages0 as [|image rest]; [contradiction|].
  unfold step, enabled, hasSlices, playing, frameDuration. cbn.
  unfold_handlers. cbn.
  destruct isCalibrating0; reflexivity.
Qed.

Lemma test_playback_continues (w : World) (c : nat) (f : nat) :
  readyToProject w c ->
  step (playing w f) (TimerFired 0)
  = Some (playing w ((f + 1) mod List.length (projectionImages (app w))),
          [Send c (UPDATE_IMAGE (nth_error (projectionImages (app w)) f))]).
Proof.
  intros (Hc & Hs & Himg & Hp & Ht & Hts & _).
  destruct_world w. subst.
  unfold step, playing, frameDuration, enabled, handle, fireTimer. 
  cbn [app timers nth_error].
  cbv [runTimer testPrintFrame updateCallback]. unfold_handlers.
  cbn [repeats negb timerId callback app timers nextTimerId map
       presentationConnectionRef with_testPrintIntervalRef with_isTestPrinting
       with_isCalibrating isConnectedState state connectionId projectionImages
       List.app].
  rewrite Nat.eqb_refl. reflexivity.
Qed.

Lemma test_playback_rest (w : World) (c : nat) :
  readyToProject w c ->
  forall k f,
    f < List.length (projectionImages (app w)) ->
    exists trace,
      run (playing w f) (repeat (TimerFired 0) k)
      = Some (playing w ((f + k) mod List.length (projectionImages (app w))),
              trace) /\
      messages trace
      = map (fun j =>
               UPDATE_IMAGE
                 (Some (nth ((f + j) mod List.length (projectionImages (app w)))
                            (projectionImages (app w)) ""%string)))
            (seq 0 k) /\
      writes trace = [].
Proof.
  intro Hready.
  set (n := List.length (projectionImages (app w))).
  induction k as [|k IH]; intros f Hf.
  - exists []. rewrite Nat.add_0_r, Nat.mod_small by exact Hf.
    repeat split; reflexivity.
  - assert (Hn : n <> 0) by lia.
    destruct (IH ((f + 1) mod n) (Nat.mod_upper_bound _ _ Hn))
      as (trace & Hrun & Hmsg & Hwr).
    exists (Send c (UPDATE_IMAGE (nth_error (projectionImages (app w)) f))
            :: trace).
    cbn [repeat run].
    rewrite (test_playback_continues w c f Hready). fold n.
    rewrite Hrun. split; [|split].
    + rewrite Nat.Div0.add_mod_idemp_l.
      replace (f + 1 + k) with (f + S k) by lia. reflexivity.
    + cbn [List.app messages seq map]. rewrite Hmsg.
      rewrite Nat.add_0_r, (Nat.mod_small f n Hf).
      rewrite (nth_error_nth' _ ""%string Hf). f_equal.
      rewrite <- seq_shift, map_map. apply map_ext. intro j.
      rewrite Nat.Div0.add_mod_idemp_l.
      replace (f + 1 + j) with (f + S j) by lia. reflexivity.
    + cbn [List.app writes]. exact Hwr.
Qed.

(** X2.  A test playback that is started with the projection window
    connected goes round the image set for as long as its interval fires:
    the [j]-th firing sends the image with index [j] modulo the number of
    images, nothing is written to the device, and the playback stays
    active with its one interval pending. *)
Theorem test_playback_cycles (w : World) (c : nat) (k : nat) :
  readyToProject w c ->
  exists w' trace,
    run w (ClickTestPrint :: repeat (TimerFired 0) k) = Some (w', trace) /\
    messages trace
    = map (fun j =>
             UPDATE_IMAGE
               (Some (nth (j mod List.length (projectionImages (app w)))
                          (projectionImages (app w)) ""%string)))
          (seq 0 k) /\
    writes trace = [] /\
    isTestPrinting (app w') = true /\
    List.length (timers w') = 1.
Proof.
  intro Hready.
  assert (H0 : 0 < List.length (projectionImages (app w))).
  { destruct Hready as (_ & _ & Himg & _).
    destruct (projectionImages (app w)); [contradiction | cbn; lia]. }
  destruct (test_playback_rest w c Hready k 0 H0)
    as (trace & Hrun & Hmsg & Hwr).
  eexists. exists trace.
  cbn [run]. rewrite (test_playback_starts w c Hready), Hrun.
  repeat split; assumption || reflexivity.
Qed.

Lemma test_playback_cycles_witness :
  exists w' trace,
    run projectingWorld (ClickTestPrint :: repeat (TimerFired 0) 3)
    = Some (w', trace) /\
    messages trace
    = [ UPDATE_IMAGE (Some "data:image/png;base64,AAAA"%string);
        UPDATE_IMAGE (Some "data:image/png;base64,BBBB"%string);
        UPDATE_IMAGE (Some "data:image/png;base64,AAAA"%string) ].
Proof.
  destruct (test_playback_cycles projectingWorld 1 3 projectingWorld_ready)
    as (w' & trace & Hrun & Hmsg & _).
  exists w', trace. split; [exact Hrun | exact Hmsg].
Defined.

Lemma run_app (l1 l2 : list Event) :
  forall w,
    run w (l1 ++ l2)
    = match run w l1 with
      | Some (w1, t1) =>
          match run w1 l2 with
          | Some (w2, t2) => Some (w2, t1 ++ t2)
          | None => None
          end
      | None => None
      end.
Proof.
  induction l1 as [|e l1 IH]; intro w; cbn [run List.app].
  - destruct (run w l2) as [[w2 t2]|]; reflexivity.
  - destruct (step w e) as [[w1 t1]|]; [|reflexivity].
    rewrite IH. destruct (run w1 l1) as [[w1' t1']|]; [|reflexivity].
    destruct (run w1' l2) as [[w2 t2]|]; [|reflexivity].
    rewrite app_assoc. reflexivity.
Qed.

Lemma messages_app (t1 t2 : list Effect) :
  messages (t1 ++ t2) = messages t1 ++ messages t2.
Proof.
  induction t1 as [|e t1 IH]; [reflexivity|].
  destruct e; cbn [List.app messages]; rewrite IH; reflexivity.
Qed.

Lemma test_playback_stops (w : World) (c : nat) (f : nat) :
  readyToProject w c ->
  step (playing w f) ClickTestPrint
  = Some (playbackStopped w, [Send c CLEAR_IMAGE]).
Proof.
  intros (Hc & Hs & Himg & Hp & Ht & Hts & Hnid).
  destruct_world w. subst.
  destruct projectionImages0 as [|image rest]; [contradiction|].
  destruct nid as [|nid']; [lia|].
  unfold step, playing, playbackStopped, enabled, hasSlices. cbn.
  unfold_handlers. cbn. rewrite Nat.eqb_refl. reflexivity.
Qed.

(** X3.  A second click on the test button, after any number of frames,
    stops the playback: the interval is cleared, so that no timer stays
    pending, the ref of the interval is null, and the last message to the
    window is [CLEAR_IMAGE]. *)
Theorem test_playback_stop_clears_interval (w : World) (c : nat) (k : nat) :
  readyToProject w c ->
  exists w' trace,
    run w (ClickTestPrint :: repeat (TimerFired 0) k ++ [ClickTestPrint])
    = Some (w', trace) /\
    timers w' = [] /\
    isTestPrinting (app w') = false /\
    testPrintIntervalRef (app w') = None /\
    exists before, messages trace = before ++ [CLEAR_IMAGE].
Proof.
  intro Hready.
  assert (H0 : 0 < List.length (projectionImages (app w))).
  { destruct Hready as (_ & _ & Himg & _).
    destruct (projectionImages (app w)); [contradiction | cbn; lia]. }
  destruct (test_playback_rest w c Hready k 0 H0)
    as (trace & Hrun & _).
  exists (playbackStopped w), (trace ++ [Send c CLEAR_IMAGE]).
  cbn [run]. rewrite (test_playback_starts w c Hready).
  rewrite run_app, Hrun. cbn [run].
  rewrite (test_playback_stops w c _ Hready).
  rewrite app_nil_r. repeat split.
  exists (messages trace). rewrite messages_app. reflexivity.
Qed.

Lemma test_playback_stop_clears_interval_witness :
  exists w' trace,
    run projectingWorld
        [ClickTestPrint; TimerFired 0; TimerFired 0; ClickTestPrint]
    = Some (w', trace) /\
    timers w' = [].
Proof.
  destruct (test_playback_stop_clears_interval projectingWorld 1 2
              projectingWorld_ready)
    as (w' & trace & Hrun & Hts & _).
  exists w', trace. split; [exact Hrun | exact Hts].
Defined.

(** ** Refusals of a print, and the closing of the projection window *)

(** X4.  A click on Print that cannot start a print leaves the component as
    it was: the handler returns, every state cell, ref and timer is as
    before, an error is shown, and nothing is sent to the window. *)
Theorem refused_print_changes_nothing (w : World) (rejected : option string) :
  isPrinting (app w) = false ->
  cannotStart (app w) rejected ->
  let outcome := handlePrint (app w) rejected w in
  resultOf outcome = Ok tt /\
  worldAfter outcome = w /\
  toastsError (traceOf outcome) /\
  messages (traceOf outcome) = [].
Proof.
  intros Hp Hno. unfold cannotStart, toastsError in *.
  destruct_world w. subst. unfold handlePrint. cbn.
  destruct isSimulationMode0.
  - unfold_handlers. cbn. rewrite Hno. cbn.
    repeat split. eexists. left. reflexivity.
  - destruct writeCharacteristic0 as [ch|].
    + destruct rejected as [e|]; [|destruct Hno; congruence].
      unfold_handlers. cbn.
      repeat split. eexists. right. left. reflexivity.
    + unfold_handlers. cbn.
      repeat split. eexists. left. reflexivity.
Qed.

Lemma refused_print_changes_nothing_witness :
  worldAfter (handlePrint pairedApp (Some "NetworkError"%string) pairedWorld)
  = pairedWorld.
Proof.
  apply (refused_print_changes_nothing pairedWorld (Some "NetworkError"%string)).
  - reflexivity.
  - right. discriminate.
Defined.

(** X5.  When the projection window closes the connection that the
    component holds, every session ends: the window is disconnected, the ref
    is null, no print, test playback or calibration is active, nothing is
    sent on the closed connection, and a print on the device is stopped by
    the zero command. *)
Theorem window_close_ends_sessions (r : App) (c : PresentationConnection)
    (w : World) :
  presentationConnectionRef (app w) = Some c ->
  let outcome := closeHandler r (connectionId c) w in
  let a' := app (worldAfter outcome) in
  resultOf outcome = Ok tt /\
  projectionWindowStatus a' = Disconnected /\
  presentationConnectionRef a' = None /\
  isPrinting a' = false /\
  isWaitingForHopTrigger a' = false /\
  isTestPrinting a' = false /\
  isCalibrating a' = false /\
  messages (traceOf outcome) = [] /\
  writes (traceOf outcome) = stopWrites r.
Proof.
  intro Hc. destruct_world w. subst. unfold stopWrites.
  destruct printProcessRef0 as [cf iid tid].
  unfold_handlers. cbn. rewrite Nat.eqb_refl.
  destruct iid as [[|i]|], tid as [[|t]|],
    testPrintIntervalRef0 as [[|p]|],
    (writeCharacteristic r), (isSimulationMode r);
    cbn; repeat split; reflexivity.
Qed.

Lemma window_close_ends_sessions_witness :
  isPrinting
    (app (worldAfter
            (closeHandler (app devicePrintWorld) 1 devicePrintWorld)))
  = false /\
  writes (traceOf (closeHandler (app devicePrintWorld) 1 devicePrintWorld))
  = [stopCommand].
Proof.
  pose proof (window_close_ends_sessions (app devicePrintWorld)
                {| connectionId := 1; state := connected |}
                devicePrintWorld eq_refl) as H.
  cbv zeta in H. destruct H as (_ & _ & _ & Hp & _ & _ & _ & _ & Hw).
  split; [exact Hp | exact Hw].
Defined.

(** ** Saving, resetting and nudging the calibration offset *)

(** X6.  An offset that was saved is the offset that the next start loads:
    saving changes no state and stores the text of the record of the two
    offsets; and if [JSON.parse] gives back the record that
    [JSON.stringify] wrote, then loading the stored item sets [translateX]
    and [translateY] to the values of the render that saved them, and
    leaves scale, contrast and all else as they are at that start. *)
Theorem saved_offset_is_loaded
    (JSON_stringify : JsonValue -> string) (String_of_number : Q -> string)
    (JSON_parse : string -> option JsonValue)
    (r : App) (item : option string) (w : World) :
  JSON_stringify (offsetOf r) <> ""%string ->
  JSON_parse (JSON_stringify (offsetOf r)) = Some (offsetOf r) ->
  let saved := handleSaveOffset JSON_stringify String_of_number r None item w in
  worldAfter saved = w /\
  resultOf saved = Ok (Some (JSON_stringify (offsetOf r))) /\
  forall w0,
    let loaded :=
      worldAfter (loadCalibrationOffset JSON_parse
                    (StorageItem (Some (JSON_stringify (offsetOf r)))) w0) in
    translateX (alignmentParams (app loaded)) = translateX (alignmentParams r) /\
    translateY (alignmentParams (app loaded)) = translateY (alignmentParams r) /\
    sameButOffset (alignmentParams (app w0)) (alignmentParams (app loaded)) /\
    sameButAlignment w0 loaded.
Proof.
  intros Hne Hparse. cbv zeta. unfold handleSaveOffset. fold (offsetOf r).
  cbv [try_catch bind ret throw emit resultOf worldAfter traceOf fst snd].
  split; [reflexivity|]. split; [reflexivity|]. intro w0.
  unfold loadCalibrationOffset, sameButOffset, sameButAlignment.
  destruct (JSON_stringify (offsetOf r)) as [|ch s] eqn:E; [contradiction|].
  cbv [try_catch bind ret throw emit resultOf worldAfter traceOf fst snd].
  rewrite Hparse. destruct w0 as [a ts nid]. destruct a. cbn.
  repeat split. eexists. reflexivity.
Qed.

Lemma saved_offset_is_loaded_witness :
  let r := with_alignmentParams
             {| scale := 150; translateX := 3; translateY := 4; contrast := 90 |}
             initialApp in
  let loaded :=
    worldAfter (loadCalibrationOffset (parsesTo (offsetOf r))
                  (StorageItem (Some "saved"%string)) initialWorld) in
  alignmentParams (app loaded)
  = {| scale := 100; translateX := 3; translateY := 4; contrast := 100 |}.
Proof.
  cbv zeta.
  destruct (saved_offset_is_loaded
              (fun _ => "saved"%string) (fun _ => "n"%string)
              (parsesTo (offsetOf
                 (with_alignmentParams
                    {| scale := 150; translateX := 3; translateY := 4;
                       contrast := 90 |} initialApp)))
              (with_alignmentParams
                 {| scale := 150; translateX := 3; translateY := 4;
                    contrast := 90 |} initialApp)
              None initialWorld)
    as (_ & _ & Hload).
  - discriminate.
  - reflexivity.
  - destruct (Hload initialWorld) as (Hx & Hy & [Hs Hc] & _).
    cbv zeta in *.
    destruct (alignmentParams (app (worldAfter _))) as [sc tx ty co].
    cbn in *. subst. reflexivity.
Defined.

(** X7.  A reset removes the stored item and sets both offsets to zero,
    leaving scale and contrast, so that the next start loads nothing; a save
    or a reset whose access to the storage throws returns, keeps the stored
    item, and changes no state: the offsets are then not reset. *)
Theorem reset_offset_clears_storage
    (JSON_stringify : JsonValue -> string) (String_of_number : Q -> string)
    (JSON_parse : string -> option JsonValue)
    (r : App) (item : option string) (e : string) (w : World) :
  let reset := handleResetOffset None item w in
  let a' := alignmentParams (app (worldAfter reset)) in
  (resultOf reset = Ok None /\
   translateX a' = 0%Q /\ translateY a' = 0%Q /\
   sameButOffset (alignmentParams (app w)) a' /\
   sameButAlignment w (worldAfter reset) /\
   forall w0,
     worldAfter (loadCalibrationOffset JSON_parse (StorageItem None) w0) = w0) /\
  (resultOf (handleResetOffset (Some e) item w) = Ok item /\
   worldAfter (handleResetOffset (Some e) item w) = w) /\
  (resultOf (handleSaveOffset JSON_stringify String_of_number r (Some e) item w)
   = Ok item /\
   worldAfter
     (handleSaveOffset JSON_stringify String_of_number r (Some e) item w) = w).
Proof.
  cbv zeta. unfold handleResetOffset, handleSaveOffset, loadCalibrationOffset,
    setAlignmentParams, sameButOffset, sameButAlignment.
  cbv [try_catch bind ret throw emit modifyApp resultOf worldAfter traceOf
       fst snd].
  repeat split. eexists. reflexivity.
Qed.

(** X8.  The arrow keys move the offsets only: whatever the key, the
    handler returns, sends nothing, and changes at most [translateX] and
    [translateY]; a key that is no arrow, or any key outside calibration,
    changes nothing. *)
Theorem arrow_keys_move_offsets_only (r : App) (e : KeyboardEvent) (w : World) :
  let outcome := handleKeyDown r e w in
  resultOf outcome = Ok tt /\
  traceOf outcome = [] /\
  sameButAlignment w (worldAfter outcome) /\
  sameButOffset (alignmentParams (app w))
                (alignmentParams (app (worldAfter outcome))) /\
  (isCalibrating r && isArrow (key e) = false -> worldAfter outcome = w).
Proof.
  cbv zeta. unfold handleKeyDown, setAlignmentParams, sameButAlignment,
    sameButOffset, isArrow, nudge.
  destruct w as [a ts nid]. destruct a.
  destruct alignmentParams0.
  destruct (isCalibrating r),
    (String.eqb (key e) "ArrowUp"),
    (String.eqb (key e) "ArrowDown"),
    (String.eqb (key e) "ArrowLeft"),
    (String.eqb (key e) "ArrowRight"); cbn;
    repeat match goal with |- _ /\ _ => split end;
    try reflexivity; try (eexists; reflexivity);
    intro H; try discriminate H; reflexivity.
Qed.

Lemma binary64_plus_Z (n k : Z) :
  (Z.abs (n + k) < 2 ^ 53)%Z ->
  binary64 (inject_Z n + inject_Z k) = inject_Z (n + k).
Proof.
  intro H. rewrite <- (binary64_integer (n + k) H).
  unfold binary64. apply roundTo_comp. rewrite inject_Z_plus. reflexivity.
Qed.

Lemma binary64_minus_Z (n k : Z) :
  (Z.abs (n - k) < 2 ^ 53)%Z ->
  binary64 (inject_Z n - inject_Z k) = inject_Z (n - k).
Proof.
  intro H. rewrite <- (binary64_integer (n - k) H).
  unfold binary64. apply roundTo_comp.
  unfold Qminus, Z.sub. rewrite inject_Z_plus, inject_Z_opp. reflexivity.
Qed.

(** A whole step forth and back, from a whole offset, is exact in
    binary64. *)
Lemma whole_step_cancels (n s : Z) :
  (Z.abs n <= 2 ^ 52)%Z -> (Z.abs s <= 10)%Z ->
  binary64 (binary64 (inject_Z n + inject_Z s) - inject_Z s) = inject_Z n /\
  binary64 (binary64 (inject_Z n - inject_Z s) + inject_Z s) = inject_Z n.
Proof.
  intros Hn Hs.
  assert (H52 : (2 ^ 53 = 2 * 2 ^ 52)%Z) by reflexivity.
  assert (Hpos : (1024 <= 2 ^ 52)%Z) by (vm_compute; discriminate).
  split.
  - rewrite binary64_plus_Z by lia. rewrite binary64_minus_Z by lia.
    f_equal. lia.
  - rewrite binary64_minus_Z by lia. rewrite binary64_plus_Z by lia.
    f_equal. lia.
Qed.

Lemma nudge_opposite (e1 e2 : KeyboardEvent) (p : AlignmentParams) (x y s : Z) :
  opposite (key e1) (key e2) = true ->
  keyStep e1 = inject_Z s -> keyStep e2 = inject_Z s ->
  (Z.abs s <= 10)%Z ->
  translateX p = inject_Z x -> translateY p = inject_Z y ->
  (Z.abs x <= 2 ^ 52)%Z -> (Z.abs y <= 2 ^ 52)%Z ->
  nudge e2 (nudge e1 p) = p.
Proof.
  unfold opposite, nudge. intros Hop Hs1 Hs2 Hs Hx Hy Hxb Hyb.
  rewrite Hs1, Hs2. destruct p as [sc tx ty co].
  cbn [translateX translateY] in Hx, Hy. subst tx ty.
  destruct (whole_step_cancels x s Hxb Hs) as [Hx1 Hx2].
  destruct (whole_step_cancels y s Hyb Hs) as [Hy1 Hy2].
  destruct (String.eqb (key e1) "ArrowUp") eqn:U1;
    [apply String.eqb_eq in U1; rewrite U1 in *|];
  (destruct (String.eqb (key e1) "ArrowDown") eqn:D1;
    [apply String.eqb_eq in D1; rewrite D1 in *|]);
  (destruct (String.eqb (key e1) "ArrowLeft") eqn:L1;
    [apply String.eqb_eq in L1; rewrite L1 in *|]);
  (destruct (String.eqb (key e1) "ArrowRight") eqn:R1;
    [apply String.eqb_eq in R1; rewrite R1 in *|]);
  try discriminate;
  (destruct (String.eqb (key e2) "ArrowUp") eqn:U2;
    [apply String.eqb_eq in U2; rewrite U2 in *|]);
  (destruct (String.eqb (key e2) "ArrowDown") eqn:D2;
    [apply String.eqb_eq in D2; rewrite D2 in *|]);
  (destruct (String.eqb (key e2) "ArrowLeft") eqn:L2;
    [apply String.eqb_eq in L2; rewrite L2 in *|]);
  (destruct (String.eqb (key e2) "ArrowRight") eqn:R2;
    [apply String.eqb_eq in R2; rewrite R2 in *|]);
  try discriminate;
  unfold with_translate; cbn [scale translateX translateY contrast];
  rewrite ?Hx1, ?Hx2, ?Hy1, ?Hy2; reflexivity.
Qed.

(** X9.  During calibration two presses of opposite arrows, both with Shift
    or both with no modifier, cancel when the offsets are whole numbers of
    at most 2^52 in size: the alignment is again what it was, for the sums
    and differences are exact in binary64.  With Ctrl the step is the
    float nearest to a tenth, and the presses need not cancel: from the
    offset 0.3, a press to the right and one to the left leave
    0.30000000000000004. *)
Theorem opposite_arrows_cancel (r : App) (e1 e2 : KeyboardEvent) (x y : Z)
    (w : World) :
  isCalibrating r = true ->
  opposite (key e1) (key e2) = true ->
  keyStep e1 = keyStep e2 ->
  keyStep e1 = 1%Q \/ keyStep e1 = 10%Q ->
  translateX (alignmentParams (app w)) = inject_Z x ->
  translateY (alignmentParams (app w)) = inject_Z y ->
  (Z.abs x <= 2 ^ 52)%Z -> (Z.abs y <= 2 ^ 52)%Z ->
  worldAfter (handleKeyDown r e2 (worldAfter (handleKeyDown r e1 w))) = w /\
  (let p := {| scale := 100; translateX := binary64 0.3; translateY := 0;
               contrast := 100 |} in
   translateX (nudge (ctrlArrow "ArrowLeft") (nudge (ctrlArrow "ArrowRight") p))
   = (1351079888211149 # 4503599627370496)%Q /\
   translateX p = (5404319552844595 # 18014398509481984)%Q).
Proof.
  intros Hcal Hop Hstep Hwhole Hx Hy Hxb Hyb. split.
  - unfold handleKeyDown. rewrite Hcal.
    cbn [negb]. unfold setAlignmentParams, modifyApp.
    cbn [worldAfter fst snd app alignmentParams with_alignmentParams].
    destruct w as [a ts nid]. destruct a.
    cbn [app alignmentParams with_alignmentParams] in *.
    assert (Hs : exists s, keyStep e1 = inject_Z s /\ (Z.abs s <= 10)%Z).
    { destruct Hwhole as [->| ->]; [exists 1%Z | exists 10%Z];
        (split; [reflexivity | lia]). }
    destruct Hs as (s & Hs1 & Hs).
    rewrite (nudge_opposite e1 e2 _ x y s Hop Hs1
               ltac:(rewrite <- Hstep; exact Hs1) Hs Hx Hy Hxb Hyb).
    reflexivity.
  - cbv zeta. split; vm_compute; reflexivity.
Qed.

Lemma opposite_arrows_cancel_witness :
  worldAfter (handleKeyDown calibratingApp (shiftArrow "ArrowDown")
                (worldAfter (handleKeyDown calibratingApp (shiftArrow "ArrowUp")
                                           initialWorld)))
  = initialWorld.
Proof.
  refine (proj1 (opposite_arrows_cancel calibratingApp
                   (shiftArrow "ArrowUp") (shiftArrow "ArrowDown") 0 0
                   initialWorld eq_refl eq_refl eq_refl _ eq_refl eq_refl _ _)).
  - right. reflexivity.
  - vm_compute. discriminate.
  - vm_compute. discriminate.
Defined.

Lemma arrow_keys_move_offsets_only_witness :
  worldAfter (handleKeyDown initialApp (shiftArrow "ArrowUp") initialWorld)
  = initialWorld.
Proof.
  apply (arrow_keys_move_offsets_only initialApp (shiftArrow "ArrowUp")
           initialWorld).
  reflexivity.
Defined.

(** ** The preview of the slices *)

Lemma rem_in_range (x n : Z) :
  (0 <= x)%Z -> (0 < n)%Z -> (0 <= Z.rem x n < n)%Z.
Proof.
  intros Hx Hn. rewrite Z.rem_mod_nonneg by lia. apply Z.mod_pos_bound. lia.
Qed.

Lemma shown_in_range (images : list string) (s : SlicePreview.State) :
  (0 <= SlicePreview.previewIndex s < SlicePreview.lengthOf images)%Z ->
  SlicePreview.shown images s <> None.
Proof.
  unfold SlicePreview.shown, SlicePreview.lengthOf. intros [H0 H1].
  destruct (Z.ltb_spec (SlicePreview.previewIndex s) 0); [lia|].
  apply nth_error_Some. lia.
Qed.

(** X10.  With at least one image, the buttons and the animation of the
    preview keep the index inside the image set: from any index that is not
    negative, the next, the previous and the animated index are indices of
    an image, so that the preview shows one; and the buttons stop the
    animation. *)
Theorem preview_index_stays_in_range (images : list string)
    (s : SlicePreview.State) :
  images <> [] ->
  (0 <= SlicePreview.previewIndex s)%Z ->
  SlicePreview.shown images (SlicePreview.handleNext images s) <> None /\
  SlicePreview.shown images (SlicePreview.handlePrev images s) <> None /\
  SlicePreview.shown images (SlicePreview.tick images s) <> None /\
  SlicePreview.animates images (SlicePreview.handleNext images s) = false /\
  SlicePreview.animates images (SlicePreview.handlePrev images s) = false.
Proof.
  intros Hne H0.
  assert (Hn : (0 < SlicePreview.lengthOf images)%Z).
  { unfold SlicePreview.lengthOf. destruct images; [contradiction|].
    cbn [List.length]. lia. }
  repeat match goal with |- _ /\ _ => split end;
    try (apply shown_in_range; cbn; apply rem_in_range; lia).
  - unfold SlicePreview.animates. cbn. apply andb_false_r.
  - unfold SlicePreview.animates. cbn. apply andb_false_r.
Qed.

Lemma preview_index_stays_in_range_witness :
  (0 <= SlicePreview.previewIndex SlicePreview.initial)%Z /\
  SlicePreview.animates twoImages
    (SlicePreview.handleNext twoImages SlicePreview.initial) = false.
Proof.
  split; [cbn; lia|].
  apply (preview_index_stays_in_range twoImages SlicePreview.initial).
  - discriminate.
  - cbn. lia.
Defined.

(** X11.  On an index of the image set the two buttons undo each other:
    previous after next, and next after previous, give the index back; the
    last image is followed by the first and the first preceded by the
    last. *)
Theorem preview_next_and_previous_are_inverse (images : list string)
    (s : SlicePreview.State) :
  (0 <= SlicePreview.previewIndex s < SlicePreview.lengthOf images)%Z ->
  SlicePreview.previewIndex
    (SlicePreview.handlePrev images (SlicePreview.handleNext images s))
  = SlicePreview.previewIndex s /\
  SlicePreview.previewIndex
    (SlicePreview.handleNext images (SlicePreview.handlePrev images s))
  = SlicePreview.previewIndex s /\
  (SlicePreview.previewIndex s = (SlicePreview.lengthOf images - 1)%Z ->
   SlicePreview.previewIndex (SlicePreview.handleNext images s) = 0%Z) /\
  (SlicePreview.previewIndex s = 0%Z ->
   SlicePreview.previewIndex (SlicePreview.handlePrev images s)
   = (SlicePreview.lengthOf images - 1)%Z).
Proof.
  intros [H0 H1]. cbn.
  set (i := SlicePreview.previewIndex s) in *.
  set (n := SlicePreview.lengthOf images) in *.
  assert (Hnext : Z.rem (i + 1) n = if (i + 1 =? n)%Z then 0%Z else (i + 1)%Z).
  { destruct (Z.eqb_spec (i + 1) n) as [E|E].
    - rewrite E. apply Z.rem_same. lia.
    - apply Z.rem_small. lia. }
  assert (Hprev : Z.rem (i - 1 + n) n = if (i =? 0)%Z then (n - 1)%Z else (i - 1)%Z).
  { destruct (Z.eqb_spec i 0) as [E|E].
    - rewrite Z.rem_small by lia. lia.
    - replace (i - 1 + n)%Z with (i - 1 + 1 * n)%Z by lia.
      rewrite Z.rem_add by nia. apply Z.rem_small. lia. }
  rewrite Hnext, Hprev.
  repeat match goal with |- _ /\ _ => split end.
  - destruct (Z.eqb_spec (i + 1) n) as [E|E].
    + replace (0 - 1 + n)%Z with (n - 1)%Z by lia.
      rewrite Z.rem_small by lia. lia.
    + replace (i + 1 - 1 + n)%Z with (i + 1 * n)%Z by lia.
      rewrite Z.rem_add by nia. apply Z.rem_small. lia.
  - destruct (Z.eqb_spec i 0) as [E|E].
    + replace (n - 1 + 1)%Z with n by lia. rewrite Z.rem_same by lia. lia.
    + replace (i - 1 + 1)%Z with i by lia. apply Z.rem_small. lia.
  - intro E. destruct (Z.eqb_spec (i + 1) n); lia.
  - intro E. destruct (Z.eqb_spec i 0); lia.
Qed.

Lemma preview_next_and_previous_are_inverse_witness :
  SlicePreview.previewIndex
    (SlicePreview.handlePrev twoImages
       (SlicePreview.handleNext twoImages SlicePreview.initial))
  = 0%Z.
Proof.
  apply (preview_next_and_previous_are_inverse twoImages SlicePreview.initial).
  cbn. lia.
Defined.

(** X12.  While the image is dragged, the offsets follow the pointer from
    where the drag began: they are the offsets at the start plus the way of
    the pointer divided by the scale factor, whatever way the pointer came,
    so that a pointer back at its starting point restores the offsets; scale
    and contrast are untouched, and without a drag a move changes nothing. *)
Theorem drag_follows_pointer (alignment : AlignmentParams)
    (x0 y0 x1 y1 x2 y2 : Q) (s : SlicePreview.State) (w : World) :
  ~ (scale alignment == 0)%Q ->
  alignmentParams (app w) = alignment ->
  let dragging := SlicePreview.handleDragStart alignment x0 y0 s in
  let moved (x y : Q) (w : World) :=
    worldAfter (SlicePreview.handleDragMove alignment x y dragging w) in
  let factor := (scale alignment / 100)%Q in
  translateX (alignmentParams (app (moved x1 y1 w)))
  = (translateX alignment + (x1 - x0) / factor)%Q /\
  translateY (alignmentParams (app (moved x1 y1 w)))
  = (translateY alignment + (y1 - y0) / factor)%Q /\
  moved x2 y2 (moved x1 y1 w) = moved x2 y2 w /\
  (translateX (alignmentParams (app (moved x0 y0 (moved x1 y1 w))))
   == translateX alignment)%Q /\
  (translateY (alignmentParams (app (moved x0 y0 (moved x1 y1 w))))
   == translateY alignment)%Q /\
  sameButOffset alignment (alignmentParams (app (moved x1 y1 w))) /\
  worldAfter
    (SlicePreview.handleDragMove alignment x1 y1
       (SlicePreview.handleDragEnd dragging) w) = w.
Proof.
  intros Hscale Ha. cbv zeta.
  unfold SlicePreview.handleDragMove, SlicePreview.handleDragStart,
    SlicePreview.handleDragEnd, setAlignmentParams, modifyApp, sameButOffset.
  destruct w as [a ts nid]. destruct a. cbn in *. subst alignment.
  repeat match goal with |- _ /\ _ => split end; try reflexivity.
  - field. intro H. apply Hscale. exact H.
  - field. intro H. apply Hscale. exact H.
Qed.

Lemma drag_follows_pointer_witness :
  let alignment := alignmentParams initialApp in
  let dragging :=
    SlicePreview.handleDragStart alignment 10 10 SlicePreview.initial in
  translateX
    (alignmentParams
       (app (worldAfter
               (SlicePreview.handleDragMove alignment 30 10 dragging
                  initialWorld))))
  = (translateX alignment + (30 - 10) / (scale alignment / 100))%Q.
Proof.
  cbv zeta.
  apply (drag_follows_pointer (alignmentParams initialApp)
           10 10 30 10 0 0 SlicePreview.initial initialWorld).
  - vm_compute. discriminate.
  - reflexivity.
Defined.

(** ** What the projection window shows *)

Lemma receive_app (l1 l2 : list ChannelMessage) (s : ProjectionView.State) :
  receive (l1 ++ l2) s = receive l2 (receive l1 s).
Proof. apply fold_left_app. Qed.

Lemma receive_frame (rest : list ChannelMessage) (images : list string) :
  forall j image s,
    nth_error images j = Some image ->
    receive (firstn (S j) (frames images ++ rest)) s
    = {| ProjectionView.imageUrl := Some image;
         ProjectionView.transform := ProjectionView.transform s;
         ProjectionView.filter := ProjectionView.filter s;
         ProjectionView.showCalibration := false |}.
Proof.
  induction images as [|x images IH]; intros [|j] image s H;
    try discriminate H.
  - cbn in H. inversion H. reflexivity.
  - cbn in H. change (frames (x :: images)) with (UPDATE_IMAGE (Some x) :: frames images).
    cbn [List.app]. rewrite firstn_cons. unfold receive. cbn [fold_left].
    fold (receive (firstn (S j) (frames images ++ rest))
            (ProjectionView.onmessage
               (ProjectionView.Message (UPDATE_IMAGE (Some x))) s)).
    rewrite (IH j image _ H). reflexivity.
Qed.

(** X13.  The projection window follows a simulated print: whatever it
    showed before, the crosshair included, after the message of frame [j]
    it shows image [j] of the set, and after the last message of the print
    it shows no image and no crosshair. *)
Theorem window_follows_simulated_print (w : World) (c : nat)
    (rejected : option string) (s : ProjectionView.State) :
  readyToProject w c ->
  isSimulationMode (app w) = true ->
  exists w' trace,
    run w (ClickPrint rejected
           :: repeat (TimerFired 0) (List.length (projectionImages (app w))))
    = Some (w', trace) /\
    (forall j image,
        nth_error (projectionImages (app w)) j = Some image ->
        ProjectionView.display (receive (firstn (S j) (messages trace)) s)
        = displayOf image) /\
    ProjectionView.display (receive (messages trace) s) = ProjectionView.Waiting.
Proof.
  intros Hready Hsim.
  destruct (simulated_print_run w c rejected Hready Hsim)
    as (trace & Hrun & Hmsg & _).
  exists (simulationDone w), trace. split; [exact Hrun|]. rewrite Hmsg. split.
  - intros j image Hj. rewrite (receive_frame _ _ j image s Hj).
    destruct image; reflexivity.
  - rewrite receive_app. reflexivity.
Qed.

Lemma window_follows_simulated_print_witness :
  exists w' trace,
    run projectingWorld [ClickPrint None; TimerFired 0; TimerFired 0]
    = Some (w', trace) /\
    ProjectionView.display (receive (messages trace) crosshairShown)
    = ProjectionView.Waiting.
Proof.
  destruct (window_follows_simulated_print projectingWorld 1 None
              crosshairShown projectingWorld_ready eq_refl)
    as (w' & trace & Hrun & _ & Hend).
  exists w', trace. split; [exact Hrun | exact Hend].
Defined.

(** ** The device service *)

(** X14.  The service writes only to a characteristic it holds: after
    [disconnect] a write throws and nothing is written, and after a
    [connect] that returned a characteristic a write goes to that
    characteristic. *)
Theorem service_writes_to_its_characteristic (b : BLEService.t)
    (answer : BLEService.Answer) (data : list Q) (rejected : option string)
    (c : nat) :
  BLEService.writeData data rejected (snd (BLEService.disconnect b))
  = (Throw "Not connected to any characteristic.", []) /\
  (fst (BLEService.connect answer b) = Ok c ->
   BLEService.writeData data None (snd (BLEService.connect answer b))
   = (Ok tt, [(c, data)])).
Proof.
  split; [reflexivity|].
  destruct answer; cbn; intro H; try discriminate H.
  inversion H. reflexivity.
Qed.

Lemma service_writes_to_its_characteristic_witness :
  BLEService.writeData [1%Q] None
    (snd (BLEService.connect (BLEService.Connected 1 2 5) BLEService.empty))
  = (Ok tt, [(5, [1%Q])]).
Proof.
  apply (service_writes_to_its_characteristic BLEService.empty
           (BLEService.Connected 1 2 5) [1%Q] None 5).
  reflexivity.
Defined.

(** X15.  A [connect] that fails keeps the characteristic of the earlier
    connection, unless the failure is that no characteristic was found: the
    service then still writes to the old characteristic. *)
Theorem failed_connect_keeps_characteristic (b : BLEService.t)
    (answer : BLEService.Answer) (data : list Q) (c : nat) (e : string) :
  BLEService.characteristic b = Some c ->
  fst (BLEService.connect answer b) = Throw e ->
  (forall d s, answer <> BLEService.NoCharacteristic d s) ->
  BLEService.writeData data None (snd (BLEService.connect answer b))
  = (Ok tt, [(c, data)]).
Proof.
  intros Hc Hfail Hnot. unfold BLEService.writeData.
  destruct answer; cbn in *; try rewrite Hc; try reflexivity.
  - exfalso. exact (Hnot _ _ eq_refl).
  - discriminate Hfail.
Qed.

Lemma failed_connect_keeps_characteristic_witness :
  BLEService.writeData [1%Q] None
    (snd (BLEService.connect (BLEService.GattConnectRejected 3 "NetworkError")
                             connectedService))
  = (Ok tt, [(5, [1%Q])]).
Proof.
  apply (failed_connect_keeps_characteristic connectedService
           (BLEService.GattConnectRejected 3 "NetworkError") [1%Q] 5
           "NetworkError"%string).
  - reflexivity.
  - reflexivity.
  - intros d s H. discriminate H.
Defined.

(** ** A successful import *)

Lemma promiseAll_readable (entries : list ZipEntry) (w : World) :
  Forall readable entries ->
  promiseAll entries w = (Ok (map loaded entries), w, []).
Proof.
  induction 1 as [|e rest He _ IH]; cbn [promiseAll map]; [reflexivity|].
  unfold readable in He. unfold loaded at 1.
  destruct (base64 e) as [data|]; [|contradiction].
  unfold bind. rewrite IH. reflexivity.
Qed.

Lemma insertImage_Permutation (x : LoadedImage) (l : list LoadedImage) :
  Permutation (insertImage x l) (x :: l).
Proof.
  induction l as [|y l IH]; cbn [insertImage]; [reflexivity|].
  destruct (nameLe x y); [reflexivity|].
  rewrite IH. apply perm_swap.
Qed.

Lemma sortImages_Permutation (l : list LoadedImage) :
  Permutation (sortImages l) l.
Proof.
  induction l as [|x l IH]; cbn; [reflexivity|].
  fold (sortImages l). rewrite insertImage_Permutation. now constructor.
Qed.

(** What a successful import leaves, given the images that were read. *)
Lemma import_of_readable_archive (file : File) (settings : Settings.t)
    (entries : list ZipEntry) (w : World) :
  readableSettings file = Some settings ->
  pngEntries file = Some entries ->
  Forall readable entries ->
  handleImportJob (Some file) w
  = (Ok None,
     {| app :=
          with_activeTab Projecting
            (with_slicingStats
               {| count := Some (List.length (sortImages (map loaded entries)));
                  time := Some 0%Q |}
               (with_slicingStatus complete
                  (with_stlFile None
                     (with_fileName
                        (Some (replaceSuffix ".zip" ".stl" (name file)))
                        (with_projectionImages
                           (map image_data (sortImages (map loaded entries)))
                           (withSettings settings (app w)))))));
        timers := timers w;
        nextTimerId := nextTimerId w |},
     [ToastSuccess "Job imported successfully!"]).
Proof.
  unfold readableSettings, pngEntries, handleImportJob, importBody, withSettings.
  unfold setSlicingParams, setProjectionParams, setAlignmentParams,
    setProjectionImages, setFileName, setStlFile, setSlicingStatus,
    setSlicingStats, setActiveTab.
  destruct file as [nm [[[[|s]|] folder]|]]; cbn [zip settings_json projections];
    try discriminate.
  intros Hs He Hr. inversion Hs. inversion He. subst.
  cbv [try_catch bind ret throw emit modifyApp].
  cbn [zip settings_json projections app timers nextTimerId fst snd name].
  rewrite (promiseAll_readable _ _ Hr). reflexivity.
Qed.

(** X16.  An import succeeds when the archive can be read, its settings
    parse, and every PNG entry of its [projections] folder can be read.  The
    images are then exactly those entries, none lost and none twice, in
    some order; the parameters are those of the archive, the status is
    complete with the number of images as count, the model is unset and
    named after the archive, the Projecting tab is shown, and no timer or
    session is touched. *)
Theorem import_loads_png_entries_by_name (file : File) (settings : Settings.t)
    (entries : list ZipEntry) (w : World) :
  readableSettings file = Some settings ->
  pngEntries file = Some entries ->
  Forall readable entries ->
  let outcome := handleImportJob (Some file) w in
  let a' := app (worldAfter outcome) in
  resultOf outcome = Ok None /\
  Permutation (projectionImages a') (map image_data (map loaded entries)) /\
  slicingStatus a' = complete /\
  count (slicingStats a') = Some (List.length entries) /\
  stlFile a' = None /\
  fileName a' = Some (replaceSuffix ".zip" ".stl" (name file)) /\
  activeTab a' = Projecting /\
  slicingParams a' = Settings.slicingParams settings /\
  projectionParams a' = Settings.projectionParams settings /\
  alignmentParams a' = Settings.alignmentParams settings /\
  timers (worldAfter outcome) = timers w /\
  isPrinting a' = isPrinting (app w) /\
  isTestPrinting a' = isTestPrinting (app w) /\
  isCalibrating a' = isCalibrating (app w).
Proof.
  intros Hs He Hr. cbv zeta.
  rewrite (import_of_readable_archive file settings entries w Hs He Hr).
  cbn [resultOf worldAfter fst snd app timers].
  split; [reflexivity|]. split.
  - destruct w as [a ts nid]. destruct a. cbn.
    apply Permutation_map, sortImages_Permutation.
  - destruct w as [a ts nid]. destruct a. cbn.
    rewrite (Permutation_length (sortImages_Permutation _)), length_map.
    repeat split; reflexivity.
Qed.

Lemma import_loads_png_entries_by_name_witness :
  let a' := app (worldAfter (handleImportJob (Some unorderedArchive)
                                             initialWorld)) in
  Permutation (projectionImages a')
    ["data:image/png;base64,BBBB"; "data:image/png;base64,AAAA"] /\
  count (slicingStats a') = Some 2.
Proof.
  cbv zeta.
  destruct (import_loads_png_entries_by_name unorderedArchive otherSettings
              [ {| relativePath := "b.png"; dir := false;
                   base64 := Some "BBBB"%string |};
                {| relativePath := "a.PNG"; dir := false;
                   base64 := Some "AAAA"%string |} ]
              initialWorld eq_refl eq_refl)
    as (_ & Himages & _ & Hcount & _).
  - repeat constructor; discriminate.
  - split; [exact Himages | exact Hcount].
Defined.

(** ** Export, and export followed by import, for any number of images *)

Lemma toLowerCase_append (a b : string) :
  toLowerCase (a ++ b) = (toLowerCase a ++ toLowerCase b)%string.
Proof. induction a as [|c a IH]; cbn; [reflexivity | now rewrite IH]. Qed.

Lemma substring_all (b : string) : substring 0 (String.length b) b = b.
Proof. induction b as [|c b IH]; cbn; [reflexivity | now rewrite IH]. Qed.

Lemma substring_suffix (a b : string) :
  substring (String.length a) (String.length b) (a ++ b) = b.
Proof. induction a as [|c a IH]; cbn; [apply substring_all | exact IH]. Qed.

Lemma length_string_append (a b : string) :
  String.length (a ++ b) = String.length a + String.length b.
Proof. induction a as [|c a IH]; cbn; [reflexivity | now rewrite IH]. Qed.

Lemma endsWith_append (a b : string) : endsWith (a ++ b) b = true.
Proof.
  unfold endsWith. rewrite length_string_append.
  replace (String.length a + String.length b - String.length b)
    with (String.length a) by lia.
  rewrite substring_suffix, String.eqb_refl.
  rewrite andb_true_r. apply Nat.leb_le. lia.
Qed.

Lemma string_append_assoc (a b c : string) :
  (a ++ (b ++ c) = (a ++ b) ++ c)%string.
Proof. induction a as [|x a IH]; cbn; [reflexivity | now rewrite IH]. Qed.

(** Every name that export writes ends in [.png]. *)
Lemma sliceName_ends_in_png (i : N) :
  endsWith (toLowerCase (sliceName i)) ".png" = true.
Proof.
  unfold sliceName.
  rewrite string_append_assoc, toLowerCase_append.
  exact (endsWith_append _ ".png").
Qed.

Lemma filter_exportEntries_all (images : list string) :
  forall i, filter isPngEntry (exportEntries i images) = exportEntries i images.
Proof.
  induction images as [|image rest IH]; intro i;
    cbn [exportEntries filter]; [reflexivity|].
  unfold isPngEntry at 1. cbn [dir relativePath negb andb].
  rewrite sliceName_ends_in_png, IH. reflexivity.
Qed.

Lemma exportEntries_decodable (images : list string) :
  forall i,
    forallb (fun e => isSome (base64 e)) (exportEntries i images)
    = forallb decodable images.
Proof.
  induction images as [|image rest IH]; intro i;
    cbn [exportEntries forallb base64]; [reflexivity|].
  rewrite IH. reflexivity.
Qed.

Lemma exportEntries_readable (images : list string) :
  forallb decodable images = true ->
  forall i, Forall readable (exportEntries i images).
Proof.
  induction images as [|image rest IH]; intros H i; cbn [exportEntries];
    constructor; cbn [forallb] in H; apply andb_prop in H; destruct H as [H1 H2].
  - unfold readable, decodable in *. cbn [base64].
    destruct (storedBase64 (splitComma1 image)); [discriminate | discriminate H1].
  - apply IH. exact H2.
Qed.

(** The data of a PNG data URL can be decoded. *)
Lemma png_data_urls_decodable (images : list string) :
  Forall isPngDataUrl images -> forallb decodable images = true.
Proof.
  induction 1 as [|image rest Himage _ IH]; cbn [forallb]; [reflexivity|].
  rewrite IH, andb_true_r. unfold decodable.
  destruct (stored_png_data_url image Himage) as (data & _ & ->). reflexivity.
Qed.

Lemma loaded_exportEntries (images : list string) :
  Forall isPngDataUrl images ->
  forall i, map image_data (map loaded (exportEntries i images)) = images.
Proof.
  induction 1 as [|image rest Himage _ IH]; intro i;
    cbn [exportEntries map]; [reflexivity|].
  rewrite IH. unfold loaded at 1. cbn [image_data base64].
  destruct (stored_png_data_url image Himage) as (data & Hdata & ->).
  rewrite <- Hdata. reflexivity.
Qed.

(** X17.  Export followed by import loses no image, whatever their number,
    when the images are PNG data URLs, each the prefix and the base64 text
    of some bytes: the import of the exported file succeeds, and gives the
    parameters back and the same images, each as often as before; only
    their order can differ. *)
Theorem export_then_import_keeps_every_image (r : App) (w : World) :
  Forall isPngDataUrl (projectionImages r) ->
  let outcome := handleImportJob (Some (exportedFile r)) w in
  let a' := app (worldAfter outcome) in
  resultOf outcome = Ok None /\
  Permutation (projectionImages a') (projectionImages r) /\
  slicingParams a' = slicingParams r /\
  projectionParams a' = projectionParams r /\
  alignmentParams a' = alignmentParams r.
Proof.
  intro Hurl. cbv zeta.
  rewrite (import_of_readable_archive (exportedFile r)
             {| Settings.slicingParams := slicingParams r;
                Settings.projectionParams := projectionParams r;
                Settings.alignmentParams := alignmentParams r |}
             (exportEntries 0 (projectionImages r)) w).
  - cbn [resultOf worldAfter fst snd app]. split; [reflexivity|]. split.
    + destruct w as [a ts nid]. destruct a. cbn.
      rewrite <- (loaded_exportEntries _ Hurl 0%N) at 2.
      apply Permutation_map, sortImages_Permutation.
    + destruct w as [a ts nid]. destruct a. cbn. repeat split; reflexivity.
  - reflexivity.
  - unfold pngEntries, exportedFile, exportZip. cbn [zip projections].
    rewrite filter_exportEntries_all. reflexivity.
  - apply exportEntries_readable, png_data_urls_decodable. exact Hurl.
Qed.

Lemma export_then_import_keeps_every_image_witness :
  Permutation
    (projectionImages
       (app (worldAfter (handleImportJob (Some (exportedFile (slicedApp 3)))
                                         initialWorld))))
    (projectionImages (slicedApp 3)).
Proof.
  exact (proj1 (proj2 (export_then_import_keeps_every_image
                         (slicedApp 3) initialWorld slicedApp_3_images))).
Defined.

Lemma substring_prefix (a b : string) :
  substring 0 (String.length a) (a ++ b) = a.
Proof.
  induction a as [|c a IH]; cbn; [destruct b; reflexivity | now rewrite IH].
Qed.

Lemma length_toLowerCase (s : string) :
  String.length (toLowerCase s) = String.length s.
Proof. induction s as [|c s IH]; cbn; [reflexivity | now rewrite IH]. Qed.

Lemma replaceSuffix_matching (suffix' suffix replacement base : string) :
  toLowerCase suffix' = suffix ->
  replaceSuffix suffix replacement (base ++ suffix')
  = (base ++ replacement)%string.
Proof.
  intro H. unfold replaceSuffix.
  rewrite toLowerCase_append, H, endsWith_append, length_string_append.
  rewrite <- H, length_toLowerCase.
  replace (String.length base + String.length suffix' - String.length suffix')
    with (String.length base) by lia.
  rewrite substring_prefix. reflexivity.
Qed.

Lemma replaceSuffix_zip (base : string) :
  replaceSuffix ".zip" ".stl" (base ++ ".zip") = (base ++ ".stl")%string.
Proof. apply replaceSuffix_matching. reflexivity. Qed.

Lemma length_exportEntries (images : list string) :
  forall i, List.length (exportEntries i images) = List.length images.
Proof.
  induction images as [|image rest IH]; intro i; cbn; [reflexivity|].
  now rewrite IH.
Qed.

(** X18.  Export saves a file only for a job that is sliced and whose
    images can be decoded: when slicing is not complete or gave no image,
    or when the data of an image is not base64 text of whole bytes, the
    handler shows an error and saves nothing; otherwise it saves one file,
    named with [.zip], with one PNG entry for each image.  The data of PNG
    data URLs can be decoded.  The handler never throws and never changes
    the state. *)
Theorem export_saves_only_a_sliced_job (r : App) (w : World) :
  let outcome := handleExportJob r w in
  let ready := exportable r && forallb decodable (projectionImages r) in
  resultOf outcome = Ok tt /\
  worldAfter outcome = w /\
  saved (traceOf outcome) = (if ready then [exportedFile r] else []) /\
  (ready = false -> toastsError (traceOf outcome)) /\
  (Forall isPngDataUrl (projectionImages r) ->
   forallb decodable (projectionImages r) = true) /\
  endsWith (name (exportedFile r)) ".zip" = true /\
  exists entries,
    pngEntries (exportedFile r) = Some entries /\
    List.length entries = List.length (projectionImages r).
Proof.
  cbv zeta.
  assert (Hrun :
    handleExportJob r w
    = (Ok tt, w,
       if exportable r
       then if forallb decodable (projectionImages r)
            then [SaveAs (exportZip r) (exportFileName r);
                  ToastSuccess "Job exported successfully!"]
            else [ToastError "Failed to export job."]
       else [ToastError "Please slice a model successfully before exporting."])).
  { unfold handleExportJob, exportable, generateAsync.
    destruct (isComplete (slicingStatus r)),
      (List.length (projectionImages r) =? 0); try reflexivity.
    cbn [negb orb andb]. unfold exportZip at 1. cbn [projections].
    rewrite exportEntries_decodable.
    destruct (forallb decodable (projectionImages r)); reflexivity. }
  rewrite Hrun. cbn [resultOf worldAfter traceOf fst snd].
  unfold toastsError.
  repeat match goal with |- _ /\ _ => split end; try reflexivity.
  - destruct (exportable r), (forallb decodable (projectionImages r));
      reflexivity.
  - destruct (exportable r), (forallb decodable (projectionImages r));
      cbn; intro H; try discriminate H; eexists; left; reflexivity.
  - apply png_data_urls_decodable.
  - apply endsWith_append.
  - exists (exportEntries 0 (projectionImages r)).
    unfold pngEntries, exportedFile, exportZip. cbn [zip projections].
    rewrite filter_exportEntries_all, length_exportEntries.
    split; reflexivity.
Qed.

Lemma export_saves_only_a_sliced_job_witness :
  saved (traceOf (handleExportJob (slicedApp 3) initialWorld))
  = [exportedFile (slicedApp 3)] /\
  toastsError (traceOf (handleExportJob initialApp initialWorld)) /\
  toastsError (traceOf (handleExportJob undecodableApp initialWorld)).
Proof.
  split; [|split].
  - exact (proj1 (proj2 (proj2
      (export_saves_only_a_sliced_job (slicedApp 3) initialWorld)))).
  - apply (export_saves_only_a_sliced_job initialApp initialWorld).
    reflexivity.
  - apply (export_saves_only_a_sliced_job undecodableApp initialWorld).
    reflexivity.
Defined.

Lemma import_of_export (r : App) (w : World) :
  forallb decodable (projectionImages r) = true ->
  let outcome := handleImportJob (Some (exportedFile r)) w in
  let a' := app (worldAfter outcome) in
  resultOf outcome = Ok None /\
  fileName a' = Some (modelBase r ++ ".stl")%string /\
  stlFile a' = None /\
  slicingStatus a' = complete /\
  count (slicingStats a') = Some (List.length (projectionImages r)).
Proof.
  intro Hd. cbv zeta.
  rewrite (import_of_readable_archive (exportedFile r)
             {| Settings.slicingParams := slicingParams r;
                Settings.projectionParams := projectionParams r;
                Settings.alignmentParams := alignmentParams r |}
             (exportEntries 0 (projectionImages r)) w).
  - cbn [resultOf worldAfter fst snd app].
    destruct w as [a ts nid]. destruct a. cbn.
    rewrite (Permutation_length (sortImages_Permutation _)), length_map,
      length_exportEntries.
    unfold exportFileName. fold (modelBase r). rewrite replaceSuffix_zip.
    repeat split; reflexivity.
  - reflexivity.
  - unfold pngEntries, exportedFile, exportZip. cbn [zip projections].
    rewrite filter_exportEntries_all. reflexivity.
  - apply exportEntries_readable. exact Hd.
Qed.

(** X19.  The import of a job that was exported succeeds, and names the
    model after the job: a name that ends in [.stl], in whatever case, comes
    back with [.stl] in lower case; any other name comes back with [.stl]
    added; and a job without a name, or with the empty name, comes back as
    [model.stl].  The model file is unset, and the count is the number of
    images that were exported. *)
Theorem import_of_export_names_the_model (r : App) (w : World) :
  forallb decodable (projectionImages r) = true ->
  let outcome := handleImportJob (Some (exportedFile r)) w in
  let a' := app (worldAfter outcome) in
  resultOf outcome = Ok None /\
  (forall base suffix,
     fileName r = Some (base ++ suffix)%string ->
     toLowerCase suffix = ".stl" ->
     fileName a' = Some (base ++ ".stl")%string) /\
  (forall n,
     fileName r = Some n -> n <> EmptyString ->
     endsWith (toLowerCase n) ".stl" = false ->
     fileName a' = Some (n ++ ".stl")%string) /\
  (fileName r = None \/ fileName r = Some EmptyString ->
   fileName a' = Some "model.stl") /\
  stlFile a' = None /\
  slicingStatus a' = complete /\
  count (slicingStats a') = Some (List.length (projectionImages r)).
Proof.
  intro Hd. cbv zeta.
  destruct (import_of_export r w Hd) as (Hres & Hname & Hstl & Hstatus & Hcount).
  cbv zeta in Hname. rewrite Hname.
  repeat match goal with |- _ /\ _ => split end; try assumption.
  - intros base suffix Hn Hsuffix. unfold modelBase. rewrite Hn.
    destruct (base ++ suffix)%string as [|c s] eqn:E.
    + destruct base; [|discriminate E]. cbn in E. subst suffix.
      discriminate Hsuffix.
    + rewrite <- E. rewrite (replaceSuffix_matching suffix ".stl" "" base Hsuffix).
      rewrite string_app_nil_r. reflexivity.
  - intros n Hn Hne Hends. unfold modelBase. rewrite Hn.
    destruct n as [|c s]; [contradiction|].
    unfold replaceSuffix. rewrite Hends. reflexivity.
  - intros [Hn|Hn]; unfold modelBase; rewrite Hn; reflexivity.
Qed.

Lemma import_of_export_names_the_model_witness :
  let r := with_fileName (Some "Part.STL") (slicedApp 3) in
  fileName (app (worldAfter (handleImportJob (Some (exportedFile r))
                                             initialWorld)))
  = Some "Part.stl" /\
  fileName (app (worldAfter (handleImportJob (Some (exportedFile (slicedApp 3)))
                                             initialWorld)))
  = Some "model.stl".
Proof.
  cbv zeta. split.
  - refine (proj1 (proj2 (import_of_export_names_the_model
                            (with_fileName (Some "Part.STL") (slicedApp 3))
                            initialWorld _)) "Part" ".STL" eq_refl eq_refl).
    vm_compute. reflexivity.
  - refine (proj1 (proj2 (proj2 (proj2 (import_of_export_names_the_model
                            (slicedApp 3) initialWorld _)))) _).
    + vm_compute. reflexivity.
    + left. reflexivity.
Defined.

(** X20.  After a successful import the Slice button is enabled, for there
    is a file name, but a click on it only shows an error and changes
    nothing: the import has no model file. *)
Theorem slice_after_import_is_refused (file : File) (settings : Settings.t)
    (entries : list ZipEntry) (w : World) :
  readableSettings file = Some settings ->
  pngEntries file = Some entries ->
  Forall readable entries ->
  let w' := worldAfter (handleImportJob (Some file) w) in
  enabled (app w') ClickSlice = true /\
  step w' ClickSlice
  = Some (w', [ToastError "Please upload an STL file first."]).
Proof.
  intros Hs He Hr. cbv zeta.
  rewrite (import_of_readable_archive file settings entries w Hs He Hr).
  cbn [worldAfter fst snd]. unfold step.
  destruct w as [a ts nid]. destruct a. cbn. split; reflexivity.
Qed.

Lemma slice_after_import_is_refused_witness :
  let w' := worldAfter (handleImportJob (Some (exportedFile (slicedApp 3)))
                                        initialWorld) in
  step w' ClickSlice
  = Some (w', [ToastError "Please upload an STL file first."]).
Proof.
  cbv zeta.
  refine (proj2 (slice_after_import_is_refused (exportedFile (slicedApp 3))
                   {| Settings.slicingParams := slicingParams (slicedApp 3);
                      Settings.projectionParams := projectionParams (slicedApp 3);
                      Settings.alignmentParams := alignmentParams (slicedApp 3) |}
                   (exportEntries 0 (projectionImages (slicedApp 3)))
                   initialWorld eq_refl eq_refl _)).
  repeat constructor; discriminate.
Defined.

(** ** No timer outlives its session *)

#[local] Instance keepsOwned_PreOrder : PreOrder keepsOwned.
Proof.
  split.
  - intros w H. exact H.
  - intros w1 w2 w3 H12 H23 H. exact (H23 (H12 H)).
Qed.

(** A change of the state that leaves the sessions and their refs alone. *)
Ltac tidy_step :=
  apply respects_pure; try exact _;
  let w := fresh "w" in
  let H1 := fresh "H1" in
  let H2 := fresh "H2" in
  intros w [H1 H2]; split; [exact H1 | exact H2].

#[local] Hint Extern 1 (respects keepsOwned anyEffect (modifyApp _)) =>
  (unfold modifyApp; tidy_step) : handlers.

Lemma tidy_clearTimer (id : nat) : tidy (clearTimer id).
Proof.
  apply respects_pure; try exact _. intros w [H1 H2]. split; [exact H1|].
  cbn. apply Forall_forall. intros t Hin. apply filter_In in Hin.
  exact (proj1 (Forall_forall _ _) H2 t (proj1 Hin)).
Qed.

#[local] Hint Resolve tidy_clearTimer : handlers.

Lemma owned_noSimulationTimer (w : World) :
  timersOwned w ->
  truthy (timeoutId (printProcessRef (app w))) = false
  \/ isPrinting (app w) = false ->
  noSimulationTimer w.
Proof.
  intros [_ H] Hno. apply Forall_forall. intros t Hin.
  pose proof (proj1 (Forall_forall _ _) H t Hin) as [H1 Ht].
  unfold isSimulationTimer. destruct (callback t); [|reflexivity].
  destruct Ht as (_ & Hp & Hid). destruct Hno as [Hno|Hno].
  - rewrite Hid in Hno. destruct (timerId t); [lia | discriminate Hno].
  - congruence.
Qed.

Lemma owned_noPlaybackTimer (w : World) :
  timersOwned w ->
  truthy (testPrintIntervalRef (app w)) = false
  \/ isTestPrinting (app w) = false ->
  noPlaybackTimer w.
Proof.
  intros [_ H] Hno. apply Forall_forall. intros t Hin.
  pose proof (proj1 (Forall_forall _ _) H t Hin) as [H1 Ht].
  unfold isSimulationTimer. destruct (callback t); [reflexivity|].
  destruct Ht as (Hp & Hid). destruct Hno as [Hno|Hno].
  - rewrite Hid in Hno. destruct (timerId t); [lia | discriminate Hno].
  - congruence.
Qed.

(** Without a step pending, the print and its ref can change. *)
Lemma owned_print_changes (w : World) (a' : App) :
  timersOwned w ->
  noSimulationTimer w ->
  isTestPrinting a' = isTestPrinting (app w) ->
  testPrintIntervalRef a' = testPrintIntervalRef (app w) ->
  timersOwned {| app := a'; timers := timers w; nextTimerId := nextTimerId w |}.
Proof.
  intros [H1 H2] Hno Ht Hr. split; [exact H1|]. cbn.
  apply Forall_forall. intros t Hin.
  pose proof (proj1 (Forall_forall _ _) H2 t Hin) as [Hid Ho].
  pose proof (proj1 (Forall_forall _ _) Hno t Hin) as Hsim.
  unfold ownedBy, isSimulationTimer in *.
  destruct (callback t); [discriminate Hsim|].
  rewrite Ht, Hr. split; assumption.
Qed.

(** Without a frame pending, the playback and its ref can change. *)
Lemma owned_playback_changes (w : World) (a' : App) :
  timersOwned w ->
  noPlaybackTimer w ->
  isPrinting a' = isPrinting (app w) ->
  timeoutId (printProcessRef a') = timeoutId (printProcessRef (app w)) ->
  timersOwned {| app := a'; timers := timers w; nextTimerId := nextTimerId w |}.
Proof.
  intros [H1 H2] Hno Ht Hr. split; [exact H1|]. cbn.
  apply Forall_forall. intros t Hin.
  pose proof (proj1 (Forall_forall _ _) H2 t Hin) as [Hid Ho].
  pose proof (proj1 (Forall_forall _ _) Hno t Hin) as Hsim.
  unfold ownedBy, isSimulationTimer in *.
  destruct (callback t); [|discriminate Hsim].
  rewrite Ht, Hr. split; assumption.
Qed.

(** Clearing the timer of a ref leaves no timer of its session. *)
Lemma cleared_noSimulationTimer (w : World) :
  timersOwned w ->
  truthy (timeoutId (printProcessRef (app w))) = true ->
  noSimulationTimer
    (worldAfter (clearTimer (idOf (timeoutId (printProcessRef (app w)))) w)).
Proof.
  intros [_ H] Htrue. apply Forall_forall. cbn. intros t Hin.
  apply filter_In in Hin. destruct Hin as [Hin Hne].
  pose proof (proj1 (Forall_forall _ _) H t Hin) as [H1 Ht].
  unfold isSimulationTimer. destruct (callback t); [|reflexivity].
  destruct Ht as (_ & _ & Hid). rewrite Hid in Hne. cbn in Hne.
  rewrite Nat.eqb_refl in Hne. discriminate Hne.
Qed.

Lemma cleared_noPlaybackTimer (w : World) :
  timersOwned w ->
  truthy (testPrintIntervalRef (app w)) = true ->
  noPlaybackTimer
    (worldAfter (clearTimer (idOf (testPrintIntervalRef (app w))) w)).
Proof.
  intros [_ H] Htrue. apply Forall_forall. cbn. intros t Hin.
  apply filter_In in Hin. destruct Hin as [Hin Hne].
  pose proof (proj1 (Forall_forall _ _) H t Hin) as [H1 Ht].
  unfold isSimulationTimer. destruct (callback t); [reflexivity|].
  destruct Ht as (_ & Hid). rewrite Hid in Hne. cbn in Hne.
  rewrite Nat.eqb_refl in Hne. discriminate Hne.
Qed.

Lemma Forall_anyEffect (t : list Effect) : Forall anyEffect t.
Proof. induction t; constructor; [exact I | assumption]. Qed.

Lemma stopPrint_world (r : App) (w : World) :
  worldAfter (stopPrint r w) = printStopped w.
Proof.
  destruct_world w. destruct printProcessRef0 as [cf iid tid].
  unfold printStopped, clearedOf, droppedId. unfold_handlers. cbn.
  destruct iid as [[|i]|], tid as [[|t]|], (writeCharacteristic r),
    (isSimulationMode r), presentationConnectionRef0 as [[c [ | | | ]]|];
    reflexivity.
Qed.

Lemma stopTestPrint_world (w : World) :
  worldAfter (stopTestPrint w) = testStopped w.
Proof.
  destruct_world w.
  unfold testStopped, clearedOf, droppedId. unfold_handlers. cbn.
  destruct testPrintIntervalRef0 as [[|i]|],
    presentationConnectionRef0 as [[c [ | | | ]]|]; reflexivity.
Qed.

Lemma In_clearedOf (id : option nat) (ts : list Timer) (t : Timer) :
  In t (clearedOf id ts) ->
  In t ts /\ (truthy id = true -> timerId t <> idOf id).
Proof.
  unfold clearedOf. destruct (truthy id).
  - intro H. apply filter_In in H. destruct H as [Hin Hne].
    split; [exact Hin|]. intros _.
    apply negb_true_iff, Nat.eqb_neq in Hne. exact Hne.
  - intro H. split; [exact H | discriminate].
Qed.

Lemma printStopped_owned (w : World) :
  timersOwned w ->
  timersOwned (printStopped w) /\ noSimulationTimer (printStopped w).
Proof.
  intros [H1 H2].
  assert (H : forall t, In t (timers (printStopped w)) ->
                        ownedBy (app (printStopped w)) t /\
                        isSimulationTimer t = false).
  { intros t Hin. cbn in Hin.
    apply In_clearedOf in Hin. destruct Hin as [Hin Hne].
    apply In_clearedOf in Hin. destruct Hin as [Hin _].
    pose proof (proj1 (Forall_forall _ _) H2 t Hin) as [Hid Ho].
    unfold ownedBy, isSimulationTimer in *.
    destruct (callback t).
    - exfalso. destruct Ho as (_ & _ & Ho). rewrite Ho in Hne.
      apply Hne; [|reflexivity].
      destruct (timerId t); [lia | reflexivity].
    - split; [|reflexivity]. split; [exact Hid | exact Ho]. }
  split; [split; [exact H1|] |]; apply Forall_forall; intros t Hin;
    apply (H t Hin).
Qed.

Lemma testStopped_owned (w : World) :
  timersOwned w ->
  timersOwned (testStopped w) /\ noPlaybackTimer (testStopped w).
Proof.
  intros [H1 H2].
  assert (H : forall t, In t (timers (testStopped w)) ->
                        ownedBy (app (testStopped w)) t /\
                        isSimulationTimer t = true).
  { intros t Hin. cbn in Hin.
    apply In_clearedOf in Hin. destruct Hin as [Hin Hne].
    pose proof (proj1 (Forall_forall _ _) H2 t Hin) as [Hid Ho].
    unfold ownedBy, isSimulationTimer in *.
    destruct (callback t).
    - split; [|reflexivity]. split; [exact Hid | exact Ho].
    - exfalso. destruct Ho as (_ & Ho). rewrite Ho in Hne.
      apply Hne; [|reflexivity].
      destruct (timerId t); [lia | reflexivity]. }
  split; [split; [exact H1|] |]; apply Forall_forall; intros t Hin;
    apply (H t Hin).
Qed.

Lemma tidy_stopPrint (r : App) : tidy (stopPrint r).
Proof.
  intro w. split; [|apply Forall_anyEffect].
  intro H. rewrite stopPrint_world. exact (proj1 (printStopped_owned w H)).
Qed.

Lemma tidy_stopTestPrint : tidy stopTestPrint.
Proof.
  intro w. split; [|apply Forall_anyEffect].
  intro H. rewrite stopTestPrint_world. exact (proj1 (testStopped_owned w H)).
Qed.

#[local] Hint Resolve tidy_stopPrint tidy_stopTestPrint : handlers.

Lemma worldAfter_bind {A B} (m : M A) (k : A -> M B) (w w1 : World)
    (x : A) (t1 : list Effect) :
  m w = (Ok x, w1, t1) ->
  worldAfter (bind m k w) = worldAfter (k x w1).
Proof.
  intro H. unfold bind, worldAfter. rewrite H.
  destruct (k x w1) as [[res w2] t2]. reflexivity.
Qed.

Lemma worldAfter_getApp {B} (k : App -> M B) (w : World) :
  worldAfter (bind getApp k w) = worldAfter (k (app w) w).
Proof. apply (worldAfter_bind getApp k w w (app w) []). reflexivity. Qed.

Lemma worldAfter_modifyApp {B} (f : App -> App) (k : unit -> M B) (w : World) :
  worldAfter (bind (modifyApp f) k w)
  = worldAfter (k tt {| app := f (app w); timers := timers w;
                        nextTimerId := nextTimerId w |}).
Proof. apply (worldAfter_bind (modifyApp f) k w _ tt []). reflexivity. Qed.

Lemma worldAfter_emit {B} (e : Effect) (k : unit -> M B) (w : World) :
  worldAfter (bind (emit e) k w) = worldAfter (k tt w).
Proof. apply (worldAfter_bind (emit e) k w w tt [e]). reflexivity. Qed.

Lemma worldAfter_ret {A B} (x : A) (k : A -> M B) (w : World) :
  worldAfter (bind (ret x) k w) = worldAfter (k x w).
Proof. apply (worldAfter_bind (ret x) k w w x []). reflexivity. Qed.

(** A step of the simulated print keeps the timers owned, when it starts
    with no step pending. *)
Lemma runSimulationStep_owned (r : App) (n : nat) (w : World) :
  timersOwned w ->
  noSimulationTimer w ->
  isPrinting (app w) = true ->
  timersOwned (worldAfter (runSimulationStep r n w)).
Proof.
  intros HJ Hno Hp. unfold runSimulationStep.
  rewrite worldAfter_getApp.
  destruct (n <=? currentFrame (printProcessRef (app w))).
  - rewrite stopPrint_world. exact (proj1 (printStopped_owned w HJ)).
  - set (rest :=
           assignCurrentFrame (S (currentFrame (printProcessRef (app w)))) ;;
           id <- setTimeout (RunSimulationStep r n) (simulationDelay r n) ;;
           assignTimeoutId (Some id)).
    assert (Hsend : forall m : M unit,
               m w = (Throw "InvalidStateError", w, [])
               \/ (exists t, m w = (Ok tt, w, t)) ->
               worldAfter ((m ;; rest) w) = w
               \/ worldAfter ((m ;; rest) w) = worldAfter (rest w)).
    { intros m [Hm|(t & Hm)].
      - left. unfold bind. rewrite Hm. reflexivity.
      - right. exact (worldAfter_bind m _ w w tt t Hm). }
    match goal with
    | |- timersOwned (worldAfter ((?m ;; _) w)) =>
        destruct (Hsend m) as [Hw|Hw]
    end.
    { destruct (presentationConnectionRef (app w)) as [[c [ | | | ]]|];
        unfold send; cbn [state];
        solve [ left; reflexivity | right; eexists; reflexivity ]. }
    { fold rest. rewrite Hw. exact HJ. }
    fold rest. rewrite Hw. clear Hw Hsend. subst rest.
    destruct HJ as [H1 H2]. destruct w as [a ts nid].
    cbn [app timers nextTimerId] in *.
    unfold_handlers. cbn. split; [cbn; lia|]. cbn [timers app].
    apply Forall_app. split.
    + apply Forall_forall. intros t Hin.
      pose proof (proj1 (Forall_forall _ _) H2 t Hin) as [Hid Ho].
      pose proof (proj1 (Forall_forall _ _) Hno t Hin) as Hsim.
      unfold ownedBy, isSimulationTimer in *.
      destruct (callback t); [discriminate Hsim|].
      destruct a. cbn in *. split; assumption.
    + constructor; [|constructor]. unfold ownedBy. destruct a. cbn in *.
      repeat split; try assumption; reflexivity.
Qed.

Lemma handlePrint_owned (w : World) (rejected : option string) :
  timersOwned w ->
  timersOwned (worldAfter (handlePrint (app w) rejected w)).
Proof.
  intro HJ. unfold handlePrint.
  destruct (isPrinting (app w)) eqn:Hp.
  - rewrite stopPrint_world. exact (proj1 (printStopped_owned w HJ)).
  - pose proof (owned_noSimulationTimer w HJ (or_intror Hp)) as Hno.
    destruct (isSimulationMode (app w)).
    + rewrite worldAfter_getApp.
      destruct (negb (isConnectedState (presentationConnectionRef (app w)))).
      * exact HJ.
      * unfold setIsPrinting, assignCurrentFrame.
        rewrite worldAfter_modifyApp, worldAfter_modifyApp.
        apply runSimulationStep_owned.
        -- apply (owned_print_changes w); try assumption; reflexivity.
        -- exact Hno.
        -- reflexivity.
    + destruct (writeCharacteristic (app w)) as [c|]; [|exact HJ].
      unfold setIsPrinting. rewrite worldAfter_modifyApp.
      destruct rejected as [e|]; unfold_handlers; cbn [fst snd];
        apply (owned_print_changes w); try assumption; reflexivity.
Qed.

Lemma handleTestPrint_owned (w : World) :
  timersOwned w ->
  timersOwned (worldAfter (handleTestPrint (app w) w)).
Proof.
  intro HJ. unfold handleTestPrint.
  destruct (isTestPrinting (app w)) eqn:Hp.
  - rewrite stopTestPrint_world. exact (proj1 (testStopped_owned w HJ)).
  - pose proof (owned_noPlaybackTimer w HJ (or_intror Hp)) as Hno.
    destruct (List.length (projectionImages (app w)) =? 0); [exact HJ|].
    rewrite worldAfter_getApp.
    destruct (negb (isConnectedState (presentationConnectionRef (app w))));
      [exact HJ|].
    destruct HJ as [H1 H2].
    assert (Hold : forall a',
               isPrinting a' = isPrinting (app w) ->
               timeoutId (printProcessRef a')
               = timeoutId (printProcessRef (app w)) ->
               Forall (ownedBy a') (timers w)).
    { intros a' Ha Hb. apply Forall_forall. intros t Hin.
      pose proof (proj1 (Forall_forall _ _) H2 t Hin) as [Hid Ho].
      pose proof (proj1 (Forall_forall _ _) Hno t Hin) as Hsim.
      unfold ownedBy, isSimulationTimer in *.
      destruct (callback t); [|discriminate Hsim].
      rewrite Ha, Hb. split; assumption. }
    unfold_handlers.
    destruct (isCalibrating (app w)); cbn -[ownedBy];
      (split; [cbn; lia|]); cbn [timers app];
      (apply Forall_app; split;
       [apply Hold; reflexivity
       |constructor; [|constructor]; unfold ownedBy; cbn;
        repeat split; assumption]).
Qed.

Lemma updateCallback_owned (id : nat) (r : App) (f : nat) (w : World) :
  timersOwned w ->
  (isTestPrinting (app w) = true /\ testPrintIntervalRef (app w) = Some id)
  \/ Forall (fun t => timerId t <> id) (timers w) ->
  timersOwned (worldAfter (updateCallback id (TestPrintFrame r f) w)).
Proof.
  intros [H1 H2] Hid. split; [exact H1|]. cbn.
  apply Forall_forall. intros t' Hin. apply in_map_iff in Hin.
  destruct Hin as (t & <- & Hin).
  pose proof (proj1 (Forall_forall _ _) H2 t Hin) as Ho.
  destruct (Nat.eqb_spec (timerId t) id) as [E|E]; [|exact Ho].
  destruct Hid as [[Ha Hb]|Hne].
  - unfold ownedBy. cbn. rewrite E. destruct Ho as [Ho _]. rewrite E in Ho.
    repeat split; assumption.
  - exfalso. exact (proj1 (Forall_forall _ _) Hne t Hin E).
Qed.

Lemma fireTimer_owned (n : nat) (w : World) :
  timersOwned w -> timersOwned (worldAfter (fireTimer n w)).
Proof.
  intro HJ. unfold fireTimer.
  destruct (nth_error (timers w) n) as [t|] eqn:E; [|exact HJ].
  apply nth_error_In in E.
  pose proof (proj1 (Forall_forall _ _) (proj2 HJ) t E) as [Hid Ho].
  unfold runTimer. destruct (callback t) as [r total | r f].
  - destruct Ho as (Hrep & Hp & Href). rewrite Hrep. cbn [negb when].
    unfold removeTimer.
    rewrite (worldAfter_bind (clearTimer (timerId t)) _ w _ tt [] eq_refl).
    apply runSimulationStep_owned.
    + exact (proj1 (tidy_clearTimer (timerId t) w) HJ).
    + pose proof (cleared_noSimulationTimer w HJ) as Hc.
      rewrite Href in Hc. cbn [idOf] in Hc. apply Hc.
      destruct (timerId t); [lia | reflexivity].
    + exact Hp.
  - destruct Ho as (Hp & Href).
    set (w1 := worldAfter (when (negb (repeats t)) (removeTimer (timerId t)) w)).
    assert (Hw1 : when (negb (repeats t)) (removeTimer (timerId t)) w
                  = (Ok tt, w1, [])).
    { subst w1. destruct (repeats t); reflexivity. }
    assert (HJ1 : timersOwned w1).
    { subst w1. destruct (repeats t); cbn [negb when];
        [exact HJ | exact (proj1 (tidy_clearTimer (timerId t) w) HJ)]. }
    assert (Ha1 : app w1 = app w).
    { subst w1. destruct (repeats t); reflexivity. }
    rewrite (worldAfter_bind _ _ w w1 tt [] Hw1).
    unfold testPrintFrame.
    destruct (isConnectedState (presentationConnectionRef (app w1))) eqn:Ec.
    + assert (Hsend : forall k : nat -> M unit,
                 worldAfter
                   ((x <- (a <- getApp ;;
                           if isConnectedState (presentationConnectionRef a)
                           then
                             match presentationConnectionRef a with
                             | Some c =>
                                 send c (UPDATE_IMAGE
                                           (nth_error (projectionImages r) f))
                             | None => ret tt
                             end ;;
                             ret ((f + 1) mod List.length (projectionImages r))
                           else stopTestPrint ;; ret f) ;;
                     k x) w1)
                 = worldAfter
                     (k ((f + 1) mod List.length (projectionImages r)) w1)).
      { intro k. unfold bind at 1. unfold bind at 1. unfold getApp at 1.
        rewrite Ec.
        destruct (presentationConnectionRef (app w1)) as [[c [ | | | ]]|];
          try discriminate Ec;
          unfold_handlers; cbn [fst snd state connectionId];
          destruct (k _ w1) as [[res w2] t2]; reflexivity. }
      rewrite Hsend. apply updateCallback_owned; [exact HJ1|].
      left. rewrite Ha1. split; assumption.
    + assert (Hstop : forall k : nat -> M unit,
                 worldAfter
                   ((x <- (a <- getApp ;;
                           if isConnectedState (presentationConnectionRef a)
                           then
                             match presentationConnectionRef a with
                             | Some c =>
                                 send c (UPDATE_IMAGE
                                           (nth_error (projectionImages r) f))
                             | None => ret tt
                             end ;;
                             ret ((f + 1) mod List.length (projectionImages r))
                           else stopTestPrint ;; ret f) ;;
                     k x) w1)
                 = worldAfter (k f (testStopped w1))).
      { intro k. unfold bind at 1. unfold bind at 1. unfold getApp at 1.
        rewrite Ec. unfold bind at 1.
        pose proof (stopTestPrint_world w1) as Hs. unfold worldAfter in Hs.
        destruct (stopTestPrint w1) as [[[[]|e] w2] t2] eqn:Es;
          cbn [fst snd] in Hs; subst w2.
        - unfold ret at 1. cbn [fst snd].
          destruct (k f (testStopped w1)) as [[res w3] t3]. reflexivity.
        - exfalso. revert Es. unfold stopTestPrint. unfold_handlers.
          destruct (truthy (testPrintIntervalRef (app w1)));
            destruct (presentationConnectionRef _) as [[c [ | | | ]]|];
            discriminate. }
      rewrite Hstop. apply updateCallback_owned.
      * exact (proj1 (testStopped_owned w1 HJ1)).
      * right. cbn [testStopped timers]. rewrite Ha1, Href.
        apply Forall_forall. intros t' Hin.
        apply In_clearedOf in Hin. destruct Hin as [_ Hne].
        apply Hne. destruct (timerId t); [lia | reflexivity].
Qed.

Lemma tidy_promiseAll (entries : list ZipEntry) : tidy (promiseAll entries).
Proof.
  induction entries as [|e rest IH]; cbn [promiseAll]; [auto with handlers|].
  destruct (base64 e); [|auto with handlers].
  apply respects_bind; try exact _; [exact IH | intro; auto with handlers].
Qed.

#[local] Hint Resolve tidy_promiseAll : handlers.

(** The handlers that start no session and fire no timer. *)
Lemma tidy_handle (r : App) (e : Event) :
  match e with
  | ClickPrint _ | ClickTestPrint | TimerFired _ | PrintWriteRejected _ => False
  | _ => True
  end ->
  tidy (handle r e).
Proof.
  intro He. destruct e; try contradiction; cbn [handle];
    try (unfold_event_handlers; unfold handleCalibration, handleImportJob,
           importBody; unfold_setters; solve [respects_steps]).
Qed.

Lemma handle_owned (w : World) (e : Event) :
  isLateRejection e = false ->
  timersOwned w -> timersOwned (worldAfter (handle (app w) e w)).
Proof.
  intros He HJ.
  destruct e; try discriminate He;
    match goal with
    | |- timersOwned (worldAfter (handle _ ?e _)) =>
        try exact (proj1 (tidy_handle (app w) e I w) HJ)
    end.
  - exact (handleTestPrint_owned w HJ).
  - cbn [handle]. destruct (isPrinting (app w)).
    + rewrite stopPrint_world. exact (proj1 (printStopped_owned w HJ)).
    + exact (handlePrint_owned w rejected HJ).
  - exact (fireTimer_owned n w HJ).
Qed.

Lemma run_owned (events : list Event) :
  forall w w' trace,
    existsb isLateRejection events = false ->
    run w events = Some (w', trace) ->
    timersOwned w -> timersOwned w'.
Proof.
  induction events as [|e rest IH]; cbn [run existsb];
    intros w w' trace Hno Hrun HJ.
  - inversion Hrun; subst. exact HJ.
  - apply orb_false_elim in Hno. destruct Hno as [He Hrest].
    destruct (step w e) as [[w1 t1]|] eqn:Hstep; [|discriminate].
    destruct (run w1 rest) as [[w2 t2]|] eqn:Hrun'; [|discriminate].
    inversion Hrun; subst.
    apply (IH w1 w' t2 Hrest Hrun').
    unfold step in Hstep. destruct (enabled (app w) e); [|discriminate].
    pose proof (handle_owned w e He HJ) as H. unfold worldAfter in H.
    destruct (handle (app w) e w) as [[res w3] t3]. cbn [fst snd] in H.
    inversion Hstep; subst. exact H.
Qed.

(** X21.  No timer outlives its session, as long as no print command is
    rejected after the turn of its click.  In every state that the
    component reaches through such events, each pending timer belongs to a
    session that is active and holds its id in its ref, where stopping finds
    it: a step of the simulated print while [isPrinting], a frame of the
    test playback while [isTestPrinting], and never with the id zero; with
    neither session active, no timer is pending.  A late rejection breaks
    this: when the print on the device was stopped and a simulated print
    started before the rejection arrives, the rejection lowers [isPrinting]
    and the step of the simulated print stays pending. *)
Theorem no_timer_outlives_its_session (events : list Event) (w : World)
    (trace : list Effect) :
  existsb isLateRejection events = false ->
  run initialWorld events = Some (w, trace) ->
  (timersOwned w /\
   (isPrinting (app w) = false -> isTestPrinting (app w) = false ->
    timers w = [])) /\
  (isPrinting (app lateRejectionWorld) = false /\
   isTestPrinting (app lateRejectionWorld) = false /\
   List.length (timers lateRejectionWorld) = 1).
Proof.
  intros Hno Hrun. split; [|repeat split; reflexivity].
  assert (HJ : timersOwned w).
  { apply (run_owned events initialWorld w trace Hno Hrun).
    split; [cbn; lia | constructor]. }
  split; [exact HJ|].
  intros Hp Ht. destruct HJ as [_ H].
  destruct (timers w) as [|t ts]; [reflexivity|]. exfalso.
  inversion H as [|t' ts' [_ Ho] _]; subst.
  destruct (callback t); [destruct Ho as (_ & Ho & _) | destruct Ho as (Ho & _)];
    congruence.
Qed.

Lemma no_timer_outlives_its_session_witness :
  timersOwned simulatedPrintWorld /\ List.length (timers simulatedPrintWorld) = 1.
Proof.
  split; [|reflexivity].
  refine (proj1 (proj1 (no_timer_outlives_its_session simulatedPrintEvents
                          simulatedPrintWorld
                          (snd (match run initialWorld simulatedPrintEvents with
                                | Some x => x
                                | None => (initialWorld, [])
                                end)) _ _))).
  - reflexivity.
  - vm_compute. reflexivity.
Defined.

(** ** The link to the device *)

#[local] Instance keepsLink_PreOrder : PreOrder keepsLink.
Proof.
  split.
  - intro w. split; reflexivity.
  - intros w1 w2 w3 (A1 & B1) (A2 & B2). split; congruence.
Qed.

Ltac link_step :=
  apply respects_pure; try exact _; intro; split; reflexivity.

#[local] Hint Extern 1 (respects keepsLink anyEffect (modifyApp _)) =>
  (unfold modifyApp; link_step) : handlers.
#[local] Hint Extern 1 (respects keepsLink anyEffect (clearTimer _)) =>
  (unfold clearTimer; link_step) : handlers.
#[local] Hint Extern 1 (respects keepsLink anyEffect (addTimer _ _ _)) =>
  (unfold addTimer; link_step) : handlers.
#[local] Hint Extern 1 (respects keepsLink anyEffect (updateCallback _ _)) =>
  (unfold updateCallback; link_step) : handlers.

Lemma offLink_stopPrint (r : App) : offLink (stopPrint r).
Proof. unfold stopPrint. unfold_setters. respects_steps. Qed.

Lemma offLink_stopTestPrint : offLink stopTestPrint.
Proof. unfold stopTestPrint. unfold_setters. respects_steps. Qed.

#[local] Hint Resolve offLink_stopPrint offLink_stopTestPrint : handlers.

Lemma offLink_runSimulationStep (r : App) (n : nat) :
  offLink (runSimulationStep r n).
Proof. unfold runSimulationStep. unfold_setters. respects_steps. Qed.

Lemma offLink_testPrintFrame (r : App) (f : nat) : offLink (testPrintFrame r f).
Proof. unfold testPrintFrame. unfold_setters. respects_steps. Qed.

#[local] Hint Resolve offLink_runSimulationStep offLink_testPrintFrame : handlers.

Lemma offLink_fireTimer (n : nat) : offLink (fireTimer n).
Proof.
  intro w. unfold fireTimer.
  destruct (nth_error (timers w) n) as [t|].
  - revert w. change (offLink (runTimer t)).
    unfold runTimer. unfold_setters. respects_steps.
  - split; [reflexivity | constructor].
Qed.

Lemma offLink_promiseAll (entries : list ZipEntry) : offLink (promiseAll entries).
Proof.
  induction entries as [|e rest IH]; cbn [promiseAll]; [auto with handlers|].
  destruct (base64 e); [|auto with handlers].
  apply respects_bind; try exact _; [exact IH | intro; auto with handlers].
Qed.

#[local] Hint Resolve offLink_fireTimer offLink_promiseAll : handlers.

(** Only pairing and the loss of the device touch the link. *)
Lemma offLink_handle (r : App) (e : Event) :
  match e with
  | ClickPair _ | GattServerDisconnected _ => False
  | _ => True
  end ->
  offLink (handle r e).
Proof.
  intro He. destruct e; try contradiction; cbn [handle];
    try (unfold_event_handlers;
         unfold handleCalibration, handleTestPrint, handlePrint, writeValue,
           handleImportJob, importBody;
         unfold_setters; solve [respects_steps]).
Qed.

Lemma handle_linked (r : App) (e : Event) (w : World) :
  linked (app w) -> linked (app (worldAfter (handle r e w))).
Proof.
  intro HL.
  assert (Hoff : forall e',
             match e' with
             | ClickPair _ | GattServerDisconnected _ => False
             | _ => True
             end ->
             linked (app (worldAfter (handle r e' w)))).
  { intros e' He'. destruct (offLink_handle r e' He' w) as [[H1 H2] _].
    unfold linked in *. rewrite H1, H2. exact HL. }
  destruct e;
    match goal with
    | |- linked (app (worldAfter (handle _ ?e' _))) => try exact (Hoff e' I)
    end.
  - cbn [handle]. unfold handlePair.
    destruct answer as [c|err]; unfold_handlers; [reflexivity | exact HL].
  - cbn [handle]. unfold gattserverdisconnected.
    unfold setIsConnected, setWriteCharacteristic.
    rewrite worldAfter_modifyApp, worldAfter_modifyApp, worldAfter_emit.
    match goal with
    | |- linked (app (worldAfter (stopPrint ?r ?w0))) =>
        destruct (offLink_stopPrint r w0) as [[H1 H2] _]
    end.
    unfold linked. rewrite H1, H2. reflexivity.
Qed.

Lemma reachable_linked (w : World) : reachable w -> linked (app w).
Proof.
  induction 1 as [|w e w' trace _ IH Hstep]; [reflexivity|].
  unfold step in Hstep. destruct (enabled (app w) e); [|discriminate].
  pose proof (handle_linked (app w) e w IH) as H. unfold worldAfter in H.
  destruct (handle (app w) e w) as [[res w1] t1]. cbn [fst snd] in H.
  inversion Hstep; subst. exact H.
Qed.

(** X22.  The component shows the device as connected exactly when it holds
    a characteristic, in every state it can reach.  So outside simulation
    mode a click on the Print button, whenever the button is enabled, writes
    one command to the device: the print command to start a print, the zero
    command to stop one; the handler's refusal for want of a device is never
    met. *)
Theorem print_button_reaches_the_device (w : World) (rejected : option string) :
  reachable w ->
  isSimulationMode (app w) = false ->
  enabled (app w) (ClickPrint rejected) = true ->
  linked (app w) /\
  exists w' trace,
    step w (ClickPrint rejected) = Some (w', trace) /\
    writes trace = [commandOfClick (app w)].
Proof.
  intros Hw Hsim Hen. pose proof (reachable_linked w Hw) as HL.
  split; [exact HL|].
  unfold step. rewrite Hen. cbn [handle].
  assert (Hc : exists c, writeCharacteristic (app w) = Some c).
  { unfold enabled in Hen. unfold linked in HL. rewrite Hsim, HL in Hen.
    destruct (writeCharacteristic (app w)) as [c|];
      [exists c; reflexivity | discriminate Hen]. }
  destruct Hc as [c Hc]. unfold commandOfClick.
  destruct (isPrinting (app w)) eqn:Hp.
  - pose proof (stopPrint_writes (app w) w c Hsim Hc) as Hwr.
    unfold traceOf in Hwr.
    destruct (stopPrint (app w) w) as [[res w'] trace].
    exists w', trace. split; [reflexivity | exact Hwr].
  - pose proof (handlePrint_real_trace (app w) w c rejected Hp Hsim Hc) as Hwr.
    unfold traceOf in Hwr.
    destruct (handlePrint (app w) rejected w) as [[res w'] trace].
    exists w', trace. split; [reflexivity | exact Hwr].
Qed.

Lemma devicePrintWorld_reachable : reachable devicePrintWorld.
Proof.
  apply (run_reachable
           [ SelectFile "part.stl"; ClickSlice; SliceCompleted twoImages 1;
             ClickOpenProjectionWindow;
             ConnectionAvailable {| connectionId := 1; state := connecting |};
             ConnectionStateChange connected;
             ClickPair (inl 7);
             ClickPrint None ]
           initialWorld devicePrintWorld
           (snd (match run initialWorld
                         [ SelectFile "part.stl"; ClickSlice;
                           SliceCompleted twoImages 1;
                           ClickOpenProjectionWindow;
                           ConnectionAvailable
                             {| connectionId := 1; state := connecting |};
                           ConnectionStateChange connected;
                           ClickPair (inl 7);
                           ClickPrint None ] with
                 | Some x => x
                 | None => (initialWorld, [])
                 end))).
  - vm_compute. reflexivity.
  - constructor.
Defined.

Lemma print_button_reaches_the_device_witness :
  exists w' trace,
    step devicePrintWorld (ClickPrint None) = Some (w', trace) /\
    writes trace = [stopCommand].
Proof.
  exact (proj2 (print_button_reaches_the_device devicePrintWorld None
                  devicePrintWorld_reachable eq_refl eq_refl)).
Defined.

(** ** The images and the model file *)

#[local] Instance keepsJob_PreOrder : PreOrder keepsJob.
Proof.
  split.
  - intro w. repeat split; reflexivity.
  - intros w1 w2 w3 (A1 & B1 & C1) (A2 & B2 & C2). repeat split; congruence.
Qed.

Ltac job_step :=
  apply respects_pure; try exact _; intro; repeat split; reflexivity.

#[local] Hint Extern 1 (respects keepsJob anyEffect (modifyApp _)) =>
  (unfold modifyApp; job_step) : handlers.
#[local] Hint Extern 1 (respects keepsJob anyEffect (clearTimer _)) =>
  (unfold clearTimer; job_step) : handlers.
#[local] Hint Extern 1 (respects keepsJob anyEffect (addTimer _ _ _)) =>
  (unfold addTimer; job_step) : handlers.
#[local] Hint Extern 1 (respects keepsJob anyEffect (updateCallback _ _)) =>
  (unfold updateCallback; job_step) : handlers.

Lemma offJob_stopPrint (r : App) : offJob (stopPrint r).
Proof. unfold stopPrint. unfold_setters. respects_steps. Qed.

Lemma offJob_stopTestPrint : offJob stopTestPrint.
Proof. unfold stopTestPrint. unfold_setters. respects_steps. Qed.

#[local] Hint Resolve offJob_stopPrint offJob_stopTestPrint : handlers.

Lemma offJob_runSimulationStep (r : App) (n : nat) :
  offJob (runSimulationStep r n).
Proof. unfold runSimulationStep. unfold_setters. respects_steps. Qed.

Lemma offJob_testPrintFrame (r : App) (f : nat) : offJob (testPrintFrame r f).
Proof. unfold testPrintFrame. unfold_setters. respects_steps. Qed.

#[local] Hint Resolve offJob_runSimulationStep offJob_testPrintFrame : handlers.

Lemma offJob_fireTimer (n : nat) : offJob (fireTimer n).
Proof.
  intro w. unfold fireTimer.
  destruct (nth_error (timers w) n) as [t|].
  - revert w. change (offJob (runTimer t)).
    unfold runTimer. unfold_setters. respects_steps.
  - split; [repeat split; reflexivity | constructor].
Qed.

#[local] Hint Resolve offJob_fireTimer : handlers.

(** Only the choice of a file, slicing and import touch the job. *)
Lemma offJob_handle (r : App) (e : Event) :
  match e with
  | SelectFile _ | ClickSlice | SliceCompleted _ _ | ChooseImportFile _ => False
  | _ => True
  end ->
  offJob (handle r e).
Proof.
  intro He. destruct e; try contradiction; cbn [handle];
    try (unfold_event_handlers;
         unfold handleCalibration, handleTestPrint, handlePrint, writeValue;
         unfold_setters; solve [respects_steps]).
Qed.

Lemma promiseAll_pngUrl (entries : list ZipEntry) (w : World) :
  forall images w1 t1,
    promiseAll entries w = (Ok images, w1, t1) ->
    Forall pngUrl (map image_data images).
Proof.
  induction entries as [|e rest IH]; cbn [promiseAll]; intros images w1 t1 H.
  - inversion H. constructor.
  - destruct (base64 e) as [data|]; [|discriminate H].
    unfold bind in H.
    destruct (promiseAll rest w) as [[[imgs|err] w2] t2] eqn:E;
      [|discriminate H].
    cbn in H. inversion H. subst. cbn [map image_data]. constructor.
    + exists data. reflexivity.
    + eapply IH. reflexivity.
Qed.

Lemma handleImportJob_jobOk (file : option File) (w : World) :
  jobOk (app w) -> jobOk (app (worldAfter (handleImportJob file w))).
Proof.
  intro HJ. unfold handleImportJob. destruct file as [file|]; [|exact HJ].
  unfold importBody.
  unfold setSlicingParams, setProjectionParams, setAlignmentParams,
    setProjectionImages, setFileName, setStlFile, setSlicingStatus,
    setSlicingStats, setActiveTab.
  destruct file as [nm [[[[|settings]|] folder]|]];
    cbv [try_catch bind ret throw emit modifyApp resultOf worldAfter traceOf];
    cbn [zip settings_json projections app timers nextTimerId fst snd];
    try exact HJ.
  match goal with
  | |- context [promiseAll ?es ?w0] =>
      destruct (promiseAll_pure es w0) as [Hw Ht];
      pose proof (promiseAll_pngUrl es w0) as Hpng;
      unfold worldAfter, traceOf in Hw, Ht;
      destruct (promiseAll es w0) as [[[imgs|err] w1] t1]
  end; cbn [fst snd] in *; subst.
  - cbn. split.
    + specialize (Hpng imgs _ _ eq_refl).
      apply (Permutation_Forall
               (Permutation_map image_data
                  (Permutation_sym (sortImages_Permutation imgs)))).
      exact Hpng.
    + intros f Hf. discriminate Hf.
  - cbn. exact HJ.
Qed.

Lemma importEffect_world (file : option File) (w : World) :
  worldAfter (importEffect file w) = w.
Proof.
  unfold importEffect, alignmentEffect.
  destruct file as [[nm [[[[|s]|] folder]|]]|]; try reflexivity.
  unfold_handlers.
  destruct (presentationConnectionRef (app w)) as [[c [ | | | ]]|];
    reflexivity.
Qed.

Lemma handle_jobOk (r : App) (e : Event) (w : World) :
  jobOk (app w) -> jobOk (app (worldAfter (handle r e w))).
Proof.
  intro HJ.
  assert (Hoff : forall e',
             match e' with
             | SelectFile _ | ClickSlice | SliceCompleted _ _
             | ChooseImportFile _ => False
             | _ => True
             end ->
             jobOk (app (worldAfter (handle r e' w)))).
  { intros e' He'. destruct (offJob_handle r e' He' w) as [(H1 & H2 & H3) _].
    unfold jobOk in *. rewrite H1, H2, H3. exact HJ. }
  destruct e;
    match goal with
    | |- jobOk (app (worldAfter (handle _ ?e' _))) => try exact (Hoff e' I)
    end.
  - cbn [handle]. unfold processFile.
    destruct (endsWith (toLowerCase fileName0) ".stl"); unfold_setters;
      cbv [bind emit modifyApp worldAfter]; cbn;
      (split; [exact (proj1 HJ)|]); intros f Hf;
      [exact Hf | discriminate Hf].
  - cbn [handle]. unfold handleSlice.
    destruct (stlFile r); [|exact HJ]. unfold_setters.
    cbv [bind emit modifyApp worldAfter]. cbn.
    split; [constructor | exact (proj2 HJ)].
  - cbn [handle]. unfold sliceComplete. unfold_setters.
    cbv [bind emit modifyApp worldAfter]. cbn.
    split; [|exact (proj2 HJ)].
    apply Forall_forall. intros image Hin. apply in_map_iff in Hin.
    destruct Hin as (data & <- & _). exists data. reflexivity.
  - cbn [handle].
    rewrite (worldAfter_bind (handleImportJob file) _ w
               (worldAfter (handleImportJob file w))
               (match resultOf (handleImportJob file w) with
                | Ok x => x
                | Throw _ => None
                end)
               (traceOf (handleImportJob file w))).
    + rewrite importEffect_world. exact (handleImportJob_jobOk file w HJ).
    + unfold handleImportJob, worldAfter, resultOf, traceOf.
      destruct file as [file|]; [|reflexivity].
      unfold try_catch.
      destruct ((importBody file ;; ret None) w) as [[[x|err] w1] t1];
        reflexivity.
Qed.

Lemma reachable_jobOk (w : World) : reachable w -> jobOk (app w).
Proof.
  induction 1 as [|w e w' trace _ IH Hstep].
  - split; [constructor | intros f Hf; discriminate Hf].
  - unfold step in Hstep. destruct (enabled (app w) e); [|discriminate].
    pose proof (handle_jobOk (app w) e w IH) as H. unfold worldAfter in H.
    destruct (handle (app w) e w) as [[res w1] t1]. cbn [fst snd] in H.
    inversion Hstep; subst. exact H.
Qed.

(** X23.  In every state that the component can reach, each image of the
    image set is a PNG data URL, so that export finds the base64 text that
    it cuts off after the comma, and a model file that is held has given
    the file name, so that the Slice button is enabled for it unless slicing
    runs. *)
Theorem job_is_well_formed (w : World) :
  reachable w ->
  Forall (fun image => pngUrl image /\ splitComma1 image <> None)
         (projectionImages (app w)) /\
  (stlFile (app w) <> None ->
   enabled (app w) ClickSlice = negb (isSlicing (slicingStatus (app w)))).
Proof.
  intro Hw. destruct (reachable_jobOk w Hw) as [Himg Hfile]. split.
  - apply Forall_forall. intros image Hin.
    pose proof (proj1 (Forall_forall _ _) Himg image Hin) as Hpng.
    split; [exact Hpng|]. destruct Hpng as [data ->].
    unfold splitComma1. cbn. destruct (cutAtComma data); discriminate.
  - intro Hstl. destruct (stlFile (app w)) as [f|] eqn:E; [|contradiction].
    unfold enabled. rewrite (Hfile f eq_refl). reflexivity.
Qed.

Lemma job_is_well_formed_witness :
  Forall (fun image => pngUrl image /\ splitComma1 image <> None)
         (projectionImages (app simulatedPrintWorld)).
Proof.
  exact (proj1 (job_is_well_formed simulatedPrintWorld
                  simulatedPrintWorld_reachable)).
Defined.

(** ** Calibration and alignment, as the window sees them *)

(** X24.  With the window connected and no test playback, a click on
    Calibrate sends the order to show the crosshair, and the window shows
    it whatever it showed before; a second click sends the order to hide it
    and brings the component back to the state before the first click, and
    a window that showed no crosshair before shows again what it showed. *)
Theorem calibration_toggles_the_crosshair (w : World) (c : nat)
    (s : ProjectionView.State) :
  windowConnected w c ->
  isCalibrating (app w) = false ->
  isTestPrinting (app w) = false ->
  exists w1,
    step w ClickCalibration = Some (w1, [Send c (TOGGLE_CALIBRATION true)]) /\
    isCalibrating (app w1) = true /\
    ProjectionView.display (receive [TOGGLE_CALIBRATION true] s)
    = ProjectionView.Crosshair /\
    step w1 ClickCalibration = Some (w, [Send c (TOGGLE_CALIBRATION false)]) /\
    (ProjectionView.showCalibration s = false ->
     receive [TOGGLE_CALIBRATION true; TOGGLE_CALIBRATION false] s = s).
Proof.
  intros [Hc Hs] Hcal Ht. destruct_world w. subst.
  eexists. split; [|split; [|split; [|split]]].
  - unfold step. cbn. unfold_handlers. cbn. reflexivity.
  - reflexivity.
  - reflexivity.
  - unfold step. cbn. unfold_handlers. cbn. reflexivity.
  - intro Hshow. destruct s. cbn in *. subst. reflexivity.
Qed.

Lemma calibration_toggles_the_crosshair_witness :
  exists w1,
    step projectingWorld ClickCalibration
    = Some (w1, [Send 1 (TOGGLE_CALIBRATION true)]) /\
    isCalibrating (app w1) = true.
Proof.
  destruct (calibration_toggles_the_crosshair projectingWorld 1
              ProjectionView.initial)
    as (w1 & H1 & H2 & _).
  - split; reflexivity.
  - reflexivity.
  - reflexivity.
  - exists w1. split; [exact H1 | exact H2].
Defined.

#[local] Instance keepsAlignment_PreOrder : PreOrder keepsAlignment.
Proof.
  split.
  - intro w. reflexivity.
  - intros w1 w2 w3 H12 H23. unfold keepsAlignment in *. congruence.
Qed.

Ltac alignment_step :=
  apply respects_pure; try exact _; intro; reflexivity.

#[local] Hint Extern 1 (respects keepsAlignment anyEffect (modifyApp _)) =>
  (unfold modifyApp; alignment_step) : handlers.
#[local] Hint Extern 1 (respects keepsAlignment anyEffect (clearTimer _)) =>
  (unfold clearTimer; alignment_step) : handlers.
#[local] Hint Extern 1 (respects keepsAlignment anyEffect (addTimer _ _ _)) =>
  (unfold addTimer; alignment_step) : handlers.
#[local] Hint Extern 1 (respects keepsAlignment anyEffect (updateCallback _ _)) =>
  (unfold updateCallback; alignment_step) : handlers.

Lemma offAlignment_stopPrint (r : App) : offAlignment (stopPrint r).
Proof. unfold stopPrint. unfold_setters. respects_steps. Qed.

Lemma offAlignment_stopTestPrint : offAlignment stopTestPrint.
Proof. unfold stopTestPrint. unfold_setters. respects_steps. Qed.

#[local] Hint Resolve offAlignment_stopPrint offAlignment_stopTestPrint : handlers.

Lemma offAlignment_runSimulationStep (r : App) (n : nat) :
  offAlignment (runSimulationStep r n).
Proof. unfold runSimulationStep. unfold_setters. respects_steps. Qed.

Lemma offAlignment_testPrintFrame (r : App) (f : nat) :
  offAlignment (testPrintFrame r f).
Proof. unfold testPrintFrame. unfold_setters. respects_steps. Qed.

#[local] Hint Resolve offAlignment_runSimulationStep
  offAlignment_testPrintFrame : handlers.

Lemma offAlignment_fireTimer (n : nat) : offAlignment (fireTimer n).
Proof.
  intro w. unfold fireTimer.
  destruct (nth_error (timers w) n) as [t|].
  - revert w. change (offAlignment (runTimer t)).
    unfold runTimer. unfold_setters. respects_steps.
  - split; [reflexivity | constructor].
Qed.

#[local] Hint Resolve offAlignment_fireTimer : handlers.

(** Only the sliders of the alignment and an import touch the alignment. *)
Lemma offAlignment_handle (r : App) (e : Event) :
  match e with
  | ChangeAlignmentParams _ | ChooseImportFile _ => False
  | _ => True
  end ->
  offAlignment (handle r e).
Proof.
  intro He. destruct e; try contradiction; cbn [handle];
    try (unfold_event_handlers;
         unfold handleCalibration, handleTestPrint, handlePrint, writeValue;
         unfold_setters; solve [respects_steps]).
Qed.

(** What an import does to the alignment and to the channel: it sends
    nothing, keeps the connection, and sets the alignment of the archive
    once it has read the settings. *)
Lemma handleImportJob_alignment (file : File) (w : World) :
  let outcome := handleImportJob (Some file) w in
  messages (traceOf outcome) = [] /\
  presentationConnectionRef (app (worldAfter outcome))
  = presentationConnectionRef (app w) /\
  alignmentParams (app (worldAfter outcome))
  = match readableSettings file with
    | Some settings => Settings.alignmentParams settings
    | None => alignmentParams (app w)
    end /\
  exists x, resultOf outcome = Ok x.
Proof.
  cbv zeta.
  unfold handleImportJob, importBody, readableSettings.
  unfold setSlicingParams, setProjectionParams, setAlignmentParams,
    setProjectionImages, setFileName, setStlFile, setSlicingStatus,
    setSlicingStats, setActiveTab.
  destruct file as [nm [[[[|settings]|] folder]|]];
    cbv [try_catch bind ret throw emit modifyApp resultOf worldAfter traceOf];
    cbn [zip settings_json projections app timers nextTimerId fst snd];
    try (repeat split; try reflexivity; eexists; reflexivity).
  match goal with
  | |- context [promiseAll ?es ?w0] =>
      destruct (promiseAll_pure es w0) as [Hw Ht];
      unfold worldAfter, traceOf in Hw, Ht;
      destruct (promiseAll es w0) as [[[imgs|err] w1] t1]
  end; cbn [fst snd] in *; subst;
    destruct w as [a ts nid]; destruct a; cbn;
    (repeat split; try reflexivity; eexists; reflexivity).
Qed.

(** X25.  A change of the alignment by an event of the loop reaches a
    connected window in the same turn.  Whatever the event, if the alignment
    is another after it, then the one message of the turn is the new
    alignment, on the connection that the component holds; the window then
    applies the scale divided by 100 and the two offsets, which is the
    transform that the preview applies to its image, and what the window
    shows, image or crosshair, stays.  The same number that the window uses
    as contrast the preview uses as brightness.  The events that change the
    alignment are [ChangeAlignmentParams], which stands for the sliders, the
    arrow keys, the drag, the reset and the load of the offset, and an import
    that has read its settings, be it one that fails afterwards. *)
Theorem alignment_reaches_the_window (w w' : World) (e : Event)
    (trace : list Effect) (c : nat) (s : ProjectionView.State) :
  windowConnected w c ->
  step w e = Some (w', trace) ->
  alignmentParams (app w') <> alignmentParams (app w) ->
  let alignment := alignmentParams (app w') in
  In (Send c (UPDATE_ALIGNMENT alignment)) trace /\
  messages trace = [UPDATE_ALIGNMENT alignment] /\
  let s' := receive (messages trace) s in
  let preview := SlicePreview.style alignment in
  ProjectionView.transform s' = transformOf alignment /\
  ProjectionView.filter s' = contrast alignment /\
  ProjectionView.display s' = ProjectionView.display s /\
  SlicePreview.scaleBy preview
  = ProjectionView.scaleBy (ProjectionView.transform s') /\
  SlicePreview.translateXpx preview
  = ProjectionView.translateXpx (ProjectionView.transform s') /\
  SlicePreview.translateYpx preview
  = ProjectionView.translateYpx (ProjectionView.transform s') /\
  SlicePreview.brightness preview = ProjectionView.filter s'.
Proof.
  intros [Hc Hs] Hstep Hchanged. cbv zeta.
  assert (Hsent : In (Send c (UPDATE_ALIGNMENT (alignmentParams (app w')))) trace
                  /\ messages trace
                     = [UPDATE_ALIGNMENT (alignmentParams (app w'))]).
  { unfold step in Hstep. destruct (enabled (app w) e); [|discriminate].
    assert (Hoff : match e with
                   | ChangeAlignmentParams _ | ChooseImportFile _ => False
                   | _ => True
                   end -> False).
    { intro He. apply Hchanged.
      destruct (offAlignment_handle (app w) e He w) as [H _].
      unfold keepsAlignment, worldAfter in H.
      destruct (handle (app w) e w) as [[res w1] t1]. cbn [fst snd] in H.
      inversion Hstep; subst. exact H. }
    destruct e; try (exfalso; apply Hoff; exact I).
    - (* an import *)
      clear Hoff. cbn [handle] in Hstep.
      destruct file as [file|].
      { destruct (handleImportJob_alignment file w) as (Hm & Hr & Ha & x & Hx).
        cbv zeta in *.
        unfold bind in Hstep. unfold resultOf, worldAfter, traceOf in *.
        destruct (handleImportJob (Some file) w) as [[res w1] t1].
        cbn [fst snd] in *. subst res.
        unfold importEffect, readableSettings in *.
        destruct file as [nm [[[[|settings]|] folder]|]];
          cbn [zip settings_json] in *;
          try (exfalso; apply Hchanged; inversion Hstep; subst; exact Ha).
        unfold alignmentEffect in Hstep.
        cbv [bind getApp] in Hstep. rewrite Hr, Hc in Hstep.
        cbn [state send connectionId] in Hstep.
        unfold emit in Hstep. inversion Hstep; subst.
        rewrite messages_app, Hm. cbn [messages List.app].
        split; [|reflexivity].
        apply in_or_app. right. left. reflexivity. }
      { exfalso. apply Hchanged. cbn in Hstep. inversion Hstep.
        reflexivity. }
    - (* a slider *)
      clear Hoff. cbn [handle] in Hstep.
      unfold alignmentEffect, setAlignmentParams in Hstep.
      cbv [bind getApp modifyApp] in Hstep.
      cbn [app presentationConnectionRef with_alignmentParams] in Hstep.
      destruct w as [a0 ts nid]. destruct a0.
      cbn [app presentationConnectionRef with_alignmentParams alignmentParams]
        in *.
      rewrite Hc in Hstep. cbn [state send connectionId] in Hstep.
      unfold emit in Hstep. inversion Hstep; subst.
      cbn. split; [left; reflexivity | reflexivity]. }
  destruct Hsent as [Hin Hm]. split; [exact Hin|]. split; [exact Hm|].
  rewrite Hm. cbn. repeat split; reflexivity.
Qed.

Lemma alignment_reaches_the_window_witness :
  (exists w',
     step projectingWorld (ChangeAlignmentParams otherAlignment)
     = Some (w', [Send 1 (UPDATE_ALIGNMENT otherAlignment)]) /\
     alignmentParams (app w') = otherAlignment) /\
  messages (traceOf_step (step projectingWorld
                            (ChooseImportFile (Some archiveWithUnreadableImage))))
  = [UPDATE_ALIGNMENT (Settings.alignmentParams otherSettings)].
Proof.
  split.
  - destruct (step projectingWorld (ChangeAlignmentParams otherAlignment))
      as [[w' trace]|] eqn:E; [|vm_compute in E; discriminate E].
    assert (Ha : alignmentParams (app w') = otherAlignment)
      by (vm_compute in E; inversion E; reflexivity).
    destruct (alignment_reaches_the_window projectingWorld w'
                (ChangeAlignmentParams otherAlignment) trace 1
                ProjectionView.initial) as (_ & Hm & _).
    + split; reflexivity.
    + exact E.
    + rewrite Ha. vm_compute. intro H. discriminate H.
    + exists w'. split; [|exact Ha].
      vm_compute in E. inversion E. reflexivity.
  - destruct (step projectingWorld
                (ChooseImportFile (Some archiveWithUnreadableImage)))
      as [[w' trace]|] eqn:E; [|vm_compute in E; discriminate E].
    assert (Ha : alignmentParams (app w') = Settings.alignmentParams otherSettings)
      by (vm_compute in E; inversion E; reflexivity).
    destruct (alignment_reaches_the_window projectingWorld w'
                (ChooseImportFile (Some archiveWithUnreadableImage)) trace 1
                ProjectionView.initial) as (_ & Hm & _).
    + split; reflexivity.
    + exact E.
    + rewrite Ha. vm_compute. intro H. discriminate H.
    + cbn [traceOf_step]. rewrite Hm, Ha. reflexivity.
Defined.

(** ** Controls that are disabled *)

(** X26.  Leaving simulation mode during a print, with no device paired,
    disables the button that would stop the print: the switch changes
    nothing else, the print stays active with its timers pending, and no
    click on the Print button is possible until the mode is switched
    back. *)
Theorem leaving_simulation_locks_the_stop_button (w : World) :
  isPrinting (app w) = true ->
  isConnected (app w) = false ->
  exists w',
    step w (ChangeSimulationMode false) = Some (w', []) /\
    isPrinting (app w') = true /\
    timers w' = timers w /\
    printProcessRef (app w') = printProcessRef (app w) /\
    (forall rejected, step w' (ClickPrint rejected) = None) /\
    (isTestPrinting (app w) = false -> projectionImages (app w) <> [] ->
     forall w'' rejected,
       step w' (ChangeSimulationMode true) = Some (w'', []) ->
       enabled (app w'') (ClickPrint rejected) = true).
Proof.
  intros Hp Hc. destruct_world w. subst.
  eexists. split; [reflexivity|].
  repeat match goal with |- _ /\ _ => split end; try reflexivity.
  intros Ht Himg w'' rejected Hstep. unfold step in Hstep. cbn in Hstep.
  inversion Hstep. subst. cbn. unfold hasSlices. cbn.
  destruct projectionImages0; [contradiction | reflexivity].
Qed.

Lemma leaving_simulation_locks_the_stop_button_witness :
  exists w',
    step simulatedPrintWorld (ChangeSimulationMode false) = Some (w', []) /\
    isPrinting (app w') = true /\
    timers w' = timers simulatedPrintWorld.
Proof.
  destruct (leaving_simulation_locks_the_stop_button simulatedPrintWorld
              eq_refl eq_refl)
    as (w' & H1 & H2 & H3 & _).
  exists w'. split; [exact H1 | split; [exact H2 | exact H3]].
Defined.

(** X27.  A click on the button of the projection window asks for a window
    only when none is connected: with a connected window it terminates the
    connection and changes no state; otherwise the status becomes
    Connecting, which disables the button, so that no second request is
    made while the first is open. *)
Theorem window_button_opens_or_terminates (w : World) :
  enabled (app w) ClickOpenProjectionWindow = true ->
  exists w' trace,
    step w ClickOpenProjectionWindow = Some (w', trace) /\
    match presentationConnectionRef (app w) with
    | Some {| connectionId := c; state := connected |} =>
        w' = w /\ trace = [Terminate c]
    | _ =>
        trace = [] /\
        projectionWindowStatus (app w') = Connecting /\
        presentationConnectionRef (app w')
        = presentationConnectionRef (app w) /\
        timers w' = timers w /\
        step w' ClickOpenProjectionWindow = None
    end.
Proof.
  intro Hen. unfold step. rewrite Hen. cbn [handle].
  destruct_world w.
  destruct presentationConnectionRef0 as [[c [ | | | ]]|];
    unfold_handlers; unfold openProjectionWindow; unfold_handlers; cbn;
    eexists; eexists; (split; [reflexivity|]); repeat split.
Qed.

Lemma window_button_opens_or_terminates_witness :
  exists w' trace,
    step projectingWorld ClickOpenProjectionWindow = Some (w', trace) /\
    w' = projectingWorld /\ trace = [Terminate 1].
Proof.
  destruct (window_button_opens_or_terminates projectingWorld eq_refl)
    as (w' & trace & H1 & H2).
  exists w', trace. split; [exact H1 | exact H2].
Defined.

(** X28.  A click on Slice with a model file empties the image set and sets
    the status to slicing, and so disables the Slice, Export, Print and
    test buttons until slicing has ended; it stops no session: a print that
    runs keeps running with its timers, and its button is disabled with the
    others. *)
Theorem slicing_disables_the_job_controls (w : World) (rejected : option string) :
  enabled (app w) ClickSlice = true ->
  stlFile (app w) <> None ->
  exists w',
    step w ClickSlice = Some (w', []) /\
    projectionImages (app w') = [] /\
    slicingStatus (app w') = slicing /\
    enabled (app w') ClickSlice = false /\
    enabled (app w') ClickExportJob = false /\
    enabled (app w') (ClickPrint rejected) = false /\
    enabled (app w') ClickTestPrint = false /\
    isPrinting (app w') = isPrinting (app w) /\
    isTestPrinting (app w') = isTestPrinting (app w) /\
    timers w' = timers w.
Proof.
  intros Hen Hstl. unfold step. rewrite Hen. cbn [handle]. unfold handleSlice.
  destruct (stlFile (app w)) as [f|] eqn:E; [|contradiction].
  destruct_world w. unfold_setters. unfold_handlers. cbn.
  eexists. split; [reflexivity|]. cbn. unfold hasSlices. cbn.
  rewrite !orb_true_r. cbn.
  destruct fileName0; repeat split; reflexivity.
Qed.

Lemma slicing_disables_the_job_controls_witness :
  exists w',
    step slicedWorld ClickSlice = Some (w', []) /\
    projectionImages (app w') = [].
Proof.
  destruct (slicing_disables_the_job_controls slicedWorld None eq_refl)
    as (w' & H1 & H2 & _).
  - discriminate.
  - exists w'. split; [exact H1 | exact H2].
Defined.

(** ** The animation of the preview *)

Lemma max_spec (a b : Q) :
  (a <= SlicePreview.max a b)%Q /\ (b <= SlicePreview.max a b)%Q.
Proof.
  unfold SlicePreview.max. destruct (Qle_bool a b) eqn:E.
  - apply Qle_bool_iff in E. split; [exact E | apply Qle_refl].
  - split; [apply Qle_refl|].
    apply Qlt_le_weak, Qnot_le_lt. intro H. apply Qle_bool_iff in H. congruence.
Qed.

Lemma max_mono (a b : Q) :
  (a <= b)%Q -> (SlicePreview.max 16 a <= SlicePreview.max 16 b)%Q.
Proof.
  intro H. unfold SlicePreview.max.
  destruct (Qle_bool 16 a) eqn:Ea, (Qle_bool 16 b) eqn:Eb.
  - exact H.
  - apply Qle_bool_iff in Ea. exfalso.
    assert (Hb : (16 <= b)%Q) by lra.
    apply Qle_bool_iff in Hb. congruence.
  - apply Qle_bool_iff in Eb. exact Eb.
  - apply Qle_refl.
Qed.

Lemma Qdiv_le_anti (a s s' : Q) :
  (0 <= a)%Q -> (0 < s)%Q -> (s <= s')%Q -> (a / s' <= a / s)%Q.
Proof.
  intros Ha Hs Hss'.
  assert (Hs' : (0 < s')%Q) by lra.
  apply Qle_shift_div_l; [exact Hs|].
  assert (E : (a / s' * s == (s * a) / s')%Q) by (field; lra).
  rewrite E. apply Qle_shift_div_r; [exact Hs'|].
  rewrite (Qmult_comm a s'). apply Qmult_le_compat_r; assumption.
Qed.

Lemma rotationTime_nonneg (s : Q) :
  (0 < s)%Q -> (0 <= binary64 (binary64 (360 / s) * 1000))%Q.
Proof.
  intro Hs. apply binary64_nonneg.
  apply Qmult_le_0_compat; [|discriminate].
  apply binary64_nonneg. apply Qlt_le_weak, Qlt_shift_div_l; lra.
Qed.

Lemma rotationTime_mono (s s' : Q) :
  (0 < s)%Q -> (s <= s')%Q ->
  (binary64 (binary64 (360 / s') * 1000)
   <= binary64 (binary64 (360 / s) * 1000))%Q.
Proof.
  intros Hs Hss'.
  assert (Hs' : (0 < s')%Q) by lra.
  assert (Hq : (0 <= 360 / s')%Q)
    by (apply Qlt_le_weak, Qlt_shift_div_l; lra).
  apply binary64_mono.
  - apply Qmult_le_0_compat; [apply binary64_nonneg; exact Hq | discriminate].
  - apply Qmult_le_compat_r; [|discriminate].
    apply binary64_mono; [exact Hq|].
    apply Qdiv_le_anti; [discriminate | exact Hs | exact Hss'].
Qed.

(** X29.  The animation of the preview shows a frame for at least 16
    milliseconds, whatever the speed and the number of images; and neither
    more images nor a higher speed make its period longer.  The period is
    computed in binary64; from a speed of a millionth on, no step of it is
    beyond the range of the format. *)
Theorem preview_period_is_bounded_and_monotone
    (images images' : list string) (p p' : ProjectionParams) :
  images <> [] ->
  List.length images <= List.length images' ->
  (1 # 1000000 <= rotationSpeed p)%Q ->
  (rotationSpeed p <= rotationSpeed p')%Q ->
  (16 <= SlicePreview.frameIntervalMs images p)%Q /\
  (SlicePreview.frameIntervalMs images' p
   <= SlicePreview.frameIntervalMs images p)%Q /\
  (SlicePreview.frameIntervalMs images p'
   <= SlicePreview.frameIntervalMs images p)%Q.
Proof.
  intros Hne Hlen Hs Hss'.
  assert (Hs0 : (0 < rotationSpeed p)%Q) by lra.
  assert (Hn : (0 < inject_Z (SlicePreview.lengthOf images))%Q).
  { unfold SlicePreview.lengthOf. destruct images; [contradiction|].
    rewrite <- (Zlt_Qlt 0). cbn [List.length]. lia. }
  assert (Hnn' : (inject_Z (SlicePreview.lengthOf images)
                  <= inject_Z (SlicePreview.lengthOf images'))%Q).
  { unfold SlicePreview.lengthOf. rewrite <- Zle_Qle. lia. }
  unfold SlicePreview.frameIntervalMs.
  set (n := inject_Z (SlicePreview.lengthOf images)) in *.
  set (n' := inject_Z (SlicePreview.lengthOf images')) in *.
  pose proof (rotationTime_nonneg (rotationSpeed p) Hs0) as HT.
  pose proof (rotationTime_nonneg (rotationSpeed p') ltac:(lra)) as HT'.
  pose proof (rotationTime_mono _ _ Hs0 Hss') as HTT'.
  set (T := binary64 (binary64 (360 / rotationSpeed p) * 1000)) in *.
  set (T' := binary64 (binary64 (360 / rotationSpeed p') * 1000)) in *.
  split; [exact (proj1 (max_spec 16 _))|]. split.
  - apply max_mono. apply binary64_mono.
    + apply Qle_shift_div_l; lra.
    + apply Qdiv_le_anti; assumption.
  - apply max_mono. apply binary64_mono.
    + apply Qle_shift_div_l; lra.
    + apply Qmult_le_compat_r; [exact HTT'|].
      apply Qlt_le_weak, Qinv_lt_0_compat. exact Hn.
Qed.

Lemma preview_period_is_bounded_and_monotone_witness :
  (SlicePreview.frameIntervalMs twoImages (withSpeed 30) == 6000)%Q /\
  (SlicePreview.frameIntervalMs (repeat "AAAA"%string 1000) (withSpeed 30) == 16)%Q /\
  (SlicePreview.frameIntervalMs twoImages (withSpeed 60)
   <= SlicePreview.frameIntervalMs twoImages (withSpeed 30))%Q.
Proof.
  split; [vm_compute; reflexivity|]. split; [vm_compute; reflexivity|].
  refine (proj2 (proj2 (preview_period_is_bounded_and_monotone
                          twoImages twoImages (withSpeed 30) (withSpeed 60)
                          _ _ _ _))).
  - discriminate.
  - apply Nat.le_refl.
  - discriminate.
  - discriminate.
Defined.
